(** * docs-converter: the markdown reader (src/reader/markdown_reader.py)

    A shallow embedding of [MarkdownReader] and the properties of its
    extraction passes.

    Python strings are sequences of Unicode code points: a character is a
    code point ([N]) and a string a list of them.  The whitespace table
    used by [str.strip] and by the regular-expression class [\s] is the
    interpreter's own (Py_UNICODE_ISSPACE) and is written out in full.  The
    classes [\d] and [\w] are written out on the ASCII range; what they do
    on the other code points is the interpreter's Unicode database, which
    is taken as a parameter of the development ([uni_decimal],
    [uni_alnum]). *)

From Stdlib Require Import String Ascii List NArith Arith Bool Lia Sorted.
Import ListNotations.
Open Scope string_scope.
Open Scope list_scope.

Set Implicit Arguments.

(** ** Python strings *)

Definition char := N.
Bind Scope N_scope with char.
Definition str := list char.

(** A literal of the source: the code points of an ASCII literal. *)
Definition py (s : string) : str :=
  map N_of_ascii (list_ascii_of_string s).

Definition nl : char := 10%N.
Definition hash : char := 35%N.
Definition backtick : char := 96%N.

Definition in_range (lo hi c : N) : bool := (N.leb lo c && N.leb c hi)%bool.

(** [str.isspace] on one character, which is also the class [\s] of [re]
    on [str] patterns. *)
Definition is_space (c : char) : bool :=
  (in_range 9 13 c || in_range 28 32 c || N.eqb c 133 || N.eqb c 160
   || N.eqb c 5760 || in_range 8192 8202 c || N.eqb c 8232 || N.eqb c 8233
   || N.eqb c 8239 || N.eqb c 8287 || N.eqb c 12288)%bool.

Definition ascii_decimal (c : char) : bool := in_range 48 57 c.

Definition ascii_alnum (c : char) : bool :=
  (in_range 48 57 c || in_range 65 90 c || in_range 97 122 c)%bool.

(** [not s] on a string. *)
Definition str_empty (s : str) : bool :=
  match s with [] => true | _ :: _ => false end.

Fixpoint str_eqb (a b : str) : bool :=
  match a, b with
  | [], [] => true
  | x :: a', y :: b' => (N.eqb x y && str_eqb a' b')%bool
  | _, _ => false
  end.

(** [s.lstrip()], [s.rstrip()], [s.strip()] *)
Fixpoint lstrip (s : str) : str :=
  match s with
  | [] => []
  | c :: s' => if is_space c then lstrip s' else s
  end.

Definition rstrip (s : str) : str := rev (lstrip (rev s)).

Definition strip (s : str) : str := rstrip (lstrip s).

(** [s.startswith(p)] *)
Fixpoint startswith (p s : str) : bool :=
  match p, s with
  | [], _ => true
  | _ :: _, [] => false
  | a :: p', b :: s' => (N.eqb a b && startswith p' s')%bool
  end.

(** [s.split(sep)] for a one-character separator: never the empty list. *)
Fixpoint split_on (sep : char) (s : str) : list str :=
  match s with
  | [] => [[]]
  | c :: s' =>
      if N.eqb c sep then [] :: split_on sep s'
      else match split_on sep s' with
           | l :: ls => (c :: l) :: ls
           | [] => [[c]]
           end
  end.

(** [sep.join(l)] *)
Fixpoint join (sep : str) (l : list str) : str :=
  match l with
  | [] => []
  | [x] => x
  | x :: l' => x ++ sep ++ join sep l'
  end.

Definition split_lines (s : str) : list str := split_on nl s.
Definition join_lines (l : list str) : str := join [nl] l.
Definition join_spaces (l : list str) : str := join (py " ") l.

(** A document given line by line. *)
Definition doc (l : list string) : str := join_lines (map py l).

(** [enumerate(l)] *)
Fixpoint enumerate_from {A : Type} (i : nat) (l : list A) : list (nat * A) :=
  match l with
  | [] => []
  | x :: l' => (i, x) :: enumerate_from (S i) l'
  end.

Definition enumerate {A : Type} (l : list A) : list (nat * A) :=
  enumerate_from 0 l.

(** ** The regular expressions of the reader

    The fragment of [re] the source uses: literals, character classes,
    bounded or unbounded repetition of ONE character class (greedy or
    lazy), optional and capturing groups, sequencing and the anchors [^]
    and [$].  The matcher is the backtracking matcher of [re]: a
    repetition tries its alternatives in priority order and the first
    that lets the rest of the pattern match wins. *)

Inductive cclass : Type :=
| CChar (c : char)              (* a literal character *)
| CNot (c : char)               (* [^c] *)
| COneOf (l : list char)        (* [abc] *)
| CDot                          (* . without DOTALL: anything but a newline *)
| CAny                          (* . under DOTALL *)
| CSpace                        (* \s *)
| CDigit                        (* \d *)
| CWord.                        (* \w *)

Inductive regex : Type :=
| Cls (c : cclass)
| Rep (c : cclass) (lo : nat) (hi : option nat) (greedy : bool)
| Grp (n : nat) (r : regex)
| Opt (r : regex)
| Seq (r1 r2 : regex)
| Bol
| Eol.

(** A match: where it ends and the text of the groups that took part. *)
Definition groups := list (nat * str).

Record rmatch : Type := mkMatch { m_end : nat; m_groups : groups }.

Fixpoint lookup (n : nat) (g : groups) : option str :=
  match g with
  | [] => None
  | (k, v) :: g' => if Nat.eqb k n then Some v else lookup n g'
  end.

(** [m.group(n)]: [None] when the group did not take part. *)
Definition group (m : rmatch) (n : nat) : option str := lookup n (m_groups m).

(** [m.group(n)] for a group every match of the pattern goes through. *)
Definition group_str (m : rmatch) (n : nat) : str :=
  match group m n with Some s => s | None => [] end.

Definition cont := nat -> str -> groups -> option rmatch.

Definition hi_zero (hi : option nat) : bool :=
  match hi with Some 0 => true | _ => false end.

Section Regex.

(** The Unicode database outside ASCII. *)
Variable uni_decimal : char -> bool.
Variable uni_alnum : char -> bool.

Definition is_decimal (c : char) : bool :=
  if N.ltb c 128 then ascii_decimal c else uni_decimal c.

Definition is_word (c : char) : bool :=
  if N.ltb c 128 then (ascii_alnum c || N.eqb c 95)%bool else uni_alnum c.

Definition cmatch (cl : cclass) (c : char) : bool :=
  match cl with
  | CChar a => N.eqb c a
  | CNot a => negb (N.eqb c a)
  | COneOf l => existsb (N.eqb c) l
  | CDot => negb (N.eqb c nl)
  | CAny => true
  | CSpace => is_space c
  | CDigit => is_decimal c
  | CWord => is_word c
  end.

(** Greedy repetition: one more character first, stopping here second. *)
Fixpoint rep_greedy (cl : cclass) (lo : nat) (hi : option nat)
    (i : nat) (s : str) (g : groups) (k : cont) : option rmatch :=
  let stop := match lo with 0 => k i s g | S _ => None end in
  match s with
  | c :: s' =>
      if (cmatch cl c && negb (hi_zero hi))%bool then
        match rep_greedy cl (pred lo) (option_map pred hi) (S i) s' g k with
        | Some m => Some m
        | None => stop
        end
      else stop
  | [] => stop
  end.

(** Lazy repetition: stopping here first, one more character second. *)
Fixpoint rep_lazy (cl : cclass) (lo : nat) (hi : option nat)
    (i : nat) (s : str) (g : groups) (k : cont) : option rmatch :=
  match s with
  | c :: s' =>
      match lo with
      | 0 =>
          match k i s g with
          | Some m => Some m
          | None =>
              if (cmatch cl c && negb (hi_zero hi))%bool
              then rep_lazy cl 0 (option_map pred hi) (S i) s' g k
              else None
          end
      | S lo' =>
          if (cmatch cl c && negb (hi_zero hi))%bool
          then rep_lazy cl lo' (option_map pred hi) (S i) s' g k
          else None
      end
  | [] => match lo with 0 => k i s g | S _ => None end
  end.

(** [run r i s g k]: match [r] at offset [i], where [s] is the text from
    [i] on, then the rest of the pattern [k]. *)
Fixpoint run (r : regex) (i : nat) (s : str) (g : groups) (k : cont)
    : option rmatch :=
  match r with
  | Cls cl =>
      match s with
      | c :: s' => if cmatch cl c then k (S i) s' g else None
      | [] => None
      end
  | Rep cl lo hi true => rep_greedy cl lo hi i s g k
  | Rep cl lo hi false => rep_lazy cl lo hi i s g k
  | Grp n r' =>
      run r' i s g (fun j s' g' => k j s' ((n, firstn (j - i) s) :: g'))
  | Opt r' =>
      match run r' i s g k with
      | Some m => Some m
      | None => k i s g
      end
  | Seq r1 r2 => run r1 i s g (fun j s' g' => run r2 j s' g' k)
  | Bol => if Nat.eqb i 0 then k i s g else None
  | Eol =>
      match s with
      | [] => k i s g
      | [c] => if N.eqb c nl then k i s g else None
      | _ => None
      end
  end.

Definition accept : cont := fun j _ g => Some (mkMatch j g).

(** [re.match(r, s)] *)
Definition re_match (r : regex) (s : str) : option rmatch :=
  run r 0 s [] accept.

(** [re.finditer(r, s)] for a pattern without anchors: the leftmost match
    from each position on, the next search starting where the match
    ended.  [skip] counts the characters of the last match still to step
    over.  (Every pattern searched this way starts with a literal, so a
    match is never empty.) *)
Fixpoint finditer_from (r : regex) (skip : nat) (s : str)
    : list (str * rmatch) :=
  match s with
  | [] => []
  | _ :: s' =>
      match skip with
      | S n => finditer_from r n s'
      | 0 =>
          match run r 0 s [] accept with
          | Some m => (s, m) :: finditer_from r (pred (m_end m)) s'
          | None => finditer_from r 0 s'
          end
      end
  end.

Definition finditer (r : regex) (s : str) : list rmatch :=
  map snd (finditer_from r 0 s).

End Regex.

Infix ">>" := Seq (at level 60, right associativity).

(** The patterns of the source, in the order they appear there. *)

(** [r'^#\s+(.+)$'] *)
Definition title_re : regex :=
  Bol >> Cls (CChar hash) >> Rep CSpace 1 None true
      >> Grp 1 (Rep CDot 1 None true) >> Eol.

(** [r'^(#{1,6})\s+(.+)$'] *)
Definition heading_re : regex :=
  Bol >> Grp 1 (Rep (CChar hash) 1 (Some 6) true) >> Rep CSpace 1 None true
      >> Grp 2 (Rep CDot 1 None true) >> Eol.

(** [r'^[-*+]\s+'] *)
Definition bullet_re : regex :=
  Bol >> Cls (COneOf (py "-*+")) >> Rep CSpace 1 None true.

(** [r'^\d+\.\s+'] *)
Definition number_re : regex :=
  Bol >> Rep CDigit 1 None true >> Cls (CChar 46) >> Rep CSpace 1 None true.

(** [r'```(\w+)?\n(.*?)```'] with [re.DOTALL] *)
Definition code_re : regex :=
  Cls (CChar backtick) >> Cls (CChar backtick) >> Cls (CChar backtick)
      >> Opt (Grp 1 (Rep CWord 1 None true)) >> Cls (CChar nl)
      >> Grp 2 (Rep CAny 0 None false)
      >> Cls (CChar backtick) >> Cls (CChar backtick) >> Cls (CChar backtick).

(** [r'\[([^\]]+)\]\(([^\)]+)\)'] *)
Definition link_re : regex :=
  Cls (CChar 91) >> Grp 1 (Rep (CNot 93) 1 None true) >> Cls (CChar 93)
      >> Cls (CChar 40) >> Grp 2 (Rep (CNot 41) 1 None true) >> Cls (CChar 41).

(** [r'^\[([^\]]+)\]:\s+(.+)$'] *)
Definition ref_re : regex :=
  Bol >> Cls (CChar 91) >> Grp 1 (Rep (CNot 93) 1 None true) >> Cls (CChar 93)
      >> Cls (CChar 58) >> Rep CSpace 1 None true
      >> Grp 2 (Rep CDot 1 None true) >> Eol.

(** The image pattern: [!], then [\[], group 1 = [[^\]]] zero or more
    times, then [\]\(], group 2 = [[^\)]+], then [\)]. *)
Definition image_re : regex :=
  Cls (CChar 33) >> Cls (CChar 91) >> Grp 1 (Rep (CNot 93) 0 None true)
      >> Cls (CChar 93) >> Cls (CChar 40)
      >> Grp 2 (Rep (CNot 41) 1 None true) >> Cls (CChar 41).

(** ** The records the reader returns (dictionaries in the source) *)

Module Heading.
Record t : Type := Make { level : nat; text : str; line_number : nat }.
End Heading.

Module CodeBlock.
Record t : Type := Make { language : option str; code : str }.
End CodeBlock.

Module Link.
Record t : Type := Make { text : str; url : str }.
End Link.

Module Image.
Record t : Type := Make { alt_text : str; url : str }.
End Image.

Module Sect.
Record t : Type := Make { level : nat; heading : str; content : str }.
End Sect.

Module Parsed.
Record t : Type := Make {
  title : option str;
  headings : list Heading.t;
  paragraphs : list str;
  code_blocks : list CodeBlock.t;
  links : list Link.t;
  images : list Image.t;
  raw : str }.
End Parsed.

(** ** Exceptions and the file system *)

Inductive exn : Type :=
| FileNotFoundError (msg : str)
| ValueError (msg : str)
| ReadError (msg : str).     (* whatever [Path.read_text] raises *)

Inductive result (A : Type) : Type :=
| Ok (a : A)
| Raise (e : exn).

Arguments Ok {A} a.
Arguments Raise {A} e.

(** What [pathlib] answers about a path. *)
Record FileSystem : Type := {
  fs_exists : str -> bool;
  fs_is_file : str -> bool;
  fs_read_text : str -> result str }.

(** The three errors of the reader. *)
Definition NotFoundError (file_path : str) : exn :=
  FileNotFoundError (py "File not found: " ++ file_path).

Definition InvalidInputError (file_path : str) : exn :=
  ValueError (py "Path is not a file: " ++ file_path).

Definition NoContentError : exn :=
  ValueError (py "No content to parse. Call read() or read_string() first.").

(** ** The reader *)

Record MarkdownReader : Type := {
  file_path : option str;
  content : option str;
  parsed_content : option Parsed.t }.

(** [MarkdownReader()] *)
Definition init : MarkdownReader :=
  {| file_path := None; content := None; parsed_content := None |}.

(** The guard [if not self.content]: a text that is neither [None] nor
    empty. *)
Definition truthy (o : option str) : option str :=
  match o with
  | Some (c :: s) => Some (c :: s)
  | _ => None
  end.

Definition read (fs : FileSystem) (self : MarkdownReader) (path : str)
    : result str * MarkdownReader :=
  if negb (fs_exists fs path) then (Raise (NotFoundError path), self)
  else if negb (fs_is_file fs path) then (Raise (InvalidInputError path), self)
  else
    let self1 := {| file_path := Some path; content := content self;
                    parsed_content := parsed_content self |} in
    match fs_read_text fs path with
    | Raise e => (Raise e, self1)
    | Ok txt =>
        (Ok txt, {| file_path := Some path; content := Some txt;
                    parsed_content := None |})
    end.

Definition read_string (self : MarkdownReader) (c : str)
    : str * MarkdownReader :=
  (c, {| file_path := None; content := Some c; parsed_content := None |}).

Definition get_content (self : MarkdownReader) : option str := content self.

(** [MarkdownReader(file_path)] *)
Definition new (fs : FileSystem) (path : option str) : result MarkdownReader :=
  match truthy path with
  | None => Ok init
  | Some p =>
      match read fs init p with
      | (Ok _, self) => Ok self
      | (Raise e, _) => Raise e
      end
  end.

Section Reader.

Variable uni_decimal : char -> bool.
Variable uni_alnum : char -> bool.

Local Abbreviation re_match := (re_match uni_decimal uni_alnum).
Local Abbreviation finditer := (finditer uni_decimal uni_alnum).

(** *** Title *)

Fixpoint title_loop (lines : list str) : option str :=
  match lines with
  | [] => None
  | line :: rest =>
      match re_match title_re (strip line) with
      | Some m => Some (strip (group_str m 1))
      | None => title_loop rest
      end
  end.

Definition _extract_title (self : MarkdownReader) : option str :=
  match truthy (content self) with
  | None => None
  | Some c => title_loop (split_lines c)
  end.

(** *** Headings *)

(** The test [_extract_headings] and [get_sections] both make on a line,
    with the level and the text they both compute from the match: the
    pattern on the stripped line, [len(match.group(1))] and
    [match.group(2).strip()]. *)
Definition heading_of (line : str) : option (nat * str) :=
  match re_match heading_re (strip line) with
  | Some m => Some (length (group_str m 1), strip (group_str m 2))
  | None => None
  end.

Definition headings_step (headings : list Heading.t) (il : nat * str)
    : list Heading.t :=
  match heading_of (snd il) with
  | Some (level, text) => headings ++ [Heading.Make level text (fst il + 1)]
  | None => headings
  end.

Definition _extract_headings (self : MarkdownReader) : list Heading.t :=
  match truthy (content self) with
  | None => []
  | Some c => fold_left headings_step (enumerate (split_lines c)) []
  end.

(** *** Paragraphs *)

Definition is_some {A : Type} (o : option A) : bool :=
  match o with Some _ => true | None => false end.

(** The loop state: [paragraphs] and [current_paragraph]. *)
Definition para_state : Type := (list str * list str)%type.

Definition para_step (st : para_state) (line : str) : para_state :=
  let (paragraphs, current_paragraph) := st in
  let stripped := strip line in
  if str_empty stripped then
    match current_paragraph with
    | _ :: _ => (paragraphs ++ [join_spaces current_paragraph], [])
    | [] => st
    end
  else if startswith (py "#") stripped then st
  else if startswith (py "```") stripped then st
  else if is_some (re_match bullet_re stripped) then st
  else if is_some (re_match number_re stripped) then st
  else (paragraphs, current_paragraph ++ [stripped]).

Definition para_finish (st : para_state) : list str :=
  let (paragraphs, current_paragraph) := st in
  let paragraphs :=
    match current_paragraph with
    | _ :: _ => paragraphs ++ [join_spaces current_paragraph]
    | [] => paragraphs
    end in
  filter (fun p => negb (str_empty p)) paragraphs.

Definition _extract_paragraphs (self : MarkdownReader) : list str :=
  match truthy (content self) with
  | None => []
  | Some c => para_finish (fold_left para_step (split_lines c) ([], []))
  end.

(** *** Code blocks *)

Definition code_block_of (m : rmatch) : CodeBlock.t :=
  CodeBlock.Make
    (match group m 1 with
     | Some (c :: s) => Some (c :: s)
     | _ => None
     end)
    (strip (group_str m 2)).

Definition _extract_code_blocks (self : MarkdownReader) : list CodeBlock.t :=
  match truthy (content self) with
  | None => []
  | Some c => map code_block_of (finditer code_re c)
  end.

(** *** Links *)

Definition inline_link_of (m : rmatch) : Link.t :=
  Link.Make (group_str m 1) (group_str m 2).

Definition ref_links_step (links : list Link.t) (line : str) : list Link.t :=
  match re_match ref_re (strip line) with
  | Some m => links ++ [Link.Make (group_str m 1) (strip (group_str m 2))]
  | None => links
  end.

Definition _extract_links (self : MarkdownReader) : list Link.t :=
  match truthy (content self) with
  | None => []
  | Some c =>
      let links := map inline_link_of (finditer link_re c) in
      fold_left ref_links_step (split_lines c) links
  end.

(** *** Images *)

Definition image_of (m : rmatch) : Image.t :=
  Image.Make (group_str m 1) (group_str m 2).

Definition _extract_images (self : MarkdownReader) : list Image.t :=
  match truthy (content self) with
  | None => []
  | Some c => map image_of (finditer image_re c)
  end.

(** *** parse *)

Definition parse (self : MarkdownReader)
    : result Parsed.t * MarkdownReader :=
  match truthy (content self) with
  | None => (Raise NoContentError, self)
  | Some c =>
      match parsed_content self with
      | Some cached => (Ok cached, self)
      | None =>
          let parsed :=
            {| Parsed.title := _extract_title self;
               Parsed.headings := _extract_headings self;
               Parsed.paragraphs := _extract_paragraphs self;
               Parsed.code_blocks := _extract_code_blocks self;
               Parsed.links := _extract_links self;
               Parsed.images := _extract_images self;
               Parsed.raw := c |} in
          (Ok parsed,
           {| file_path := file_path self; content := content self;
              parsed_content := Some parsed |})
      end
  end.

Definition get_headings_by_level (self : MarkdownReader) (level : nat)
    : result (list str) * MarkdownReader :=
  match parse self with
  | (Ok parsed, self') =>
      (Ok (map Heading.text
             (filter (fun h => Nat.eqb (Heading.level h) level)
                     (Parsed.headings parsed))), self')
  | (Raise e, self') => (Raise e, self')
  end.

(** *** Sections *)

(** The loop state: [sections], [current_section], [current_content]. *)
Definition sect_state : Type :=
  (list Sect.t * option Sect.t * list str)%type.

Definition close_section (sections : list Sect.t)
    (current_section : option Sect.t) (current_content : list str)
    : list Sect.t :=
  match current_section with
  | Some cs =>
      sections ++ [Sect.Make (Sect.level cs) (Sect.heading cs)
                             (strip (join_lines current_content))]
  | None => sections
  end.

Definition sect_step (st : sect_state) (line : str) : sect_state :=
  let '(sections, current_section, current_content) := st in
  match heading_of line with
  | Some (level, text) =>
      (close_section sections current_section current_content,
       Some (Sect.Make level text []), [])
  | None =>
      match current_section with
      | Some _ => (sections, current_section, current_content ++ [line])
      | None => st
      end
  end.

Definition get_sections (self : MarkdownReader) : list Sect.t :=
  match truthy (content self) with
  | None => []
  | Some c =>
      let '(sections, current_section, current_content) :=
        fold_left sect_step (split_lines c) ([], None, []) in
      close_section sections current_section current_content
  end.

End Reader.

(** A Unicode database that knows no decimal digit and no letter outside
    ASCII, for running the reader on ASCII documents. *)
Definition no_uni : char -> bool := fun _ => false.

Definition loaded (c : str) : MarkdownReader := snd (read_string init c).


(** ** Vocabulary of the statements *)

Definition all_space (s : str) : Prop := Forall (fun c => is_space c = true) s.

(** A line: a text without a newline. *)
Definition no_nl (s : str) : Prop := Forall (fun c => c <> nl) s.

(** Nothing to strip at either end. *)
Definition trimmed (s : str) : Prop := lstrip s = s /\ rstrip s = s.

(** A blank line, as the paragraph pass sees it. *)
Definition blank (line : str) : bool := str_empty (strip line).

(** No whitespace at the end. *)
Definition no_trailing_space (s : str) : Prop :=
  forall a w, s = a ++ w -> all_space w -> w = [].

(** The length of the longest prefix of [s] made of characters in [p]. *)
Fixpoint span (p : char -> bool) (s : str) : nat :=
  match s with
  | c :: s' => if p c then S (span p s') else 0
  | [] => 0
  end.

(** The bound [hi] of a repetition allows [n] characters. *)
Definition hi_ok (hi : option nat) (n : nat) : bool :=
  match hi with Some h => Nat.leb n h | None => true end.

Definition is_hash (c : char) : bool := N.eqb c hash.

(** The form of a heading line: 1 to 6 [#], whitespace, a text; [text] is
    that text, trimmed. *)
Definition heading_form (s : str) (level : nat) (text : str) : Prop :=
  exists ws rest,
    s = repeat hash level ++ ws ++ rest /\
    1 <= level <= 6 /\
    ws <> [] /\ all_space ws /\
    rest <> [] /\ text = strip rest.

(** The first level-1 entry of a list of headings. *)
Definition first_h1 (hs : list Heading.t) : option str :=
  option_map Heading.text (find (fun h => Nat.eqb (Heading.level h) 1) hs).

Definition fence : str := py "```".

(** Where the first [```] of a text starts. *)
Fixpoint find_fence (s : str) : option nat :=
  if startswith fence s then Some 0
  else match s with
       | [] => None
       | _ :: s' => option_map S (find_fence s')
       end.

(** What a flush adds to [paragraphs]. *)
Definition flush (current_paragraph : list str) : list str :=
  match current_paragraph with
  | _ :: _ => [join_spaces current_paragraph]
  | [] => []
  end.

(** The closing fence of the pattern. *)
Definition fence_re : regex :=
  Cls (CChar backtick) >> Cls (CChar backtick) >> Cls (CChar backtick).

(** The rest of the code pattern after the language tag. *)
Definition code_tail : regex :=
  Cls (CChar nl) >> Grp 2 (Rep CAny 0 None false) >> fence_re.


Section Vocabulary.

Variable uni_decimal : char -> bool.
Variable uni_alnum : char -> bool.

Local Abbreviation re_match := (re_match uni_decimal uni_alnum).
Local Abbreviation line_heading := (heading_of uni_decimal uni_alnum).

(** The title a line gives, if it gives one. *)
Definition title_of (line : str) : option str :=
  match re_match title_re (strip line) with
  | Some m => Some (strip (group_str m 1))
  | None => None
  end.

(** The headings of the lines from number [i + 1] on. *)
Fixpoint headings_from (i : nat) (lines : list str) : list Heading.t :=
  match lines with
  | [] => []
  | line :: rest =>
      match line_heading line with
      | Some (level, text) =>
          Heading.Make level text (i + 1) :: headings_from (S i) rest
      | None => headings_from (S i) rest
      end
  end.

(** A line the paragraph pass skips: not blank, and a heading, a fence,
    a bullet or a numbered item. *)
Definition skip_line (line : str) : bool :=
  let stripped := strip line in
  (negb (str_empty stripped)
   && (startswith (py "#") stripped
       || startswith (py "```") stripped
       || is_some (re_match bullet_re stripped)
       || is_some (re_match number_re stripped)))%bool.

(** The forms of a skipped line, once stripped: it starts with [#], or
    with a fence, or with a bullet and whitespace, or with digits, a dot
    and whitespace. *)
Definition skip_form (s : str) : Prop :=
  (exists r, s = hash :: r)
  \/ (exists r, s = fence ++ r)
  \/ (exists m c r,
        s = m :: c :: r /\ In m (py "-*+") /\ is_space c = true)
  \/ (exists ds c r,
        s = ds ++ 46%N :: c :: r /\ ds <> [] /\
        Forall (fun d => is_decimal uni_decimal d = true) ds /\
        is_space c = true).

(** A line that goes into a paragraph. *)
Definition plain_line (line : str) : bool :=
  (negb (blank line) && negb (skip_line line))%bool.

(** The paragraphs of a list of lines. *)
Definition paragraphs_of (lines : list str) : list str :=
  para_finish (fold_left (para_step uni_decimal uni_alnum) lines ([], [])).

(** A heading line with the lines up to the next heading. *)
Record block : Type := {
  b_line : str; b_level : nat; b_heading : str; b_body : list str }.

Definition block_lines (b : block) : list str := b_line b :: b_body b.

Definition not_heading (line : str) : Prop := line_heading line = None.

Definition block_ok (b : block) : Prop :=
  line_heading (b_line b) = Some (b_level b, b_heading b) /\
  Forall not_heading (b_body b).

Definition block_section (b : block) : Sect.t :=
  Sect.Make (b_level b) (b_heading b) (strip (join_lines (b_body b))).

Definition sect_finish (st : sect_state) : list Sect.t :=
  let '(sections, current_section, current_content) := st in
  close_section sections current_section current_content.

Definition sections_of (lines : list str) : list Sect.t :=
  sect_finish (fold_left (sect_step uni_decimal uni_alnum) lines ([], None, [])).

Definition sect_key (s : Sect.t) : nat * str := (Sect.level s, Sect.heading s).

End Vocabulary.

Section Machine.

Variable uni_decimal : char -> bool.
Variable uni_alnum : char -> bool.

(** The same reader with an empty cache. *)
Definition fresh (self : MarkdownReader) : MarkdownReader :=
  {| file_path := file_path self; content := content self;
     parsed_content := None |}.

(** The states the operations of the reader lead to. *)
Inductive reachable : MarkdownReader -> Prop :=
| reach_init : reachable init
| reach_read fs self path :
    reachable self -> reachable (snd (read fs self path))
| reach_read_string self c :
    reachable self -> reachable (snd (read_string self c))
| reach_parse self :
    reachable self -> reachable (snd (parse uni_decimal uni_alnum self)).

(** The cache holds what parsing the current content gives. *)
Definition cache_ok (self : MarkdownReader) : Prop :=
  forall d, parsed_content self = Some d ->
            fst (parse uni_decimal uni_alnum (fresh self)) = Ok d.

(** What [parse] answers on a text just loaded. *)
Definition parse_text (c : str) : result Parsed.t :=
  fst (parse uni_decimal uni_alnum (loaded c)).

(** The result of parsing the text [c], field by field: a function of
    the text alone. *)
Definition document (c : str) : Parsed.t :=
  {| Parsed.title := _extract_title uni_decimal uni_alnum (loaded c);
     Parsed.headings := _extract_headings uni_decimal uni_alnum (loaded c);
     Parsed.paragraphs := _extract_paragraphs uni_decimal uni_alnum (loaded c);
     Parsed.code_blocks := _extract_code_blocks uni_decimal uni_alnum (loaded c);
     Parsed.links := _extract_links uni_decimal uni_alnum (loaded c);
     Parsed.images := _extract_images uni_decimal uni_alnum (loaded c);
     Parsed.raw := c |}.

End Machine.

(** The value of a call that returned. *)
Definition returned {A : Type} (r : result A) : option A :=
  match r with Ok a => Some a | Raise _ => None end.

(** ** Example documents *)

Definition links_example : str :=
  doc ["[site](http://a.com) and ![alt](http://b.com/img.png)"].

Definition sections_example : str :=
  doc ["# A"; "content1"; "## B"; "content2"].

Definition blank_lines_example : str :=
  doc ["intro"; "# A"; "x"; ""; "y"; ""; "## B"].

Definition code_example : str :=
  doc ["```python"; "print(1)"; "```"].

Definition code_in_text_example : str :=
  doc ["Some text."; "```python"; "print(1)"; "```"; "More text."].

Definition duplicates_example : str :=
  doc ["# A"; "# A"].

(** A file system with one file, one directory and nothing else. *)
Definition fs_example : FileSystem :=
  {| fs_exists := fun p => (str_eqb p (py "a.md") || str_eqb p (py "dir"))%bool;
     fs_is_file := fun p => str_eqb p (py "a.md");
     fs_read_text := fun p =>
       if str_eqb p (py "a.md") then Ok (doc ["# A"; "text"])
       else Raise (ReadError (py "cannot read")) |}.

Definition title_example : str := doc ["## Sub"; " # Top "; "# Next"].

Definition reference_example : str := py "  [home]:   http://a.com/x  ".

(** A file system whose one file cannot be read. *)
Definition fs_unreadable : FileSystem :=
  {| fs_exists := fun p => str_eqb p (py "b.md");
     fs_is_file := fun p => str_eqb p (py "b.md");
     fs_read_text := fun _ => Raise (ReadError (py "invalid start byte")) |}.

(** Checkers for concrete documents. *)
Definition no_nlb (s : str) : bool := forallb (fun c => negb (N.eqb c nl)) s.

Definition linesb (ls : list str) : bool := forallb no_nlb ls.

Definition all_spaceb (s : str) : bool := forallb is_space s.

Definition no_backtickb (s : str) : bool :=
  forallb (fun c => negb (N.eqb c backtick)) s.

Definition absentb (d : char) (s : str) : bool := negb (existsb (N.eqb d) s).

(** ** Vocabulary of the bracket patterns *)

Definition not_char (d c : char) : bool := negb (N.eqb c d).

(** The text up to the first [d], at least [lo] characters of it, and
    what follows that [d]. *)
Definition delim_run (d : char) (lo : nat) (s : str) : option (str * str) :=
  let n := span (not_char d) s in
  if Nat.leb lo n then
    match skipn n s with
    | x :: rest => if N.eqb x d then Some (firstn n s, rest) else None
    | [] => None
    end
  else None.

(** [(url)] and what follows. *)
Definition paren_at (s : str) : option (str * str) :=
  match s with
  | c :: s' => if N.eqb c 40 then delim_run 41 1 s' else None
  | [] => None
  end.

(** An inline link at the start of a text: its text, its url and what
    follows. *)
Definition link_at (s : str) : option (str * str * str) :=
  match s with
  | c :: s1 =>
      if N.eqb c 91 then
        match delim_run 93 1 s1 with
        | Some (text, s2) =>
            match paren_at s2 with
            | Some (url, rest) => Some (text, url, rest)
            | None => None
            end
        | None => None
        end
      else None
  | [] => None
  end.

(** An image at the start of a text. *)
Definition image_at (s : str) : option (str * str * str) :=
  match s with
  | c0 :: c :: s1 =>
      if (N.eqb c0 33 && N.eqb c 91)%bool then
        match delim_run 93 0 s1 with
        | Some (alt, s2) =>
            match paren_at s2 with
            | Some (url, rest) => Some (alt, url, rest)
            | None => None
            end
        | None => None
        end
      else None
  | _ => None
  end.

(** The written form of an inline link and of an image. *)
Definition link_text (text url : str) : str :=
  py "[" ++ text ++ py "](" ++ url ++ py ")".

Definition image_text (alt url : str) : str := py "!" ++ link_text alt url.

(** The form of a reference definition, stripped: [[text]:], whitespace,
    the url. *)
Definition ref_form (s : str) (text url : str) : Prop :=
  exists ws rest,
    s = py "[" ++ text ++ py "]:" ++ ws ++ rest /\
    text <> [] /\ ~ In 93%N text /\
    ws <> [] /\ all_space ws /\
    rest <> [] /\ url = strip rest.

(** A text holds a fence. *)
Definition has_fence (s : str) : Prop := exists a b, s = a ++ fence ++ b.

(** Texts found one after the other in a text, with what lies between
    them: [gap1 ++ text1 ++ gap2 ++ text2 ++ ... ++ tail]. *)
Fixpoint weave (gaps texts : list str) (tail : str) : str :=
  match gaps, texts with
  | g :: gs, t :: ts => g ++ t ++ weave gs ts tail
  | _, _ => tail
  end.

(** The text a match covers, given the text the search started from. *)
Definition matched (sm : str * rmatch) : str := firstn (m_end (snd sm)) (fst sm).

(** The written form of a fenced block. *)
Definition block_text (tag body : str) : str :=
  fence ++ tag ++ [nl] ++ body ++ fence.

Section MoreVocabulary.

Variable uni_decimal : char -> bool.
Variable uni_alnum : char -> bool.

(** The reference definition a line is, if it is one. *)
Definition ref_of (line : str) : option (str * str) :=
  match re_match uni_decimal uni_alnum ref_re (strip line) with
  | Some m => Some (group_str m 1, strip (group_str m 2))
  | None => None
  end.

(** The reference definitions of a list of lines. *)
Fixpoint ref_links_from (lines : list str) : list Link.t :=
  match lines with
  | [] => []
  | line :: rest =>
      match ref_of line with
      | Some (text, url) => Link.Make text url :: ref_links_from rest
      | None => ref_links_from rest
      end
  end.

(** The inline links of a text. *)
Definition inline_links (c : str) : list Link.t :=
  map inline_link_of (finditer uni_decimal uni_alnum link_re c).

(** What a piece of a paragraph looks like. *)
Definition piece_ok (x : str) : Prop :=
  x <> [] /\ trimmed x /\ no_nl x /\ startswith (py "#") x = false.

(** The answer of [get_headings_by_level], the empty list when it
    fails. *)
Definition texts_at (self : MarkdownReader) (level : nat) : list str :=
  match fst (get_headings_by_level uni_decimal uni_alnum self level) with
  | Ok l => l
  | Raise _ => []
  end.

End MoreVocabulary.

Definition heading_key (h : Heading.t) : nat * str :=
  (Heading.level h, Heading.text h).

(** The code block of a tag and a body, as [_extract_code_blocks] builds
    it. *)
Definition block_of (tb : str * str) : CodeBlock.t :=
  CodeBlock.Make (match fst tb with [] => None | _ :: _ => Some (fst tb) end)
                 (strip (snd tb)).

Definition image_written (i : Image.t) : str :=
  image_text (Image.alt_text i) (Image.url i).

Definition block_written (tb : str * str) : str :=
  block_text (fst tb) (snd tb).

(** ** Strings: strip, split, join *)

Lemma lstrip_idem s : lstrip (lstrip s) = lstrip s.
Proof.
  induction s as [|c s IH]; simpl; auto.
  destruct (is_space c) eqn:E; auto. simpl. now rewrite E.
Qed.

Lemma lstrip_all_space w s : all_space w -> lstrip (w ++ s) = lstrip s.
Proof.
  induction 1 as [|c w Hc _ IH]; simpl; auto. now rewrite Hc.
Qed.

Lemma lstrip_nil_all_space s : lstrip s = [] -> all_space s.
Proof.
  induction s as [|c s IH]; simpl; intros H; [constructor|].
  destruct (is_space c) eqn:E; [|discriminate].
  constructor; [exact E|exact (IH H)].
Qed.

Lemma all_space_lstrip_nil s : all_space s -> lstrip s = [].
Proof.
  intros H. rewrite <- (app_nil_r s). now rewrite lstrip_all_space.
Qed.

Lemma lstrip_split s : exists w, all_space w /\ s = w ++ lstrip s.
Proof.
  induction s as [|c s [w [Hw E]]]; simpl.
  - exists []. split; [constructor|reflexivity].
  - destruct (is_space c) eqn:Ec.
    + exists (c :: w). split; [constructor; auto|]. simpl. now rewrite <- E.
    + exists []. split; [constructor|reflexivity].
Qed.

Lemma lstrip_head s c t : lstrip s = c :: t -> is_space c = false.
Proof.
  induction s as [|x s IH]; simpl; [discriminate|].
  destruct (is_space x) eqn:E; auto. intros H. now inversion H; subst.
Qed.

Lemma lstrip_snoc l c :
  lstrip (l ++ [c]) =
  match lstrip l with
  | [] => if is_space c then [] else [c]
  | r => r ++ [c]
  end.
Proof.
  induction l as [|x l IH]; simpl; auto.
  destruct (is_space x); auto.
Qed.

Lemma rstrip_cons c t :
  rstrip (c :: t) =
  match rstrip t with
  | [] => if is_space c then [] else [c]
  | r => c :: r
  end.
Proof.
  unfold rstrip. simpl. rewrite lstrip_snoc.
  destruct (lstrip (rev t)) as [|x r] eqn:E; simpl.
  - destruct (is_space c); reflexivity.
  - rewrite rev_app_distr. simpl.
    destruct (rev r ++ [x]) eqn:E2; [now destruct (rev r)|reflexivity].
Qed.

Lemma rstrip_idem s : rstrip (rstrip s) = rstrip s.
Proof.
  unfold rstrip. now rewrite rev_involutive, lstrip_idem.
Qed.

Lemma rstrip_all_space s w : all_space w -> rstrip (s ++ w) = rstrip s.
Proof.
  intros H. unfold rstrip. rewrite rev_app_distr, lstrip_all_space; auto.
  apply Forall_rev, H.
Qed.

Lemma rstrip_split s : exists w, all_space w /\ s = rstrip s ++ w.
Proof.
  destruct (lstrip_split (rev s)) as [w [Hw E]].
  exists (rev w). split; [apply Forall_rev, Hw|].
  unfold rstrip. rewrite <- rev_app_distr, <- E. now rewrite rev_involutive.
Qed.

Lemma lstrip_rstrip_fixed t : lstrip t = t -> lstrip (rstrip t) = rstrip t.
Proof.
  destruct t as [|c t]; [reflexivity|]. intros H.
  pose proof (lstrip_head _ H) as Hc.
  rewrite rstrip_cons.
  destruct (rstrip t); rewrite ?Hc; simpl; rewrite ?Hc; reflexivity.
Qed.

Lemma strip_trimmed s : trimmed (strip s).
Proof.
  unfold trimmed, strip. split.
  - apply lstrip_rstrip_fixed, lstrip_idem.
  - apply rstrip_idem.
Qed.

Lemma trimmed_strip s : trimmed s -> strip s = s.
Proof. intros [H1 H2]. unfold strip. now rewrite H1. Qed.

Lemma strip_idem s : strip (strip s) = strip s.
Proof. apply trimmed_strip, strip_trimmed. Qed.

Lemma strip_pad w1 t w2 :
  all_space w1 -> all_space w2 -> strip (w1 ++ t ++ w2) = strip t.
Proof.
  intros H1 H2. unfold strip. rewrite lstrip_all_space by assumption.
  destruct (lstrip_split t) as [w [Hw E]].
  destruct (lstrip t) as [|c r] eqn:Et.
  - rewrite app_nil_r in E. subst t.
    assert (Ha : all_space (w ++ w2)) by (apply Forall_app; auto).
    rewrite (all_space_lstrip_nil Ha). reflexivity.
  - assert (Hl : lstrip (t ++ w2) = (c :: r) ++ w2).
    { rewrite E at 1. rewrite <- app_assoc, lstrip_all_space by assumption.
      simpl. now rewrite (lstrip_head _ Et). }
    rewrite Hl. now apply rstrip_all_space.
Qed.

(** [strip] removes whitespace at the two ends and nothing else. *)
Lemma strip_split s :
  exists w1 w2, all_space w1 /\ all_space w2 /\ s = w1 ++ strip s ++ w2.
Proof.
  destruct (lstrip_split s) as [w1 [H1 E1]].
  destruct (rstrip_split (lstrip s)) as [w2 [H2 E2]].
  exists w1, w2. repeat split; auto. unfold strip. now rewrite <- E2.
Qed.

Lemma trimmed_ends c s d :
  is_space c = false -> is_space d = false -> trimmed (c :: s ++ [d]).
Proof.
  intros Hc Hd. split.
  - simpl. now rewrite Hc.
  - unfold rstrip. change (c :: s ++ [d]) with ((c :: s) ++ [d]).
    rewrite rev_app_distr. simpl. rewrite Hd. simpl.
    rewrite rev_app_distr, rev_involutive. reflexivity.
Qed.

Lemma trimmed_single c : is_space c = false -> trimmed [c].
Proof.
  intros Hc. split; [simpl; now rewrite Hc|].
  unfold rstrip. simpl. now rewrite Hc.
Qed.

(** A trimmed text does not end in whitespace. *)
Lemma trimmed_no_trailing a w : trimmed (a ++ w) -> all_space w -> w = [].
Proof.
  intros [_ H] Hw. rewrite rstrip_all_space in H by assumption.
  destruct (rstrip_split a) as [w' [_ E]].
  apply (f_equal (@length _)) in H. apply (f_equal (@length _)) in E.
  rewrite length_app in H, E.
  destruct w; [reflexivity|]. simpl in H. lia.
Qed.

Lemma no_nl_app a b : no_nl (a ++ b) <-> no_nl a /\ no_nl b.
Proof. apply Forall_app. Qed.

Lemma no_nl_lstrip s : no_nl s -> no_nl (lstrip s).
Proof.
  destruct (lstrip_split s) as [w [_ E]]. intros H.
  rewrite E in H. now apply no_nl_app in H.
Qed.

Lemma no_nl_strip s : no_nl s -> no_nl (strip s).
Proof.
  destruct (strip_split s) as [w1 [w2 [_ [_ E]]]]. intros H.
  rewrite E in H. apply no_nl_app in H. destruct H as [_ H].
  now apply no_nl_app in H.
Qed.

Lemma split_on_not_nil sep s : split_on sep s <> [].
Proof.
  destruct s as [|c s]; simpl; [discriminate|].
  destruct (N.eqb c sep); [discriminate|].
  destruct (split_on sep s); discriminate.
Qed.

Lemma split_lines_no_nl s : Forall no_nl (split_lines s).
Proof.
  unfold split_lines. induction s as [|c s IH]; simpl.
  - repeat constructor.
  - destruct (N.eqb_spec c nl) as [E|E].
    + constructor; [constructor|exact IH].
    + destruct (split_on nl s) as [|l ls].
      * repeat constructor. exact E.
      * inversion IH; subst. constructor; [constructor|]; assumption.
Qed.

Lemma split_lines_line l : no_nl l -> split_lines l = [l].
Proof.
  unfold split_lines. induction 1 as [|c l Hc _ IH]; simpl; auto.
  destruct (N.eqb_spec c nl); [contradiction|]. now rewrite IH.
Qed.

Lemma split_lines_app l s :
  no_nl l -> split_lines (l ++ nl :: s) = l :: split_lines s.
Proof.
  unfold split_lines. induction 1 as [|c l Hc _ IH]; simpl.
  - reflexivity.
  - destruct (N.eqb_spec c nl); [contradiction|]. now rewrite IH.
Qed.

(** Splitting a document made of lines gives the lines back. *)
Lemma split_join_lines ls :
  ls <> [] -> Forall no_nl ls -> split_lines (join_lines ls) = ls.
Proof.
  induction ls as [|l ls IH]; [congruence|]. intros _ H.
  inversion H as [|? ? Hl Hls]; subst.
  destruct ls as [|l' ls'].
  - simpl. now apply split_lines_line.
  - change (join_lines (l :: l' :: ls')) with (l ++ nl :: join_lines (l' :: ls')).
    rewrite split_lines_app by assumption. f_equal. apply IH; [discriminate|assumption].
Qed.

Lemma join_split_lines s : join_lines (split_lines s) = s.
Proof.
  unfold split_lines, join_lines. induction s as [|c s IH]; simpl; auto.
  destruct (N.eqb_spec c nl) as [E|E].
  - subst c. pose proof (split_on_not_nil nl s) as Hn.
    destruct (split_on nl s) as [|l ls] eqn:Es; [congruence|].
    simpl. simpl in IH. now rewrite IH.
  - pose proof (split_on_not_nil nl s) as Hn.
    destruct (split_on nl s) as [|l ls] eqn:Es; [congruence|].
    destruct ls as [|l2 ls]; simpl in *; now rewrite <- IH.
Qed.

Lemma truthy_some c : truthy (Some c) = match c with [] => None | _ => Some c end.
Proof. now destruct c. Qed.

(** ** The matcher *)

Lemma span_le p s : span p s <= length s.
Proof. induction s as [|c s IH]; simpl; [lia|]. destruct (p c); simpl; lia. Qed.

Lemma span_firstn p s : Forall (fun c => p c = true) (firstn (span p s) s).
Proof.
  induction s as [|c s IH]; simpl; [constructor|].
  destruct (p c) eqn:E; simpl; constructor; auto.
Qed.

Lemma span_skipn p s c r : skipn (span p s) s = c :: r -> p c = false.
Proof.
  induction s as [|x s IH]; simpl; [discriminate|].
  destruct (p x) eqn:E; simpl; auto. intros H. now inversion H; subst.
Qed.

Lemma span_all p s : Forall (fun c => p c = true) s -> span p s = length s.
Proof. induction 1 as [|c s Hc _ IH]; simpl; auto. now rewrite Hc, IH. Qed.

Lemma span_app p a b :
  Forall (fun c => p c = true) a -> span p (a ++ b) = length a + span p b.
Proof. induction 1 as [|c s Hc _ IH]; simpl; auto. now rewrite Hc, IH. Qed.

Lemma span_repeat p c n s :
  p c = true -> span p (repeat c n ++ s) = n + span p s.
Proof. intros H. induction n; simpl; auto. now rewrite H, IHn. Qed.

Lemma firstn_span_eq c s :
  firstn (span (fun x => N.eqb x c) s) s = repeat c (span (fun x => N.eqb x c) s).
Proof.
  induction s as [|x s IH]; simpl; auto.
  destruct (N.eqb_spec x c); simpl; auto. subst. now rewrite IH.
Qed.

Lemma no_trailing_skipn n s : no_trailing_space s -> no_trailing_space (skipn n s).
Proof.
  intros H a w E Hw. apply (H (firstn n s ++ a) w); auto.
  rewrite <- app_assoc, <- E. symmetry. apply firstn_skipn.
Qed.

Lemma no_trailing_tl c s : no_trailing_space (c :: s) -> no_trailing_space s.
Proof. apply (@no_trailing_skipn 1 (c :: s)). Qed.

Lemma trimmed_no_trailing_space s : trimmed s -> no_trailing_space s.
Proof. intros H a w E Hw. subst s. eapply trimmed_no_trailing; eauto. Qed.

(** After a nonempty run of whitespace, a text without trailing whitespace
    still has something left. *)
Lemma no_trailing_rest s :
  no_trailing_space s -> 1 <= span is_space s -> skipn (span is_space s) s <> [].
Proof.
  intros H Hn E.
  assert (Hs : s = []).
  { apply (H [] s); [reflexivity|].
    rewrite <- (firstn_skipn (span is_space s) s), E, app_nil_r.
    apply span_firstn. }
  subst s. simpl in Hn. lia.
Qed.

Section Matcher.

Variable uni_decimal : char -> bool.
Variable uni_alnum : char -> bool.

Local Abbreviation cmatch := (cmatch uni_decimal uni_alnum).
Local Abbreviation rep_greedy := (rep_greedy uni_decimal uni_alnum).
Local Abbreviation rep_lazy := (rep_lazy uni_decimal uni_alnum).
Local Abbreviation run := (run uni_decimal uni_alnum).
Local Abbreviation re_match := (re_match uni_decimal uni_alnum).

(** A greedy repetition in front of a rest that cannot start with a
    character of the class: the only split tried with success is the
    whole run. *)
Lemma rep_greedy_reject cl lo hi i s g (k : cont) :
  (forall j c s' g', cmatch cl c = true -> k j (c :: s') g' = None) ->
  rep_greedy cl lo hi i s g k =
  let n := span (cmatch cl) s in
  if (Nat.leb lo n && hi_ok hi n)%bool then k (i + n) (skipn n s) g else None.
Proof.
  intros Hrej. revert lo hi i.
  induction s as [|c s IH]; intros lo hi i; simpl.
  - rewrite Nat.add_0_r. destruct lo; simpl; [|reflexivity].
    destruct hi; reflexivity.
  - destruct (cmatch cl c) eqn:Ec; simpl.
    + destruct (hi_zero hi) eqn:Hz; simpl.
      * destruct hi as [[|h]|]; try discriminate. simpl.
        rewrite andb_false_r. destruct lo; auto.
      * rewrite IH. cbv zeta.
        replace (S i + span (cmatch cl) s) with (i + S (span (cmatch cl) s)) by lia.
        assert (E1 : Nat.leb (pred lo) (span (cmatch cl) s)
                     = Nat.leb lo (S (span (cmatch cl) s))) by (destruct lo; reflexivity).
        assert (E2 : hi_ok (option_map pred hi) (span (cmatch cl) s)
                     = hi_ok hi (S (span (cmatch cl) s))).
        { destruct hi as [[|h]|]; try discriminate; reflexivity. }
        rewrite E1, E2.
        destruct (Nat.leb lo (S (span (cmatch cl) s)) && hi_ok hi (S (span (cmatch cl) s)))%bool.
        -- destruct (k (i + S (span (cmatch cl) s)) (skipn (span (cmatch cl) s) s) g); auto.
           destruct lo; auto.
        -- destruct lo; auto.
    + rewrite Nat.add_0_r. destruct lo; simpl; [|reflexivity].
      destruct hi; reflexivity.
Qed.

(** An unbounded greedy repetition whose rest accepts after the whole
    run. *)
Lemma rep_greedy_max cl lo i s g (k : cont) m :
  lo <= span (cmatch cl) s ->
  k (i + span (cmatch cl) s) (skipn (span (cmatch cl) s) s) g = Some m ->
  rep_greedy cl lo None i s g k = Some m.
Proof.
  revert lo i. induction s as [|c s IH]; intros lo i; simpl.
  - intros Hlo. rewrite Nat.add_0_r. destruct lo; [auto|lia].
  - destruct (cmatch cl c) eqn:Ec; simpl.
    + intros Hlo Hk. rewrite (IH (pred lo) (S i)); auto; [lia|].
      now replace (S i + span (cmatch cl) s) with (i + S (span (cmatch cl) s)) by lia.
    + intros Hlo. rewrite Nat.add_0_r. destruct lo; [auto|lia].
Qed.

(** Too short a run. *)
Lemma rep_greedy_short cl lo hi i s g (k : cont) :
  span (cmatch cl) s < lo -> rep_greedy cl lo hi i s g k = None.
Proof.
  revert lo hi i. induction s as [|c s IH]; intros lo hi i; simpl.
  - destruct lo; [lia|reflexivity].
  - destruct (cmatch cl c) eqn:Ec; simpl.
    + intros Hlo. destruct lo; [lia|].
      destruct (hi_zero hi); simpl; auto.
      rewrite IH; [reflexivity|simpl; lia].
    + destruct lo; [lia|reflexivity].
Qed.

Lemma span_dot s : no_nl s -> span (cmatch CDot) s = length s.
Proof.
  intros H. apply span_all. eapply Forall_impl; [|exact H].
  intros c Hc. simpl. now destruct (N.eqb_spec c nl).
Qed.

(** [(.+)$] on the rest of a line. *)
Lemma run_text_eol n i s g :
  no_nl s ->
  run (Grp n (Rep CDot 1 None true) >> Eol) i s g accept =
  match s with
  | [] => None
  | _ :: _ => Some (mkMatch (i + length s) ((n, s) :: g))
  end.
Proof.
  intros H. simpl. destruct s as [|c s].
  - reflexivity.
  - apply rep_greedy_max.
    + rewrite (span_dot H). simpl. lia.
    + rewrite (span_dot H). rewrite skipn_all.
      unfold accept. f_equal. f_equal. f_equal. f_equal.
      replace (i + length (c :: s) - i) with (length (c :: s)) by lia.
      apply firstn_all.
Qed.

(** [\s+(.+)$] on the rest of a line. *)
Lemma run_space_text_eol n i s g :
  no_nl s -> no_trailing_space s ->
  run (Rep CSpace 1 None true >> Grp n (Rep CDot 1 None true) >> Eol)
      i s g accept =
  if Nat.leb 1 (span is_space s)
  then Some (mkMatch (i + length s) ((n, skipn (span is_space s) s) :: g))
  else None.
Proof.
  intros Hnl Htr.
  change (run (Rep CSpace 1 None true >> Grp n (Rep CDot 1 None true) >> Eol) i s g accept)
    with (rep_greedy CSpace 1 None i s g
            (fun j s' g' => run (Grp n (Rep CDot 1 None true) >> Eol) j s' g' accept)).
  destruct (Nat.leb_spec 1 (span is_space s)) as [Hw|Hw].
  - apply rep_greedy_max; [exact Hw|].
    change (cmatch CSpace) with is_space.
    rewrite run_text_eol.
    + pose proof (no_trailing_rest Htr Hw) as Hne.
      destruct (skipn (span is_space s) s) as [|c r] eqn:E; [congruence|].
      f_equal. f_equal. rewrite <- E, length_skipn.
      pose proof (span_le is_space s). lia.
    + rewrite <- (firstn_skipn (span is_space s) s) in Hnl.
      now apply no_nl_app in Hnl.
  - apply rep_greedy_short. exact Hw.
Qed.

(** [\s+...] cannot start on a character that is not whitespace. *)
Lemma run_space_reject r i c s g (k : cont) :
  is_space c = false ->
  run (Rep CSpace 1 None true >> r) i (c :: s) g k = None.
Proof. intros H. simpl. now rewrite H. Qed.

End Matcher.

Lemma is_space_hash c : is_hash c = true -> is_space c = false.
Proof. unfold is_hash. intros H. apply N.eqb_eq in H. now subst. Qed.

Lemma firstn_span_hash s :
  firstn (span is_hash s) s = repeat hash (span is_hash s).
Proof. exact (firstn_span_eq hash s). Qed.

Lemma skipn_repeat_app (c : char) n s : skipn n (repeat c n ++ s) = s.
Proof. induction n; simpl; auto. Qed.

Lemma strip_skip_span s : strip (skipn (span is_space s) s) = strip s.
Proof.
  transitivity
    (strip (firstn (span is_space s) s ++ skipn (span is_space s) s ++ [])).
  - symmetry. apply strip_pad; [apply span_firstn|constructor].
  - now rewrite app_nil_r, firstn_skipn.
Qed.

Section Lines.

Variable uni_decimal : char -> bool.
Variable uni_alnum : char -> bool.

Local Abbreviation run := (run uni_decimal uni_alnum).
Local Abbreviation re_match := (re_match uni_decimal uni_alnum).
Local Abbreviation line_heading := (heading_of uni_decimal uni_alnum).

(** What the heading pattern does on a line without trailing
    whitespace. *)
Lemma re_match_heading s :
  no_nl s -> no_trailing_space s ->
  re_match heading_re s =
  let n := span is_hash s in
  let r := skipn n s in
  if (Nat.leb 1 n && Nat.leb n 6 && Nat.leb 1 (span is_space r))%bool
  then Some (mkMatch (length s)
               [(2, skipn (span is_space r) r); (1, repeat hash n)])
  else None.
Proof.
  intros Hnl Htr. unfold re_match, heading_re.
  change (run (Bol >> Grp 1 (Rep (CChar hash) 1 (Some 6) true)
                   >> Rep CSpace 1 None true
                   >> Grp 2 (Rep CDot 1 None true) >> Eol) 0 s [] accept)
    with (rep_greedy uni_decimal uni_alnum (CChar hash) 1 (Some 6) 0 s []
            (fun j s' g' =>
               run (Rep CSpace 1 None true >> Grp 2 (Rep CDot 1 None true) >> Eol)
                   j s' ((1, firstn (j - 0) s) :: g') accept)).
  rewrite rep_greedy_reject.
  2:{ intros j c s' g' Hc. apply run_space_reject. now apply is_space_hash. }
  change (span (cmatch uni_decimal uni_alnum (CChar hash)) s) with (span is_hash s).
  cbv zeta. set (n := span is_hash s).
  change (hi_ok (Some 6) n) with (Nat.leb n 6).
  destruct (Nat.leb 1 n && Nat.leb n 6)%bool eqn:E; cbn [andb]; [|reflexivity].
  rewrite run_space_text_eol.
  - destruct (Nat.leb 1 (span is_space (skipn n s))); [|reflexivity].
    f_equal. f_equal.
    + rewrite length_skipn. pose proof (span_le is_hash s). fold n in H. lia.
    + rewrite Nat.sub_0_r. simpl Nat.add. unfold n.
      now rewrite firstn_span_hash.
  - rewrite <- (firstn_skipn n s) in Hnl. now apply no_nl_app in Hnl.
  - now apply no_trailing_skipn.
Qed.

(** What the title pattern does on such a line. *)
Lemma re_match_title s :
  no_nl s -> no_trailing_space s ->
  re_match title_re s =
  match s with
  | c :: r =>
      if (is_hash c && Nat.leb 1 (span is_space r))%bool
      then Some (mkMatch (length s) [(1, skipn (span is_space r) r)])
      else None
  | [] => None
  end.
Proof.
  intros Hnl Htr. unfold re_match, title_re. destruct s as [|c r]; [reflexivity|].
  change (run (Bol >> Cls (CChar hash) >> Rep CSpace 1 None true
                   >> Grp 1 (Rep CDot 1 None true) >> Eol) 0 (c :: r) [] accept)
    with (if is_hash c
          then run (Rep CSpace 1 None true >> Grp 1 (Rep CDot 1 None true) >> Eol)
                   1 r [] accept
          else None).
  destruct (is_hash c); simpl andb; [|reflexivity].
  rewrite run_space_text_eol.
  - reflexivity.
  - now inversion Hnl.
  - eapply no_trailing_tl; eauto.
Qed.

Lemma strip_line_facts line :
  no_nl line -> no_nl (strip line) /\ no_trailing_space (strip line).
Proof.
  intros H. split; [now apply no_nl_strip|].
  apply trimmed_no_trailing_space, strip_trimmed.
Qed.

(** The heading a line is, computed without the matcher. *)
Lemma heading_of_span line :
  no_nl line ->
  line_heading line =
  let s := strip line in
  let n := span is_hash s in
  let r := skipn n s in
  if (Nat.leb 1 n && Nat.leb n 6 && Nat.leb 1 (span is_space r))%bool
  then Some (n, strip r)
  else None.
Proof.
  intros H. destruct (strip_line_facts H) as [H1 H2].
  unfold heading_of. rewrite re_match_heading by assumption. cbv zeta.
  destruct (_ && _)%bool; [|reflexivity].
  unfold group_str, group. simpl. rewrite repeat_length, strip_skip_span.
  reflexivity.
Qed.

(** A line is a heading exactly when its stripped form has the form of
    one. *)
Lemma heading_of_form line level text :
  no_nl line ->
  line_heading line = Some (level, text) <-> heading_form (strip line) level text.
Proof.
  intros H. rewrite heading_of_span by assumption. cbv zeta.
  destruct (strip_line_facts H) as [_ Htr].
  set (s := strip line) in *. clearbody s. split.
  - destruct (_ && _)%bool eqn:E; [|discriminate].
    intros Heq. inversion Heq; subst level text. clear Heq.
    apply andb_prop in E. destruct E as [E E3].
    apply andb_prop in E. destruct E as [E1 E2].
    apply Nat.leb_le in E1, E2, E3.
    set (n := span is_hash s) in *. set (r := skipn n s) in *.
    exists (firstn (span is_space r) r), (skipn (span is_space r) r).
    repeat split; auto.
    + rewrite firstn_skipn. unfold r, n.
      rewrite <- firstn_span_hash. symmetry. apply firstn_skipn.
    + intros E0. apply (f_equal (@length _)) in E0.
      rewrite length_firstn in E0. pose proof (span_le is_space r).
      simpl in E0. lia.
    + apply span_firstn.
    + apply no_trailing_rest; auto. now apply no_trailing_skipn.
    + symmetry. apply strip_skip_span.
  - intros [ws [rest [Es [[L1 L6] [Hne [Hws [Hr Ht]]]]]]].
    destruct ws as [|c ws]; [congruence|].
    assert (Hc : is_space c = true) by now inversion Hws.
    assert (Hn : span is_hash s = level).
    { rewrite Es. rewrite span_repeat by reflexivity. simpl.
      destruct (is_hash c) eqn:Ec; [|lia].
      apply is_space_hash in Ec. congruence. }
    rewrite Hn. subst s. rewrite skipn_repeat_app.
    rewrite (span_app _ _ Hws).
    destruct (Nat.leb_spec 1 level); [|lia].
    destruct (Nat.leb_spec level 6); [|lia]. simpl.
    f_equal. f_equal. subst text.
    rewrite <- (app_nil_r (c :: ws ++ rest)).
    change (c :: ws ++ rest) with ((c :: ws) ++ rest). rewrite <- app_assoc.
    apply strip_pad; [assumption|constructor].
Qed.

(** The title pattern accepts the level-1 headings and nothing else. *)
Lemma title_of_heading_of line :
  no_nl line ->
  title_of uni_decimal uni_alnum line =
  match line_heading line with
  | Some (1, t) => Some t
  | _ => None
  end.
Proof.
  intros H. rewrite heading_of_span by assumption. cbv zeta.
  destruct (strip_line_facts H) as [H1 H2].
  unfold title_of. rewrite re_match_title by assumption.
  destruct (strip line) as [|c r]; [reflexivity|].
  simpl span. destruct (is_hash c) eqn:Ec; [|reflexivity].
  simpl andb.
  destruct r as [|d r'].
  - reflexivity.
  - destruct (is_hash d) eqn:Ed.
    + pose proof (is_space_hash _ Ed) as Hd. simpl span at 1. rewrite Hd.
      simpl Nat.leb at 1. simpl span. rewrite Ed.
      destruct (_ && _)%bool; reflexivity.
    + simpl span. rewrite Ed. simpl skipn. cbn [span].
      destruct (is_space d) eqn:Hd; simpl; [|reflexivity].
      unfold group_str, group. simpl.
      rewrite <- (strip_skip_span (d :: r')). simpl. now rewrite Hd.
Qed.

End Lines.

(** ** The loops over the lines *)

Section Loops.

Variable uni_decimal : char -> bool.
Variable uni_alnum : char -> bool.

Local Abbreviation line_heading := (heading_of uni_decimal uni_alnum).
Local Abbreviation line_title := (title_of uni_decimal uni_alnum).
Local Abbreviation step := (headings_step uni_decimal uni_alnum).

Local Abbreviation headings_from := (headings_from uni_decimal uni_alnum).

Lemma headings_fold lines i acc :
  fold_left step (enumerate_from i lines) acc = acc ++ headings_from i lines.
Proof.
  revert i acc. induction lines as [|l lines IH]; intros i acc; simpl.
  - now rewrite app_nil_r.
  - rewrite IH. unfold headings_step. simpl.
    destruct (line_heading l) as [[lv t]|]; [|reflexivity].
    now rewrite <- app_assoc.
Qed.

Lemma extract_headings_lines c :
  _extract_headings uni_decimal uni_alnum (loaded c)
  = headings_from 0 (split_lines c).
Proof.
  unfold _extract_headings, loaded. simpl content. rewrite truthy_some.
  destruct c as [|x c]; [reflexivity|].
  unfold enumerate. now rewrite headings_fold.
Qed.

Lemma in_headings_from lines i h :
  In h (headings_from i lines) <->
  exists k line,
    nth_error lines k = Some line /\
    Heading.line_number h = i + k + 1 /\
    line_heading line = Some (Heading.level h, Heading.text h).
Proof.
  revert i. induction lines as [|l lines IH]; intros i; simpl.
  - split; [contradiction|]. intros [[|k] [line [H _]]]; discriminate.
  - assert (Hrest : In h (headings_from (S i) lines) <->
              exists k line, nth_error (l :: lines) (S k) = Some line /\
                Heading.line_number h = i + S k + 1 /\
                line_heading line = Some (Heading.level h, Heading.text h)).
    { rewrite IH. split; intros [k [line [H1 [H2 H3]]]]; exists k, line;
        repeat split; auto; simpl in *; lia. }
    destruct (line_heading l) as [[lv t]|] eqn:E.
    + split.
      * intros [H|H].
        -- exists 0, l. subst h. simpl. rewrite Nat.add_0_r. auto.
        -- apply Hrest in H. destruct H as [k [line H]]. now exists (S k), line.
      * intros [[|k] [line [H1 [H2 H3]]]].
        -- left. simpl in H1. inversion H1; subst line.
           rewrite E in H3. inversion H3. destruct h; simpl in *.
           f_equal. lia.
        -- right. apply Hrest. now exists k, line.
    + rewrite Hrest. split.
      * intros [k [line H]]. now exists (S k), line.
      * intros [[|k] [line [H1 [H2 H3]]]].
        -- simpl in H1. inversion H1; subst line. congruence.
        -- now exists k, line.
Qed.

Lemma headings_from_bound lines i :
  Forall (fun h => i < Heading.line_number h) (headings_from i lines).
Proof.
  apply Forall_forall. intros h H. apply in_headings_from in H.
  destruct H as [k [_ [_ [H _]]]]. lia.
Qed.

(** Line numbers grow along the list: document order. *)
Lemma headings_from_sorted lines i :
  StronglySorted lt (map Heading.line_number (headings_from i lines)).
Proof.
  revert i. induction lines as [|l lines IH]; intros i; simpl.
  - constructor.
  - destruct (line_heading l) as [[lv t]|]; [|apply IH].
    simpl. constructor; [apply IH|].
    apply Forall_map. eapply Forall_impl; [|apply headings_from_bound].
    simpl. intros. lia.
Qed.

(** The title loop, one line at a time. *)
Lemma title_loop_cons line rest :
  title_loop uni_decimal uni_alnum (line :: rest) =
  match line_title line with
  | Some t => Some t
  | None => title_loop uni_decimal uni_alnum rest
  end.
Proof.
  unfold title_of. simpl.
  now destruct (re_match uni_decimal uni_alnum title_re (strip line)).
Qed.

Lemma extract_title_lines c :
  _extract_title uni_decimal uni_alnum (loaded c)
  = title_loop uni_decimal uni_alnum (split_lines c).
Proof.
  unfold _extract_title, loaded. simpl content. rewrite truthy_some.
  destruct c as [|x c]; reflexivity.
Qed.

(** The two passes agree: the title is the first level-1 heading. *)
Lemma title_loop_first_h1 lines i :
  Forall no_nl lines ->
  title_loop uni_decimal uni_alnum lines = first_h1 (headings_from i lines).
Proof.
  intros H. revert i. induction H as [|l lines Hl _ IH]; intros i.
  - reflexivity.
  - rewrite title_loop_cons, (title_of_heading_of _ _ Hl). simpl.
    destruct (line_heading l) as [[lv t]|]; [|apply IH].
    destruct lv as [|[|lv]]; unfold first_h1; simpl; auto; apply IH.
Qed.

End Loops.

Section SectionLoop.

Variable uni_decimal : char -> bool.
Variable uni_alnum : char -> bool.

Local Abbreviation line_heading := (heading_of uni_decimal uni_alnum).
Local Abbreviation step := (sect_step uni_decimal uni_alnum).
Local Abbreviation not_heading := (not_heading uni_decimal uni_alnum).
Local Abbreviation block_ok := (block_ok uni_decimal uni_alnum).
Local Abbreviation sections_of := (sections_of uni_decimal uni_alnum).

Lemma get_sections_lines c :
  get_sections uni_decimal uni_alnum (loaded c) = sections_of (split_lines c).
Proof.
  unfold get_sections, loaded, sections_of, sect_finish. simpl content.
  rewrite truthy_some. destruct c as [|x c]; [|reflexivity].
  simpl. unfold sect_step, heading_of. reflexivity.
Qed.

Lemma sect_step_other l ss cur cc :
  not_heading l ->
  step (ss, cur, cc) l =
  match cur with
  | Some _ => (ss, cur, cc ++ [l])
  | None => (ss, cur, cc)
  end.
Proof. intros H. unfold sect_step. red in H. now rewrite H. Qed.

Lemma sect_step_heading l lv t ss cur cc :
  line_heading l = Some (lv, t) ->
  step (ss, cur, cc) l = (close_section ss cur cc, Some (Sect.Make lv t []), []).
Proof. intros H. unfold sect_step. now rewrite H. Qed.

(** Before the first heading nothing is kept. *)
Lemma sect_fold_pre pre ss cc :
  Forall not_heading pre -> fold_left step pre (ss, None, cc) = (ss, None, cc).
Proof.
  induction 1 as [|l pre Hl _ IH]; cbn [fold_left]; auto.
  now rewrite (sect_step_other _ _ _ Hl).
Qed.

(** Inside a section every line is kept, blank or not. *)
Lemma sect_fold_body body ss cs cc :
  Forall not_heading body ->
  fold_left step body (ss, Some cs, cc) = (ss, Some cs, cc ++ body).
Proof.
  intros H. revert cc.
  induction H as [|l body Hl _ IH]; intros cc; cbn [fold_left].
  - now rewrite app_nil_r.
  - rewrite (sect_step_other _ _ _ Hl), IH. now rewrite <- app_assoc.
Qed.

Lemma sect_fold_blocks blocks ss cur cc :
  Forall block_ok blocks ->
  sect_finish (fold_left step (flat_map block_lines blocks) (ss, cur, cc))
  = close_section ss cur cc ++ map block_section blocks.
Proof.
  intros H. revert ss cur cc.
  induction H as [|b blocks [Hb1 Hb2] _ IH]; intros ss cur cc.
  - simpl. now rewrite app_nil_r.
  - cbn [flat_map]. unfold block_lines at 1. cbn [app fold_left].
    rewrite fold_left_app. erewrite sect_step_heading by exact Hb1.
    rewrite (sect_fold_body _ _ _ Hb2), IH. cbn [map app].
    change (close_section (close_section ss cur cc)
              (Some (Sect.Make (b_level b) (b_heading b) [])) (b_body b))
      with (close_section ss cur cc ++ [block_section b]).
    now rewrite <- app_assoc.
Qed.

(** The sections of a document: one for each heading, holding the lines
    up to the next heading; the lines before the first heading are in
    none. *)
Lemma sections_of_blocks pre blocks :
  Forall not_heading pre -> Forall block_ok blocks ->
  sections_of (pre ++ flat_map block_lines blocks) = map block_section blocks.
Proof.
  intros Hp Hb. unfold sections_of.
  rewrite fold_left_app, (sect_fold_pre _ _ Hp), sect_fold_blocks by assumption.
  reflexivity.
Qed.

(** Every document is made of such blocks. *)
Lemma lines_blocks lines :
  exists pre blocks,
    lines = pre ++ flat_map block_lines blocks /\
    Forall not_heading pre /\ Forall block_ok blocks.
Proof.
  induction lines as [|l lines [pre [blocks [E [Hp Hb]]]]].
  - exists [], []. split; [reflexivity|split; constructor].
  - destruct (line_heading l) as [[lv t]|] eqn:El.
    + exists [], ({| b_line := l; b_level := lv; b_heading := t; b_body := pre |} :: blocks).
      split; [|split].
      * simpl. unfold block_lines at 1. simpl. now rewrite E.
      * constructor.
      * constructor; [split; assumption|assumption].
    + exists (l :: pre), blocks. split; [|split].
      * simpl. now rewrite E.
      * constructor; assumption.
      * assumption.
Qed.

Lemma heading_of_strip line : line_heading (strip line) = line_heading line.
Proof. unfold heading_of. now rewrite strip_idem. Qed.

(** Which lines open a section, and with what level and heading, depends
    on the stripped lines only. *)
Lemma sect_fold_strip lines ss ss' cur cur' cc cc' :
  map sect_key ss = map sect_key ss' ->
  option_map sect_key cur = option_map sect_key cur' ->
  map sect_key (sect_finish (fold_left step lines (ss, cur, cc)))
  = map sect_key (sect_finish (fold_left step (map strip lines) (ss', cur', cc'))).
Proof.
  revert ss ss' cur cur' cc cc'.
  induction lines as [|l lines IH]; intros ss ss' cur cur' cc cc' Hs Hc.
  - simpl. destruct cur as [cs|], cur' as [cs'|]; try discriminate; simpl; auto.
    rewrite !map_app. simpl. f_equal; auto. f_equal.
    simpl in Hc. now inversion Hc.
  - cbn [map fold_left]. unfold sect_step at 2 4. rewrite heading_of_strip.
    destruct (line_heading l) as [[lv t]|].
    + apply IH; [|reflexivity].
      destruct cur as [cs|], cur' as [cs'|]; try discriminate; simpl; auto.
      rewrite !map_app. simpl. f_equal; auto. f_equal.
      simpl in Hc. now inversion Hc.
    + destruct cur as [cs|], cur' as [cs'|]; try discriminate; apply IH; auto.
Qed.

End SectionLoop.

Section ParagraphLoop.

Variable uni_decimal : char -> bool.
Variable uni_alnum : char -> bool.

Local Abbreviation step := (para_step uni_decimal uni_alnum).
Local Abbreviation is_skip := (skip_line uni_decimal uni_alnum).
Local Abbreviation is_plain := (plain_line uni_decimal uni_alnum).
Local Abbreviation paras := (paragraphs_of uni_decimal uni_alnum).

Lemma para_finish_flush ps cur :
  para_finish (ps, cur) = filter (fun p => negb (str_empty p)) (ps ++ flush cur).
Proof. destruct cur; simpl; [now rewrite app_nil_r|reflexivity]. Qed.

Lemma para_step_blank l ps cur :
  blank l = true -> step (ps, cur) l = (ps ++ flush cur, []).
Proof.
  unfold blank, para_step. intros H. rewrite H.
  destruct cur; simpl; [now rewrite app_nil_r|reflexivity].
Qed.

Lemma para_step_skip l st : is_skip l = true -> step st l = st.
Proof.
  unfold skip_line, para_step. destruct st as [ps cur]. cbv zeta.
  generalize (startswith (py "#") (strip l))
             (startswith (py "```") (strip l))
             (is_some (re_match uni_decimal uni_alnum bullet_re (strip l)))
             (is_some (re_match uni_decimal uni_alnum number_re (strip l))).
  intros b1 b2 b3 b4.
  destruct (str_empty (strip l)), b1, b2, b3, b4; try reflexivity; discriminate.
Qed.

Lemma para_step_plain l ps cur :
  is_plain l = true -> step (ps, cur) l = (ps, cur ++ [strip l]).
Proof.
  unfold plain_line, skip_line, blank, para_step. cbv zeta.
  generalize (startswith (py "#") (strip l))
             (startswith (py "```") (strip l))
             (is_some (re_match uni_decimal uni_alnum bullet_re (strip l)))
             (is_some (re_match uni_decimal uni_alnum number_re (strip l))).
  intros b1 b2 b3 b4.
  destruct (str_empty (strip l)), b1, b2, b3, b4; try reflexivity; discriminate.
Qed.

Lemma line_cases l :
  blank l = true \/ (blank l = false /\ is_skip l = true)
  \/ is_plain l = true.
Proof.
  unfold plain_line. destruct (blank l); [now left|right].
  destruct (is_skip l); [now left|now right].
Qed.


Lemma plain_not_blank l : is_plain l = true -> blank l = false.
Proof. unfold plain_line. now destruct (blank l). Qed.

Lemma plain_not_skip l : is_plain l = true -> is_skip l = false.
Proof.
  unfold plain_line. destruct (blank l); [discriminate|].
  now destruct (is_skip l).
Qed.

(** Without a blank line nothing is flushed: the plain lines pile up and
    the others leave no trace. *)
Lemma para_fold_no_blank ls ps cur :
  Forall (fun l => blank l = false) ls ->
  fold_left step ls (ps, cur)
  = (ps, cur ++ map strip (filter is_plain ls)).
Proof.
  intros H. revert cur.
  induction H as [|l ls Hl _ IH]; intros cur; cbn [fold_left filter].
  - now rewrite app_nil_r.
  - destruct (line_cases l) as [Hb|[[_ Hs]|Hp]].
    + congruence.
    + rewrite para_step_skip by exact Hs. rewrite IH.
      assert (Hp : is_plain l = false).
      { unfold plain_line. rewrite Hs. apply andb_false_r. }
      now rewrite Hp.
    + rewrite para_step_plain by exact Hp. rewrite IH, Hp. cbn [map].
      now rewrite <- app_assoc.
Qed.



Lemma extract_paragraphs_lines c :
  _extract_paragraphs uni_decimal uni_alnum (loaded c)
  = paras (split_lines c).
Proof.
  unfold _extract_paragraphs, loaded. simpl content. rewrite truthy_some.
  destruct c as [|x c]; reflexivity.
Qed.

Lemma paragraphs_of_doc ls :
  Forall no_nl ls ->
  _extract_paragraphs uni_decimal uni_alnum (loaded (join_lines ls))
  = paras ls.
Proof.
  intros H. rewrite extract_paragraphs_lines.
  destruct ls as [|l ls]; [reflexivity|].
  rewrite split_join_lines; [reflexivity|discriminate|assumption].
Qed.

Lemma join_spaces_not_empty x l : x <> [] -> join_spaces (x :: l) <> [].
Proof.
  intros Hx. unfold join_spaces. destruct x as [|c x]; [congruence|].
  destruct l; simpl; discriminate.
Qed.

Lemma strip_not_blank l : blank l = false -> strip l <> [].
Proof. unfold blank. now destruct (strip l). Qed.

Lemma paragraphs_of_no_blank ls :
  Forall (fun l => blank l = false) ls ->
  paras ls =
  match filter is_plain ls with
  | [] => []
  | ps => [join_spaces (map strip ps)]
  end.
Proof.
  intros H. unfold paragraphs_of. rewrite para_fold_no_blank by exact H.
  cbn [app]. destruct (filter is_plain ls) as [|p ps] eqn:E; [reflexivity|].
  cbn [map]. unfold para_finish. cbn [app filter].
  assert (Hp : is_plain p = true).
  { assert (Hin : In p (filter is_plain ls)) by (rewrite E; now left).
    now apply filter_In in Hin. }
  assert (Hne : join_spaces (strip p :: map strip ps) <> []).
  { apply join_spaces_not_empty, strip_not_blank, plain_not_blank, Hp. }
  destruct (join_spaces (strip p :: map strip ps)); [congruence|reflexivity].
Qed.


End ParagraphLoop.

Section CodeBlocks.

Variable uni_decimal : char -> bool.
Variable uni_alnum : char -> bool.

Local Abbreviation cm := (cmatch uni_decimal uni_alnum).
Local Abbreviation rn := (run uni_decimal uni_alnum).
Local Abbreviation word := (is_word uni_alnum).
Local Abbreviation finditer_from := (finditer_from uni_decimal uni_alnum).
Local Abbreviation code_blocks := (_extract_code_blocks uni_decimal uni_alnum).

Lemma run_fence i s g :
  rn fence_re i s g accept =
  if startswith fence s then Some (mkMatch (i + 3) g) else None.
Proof.
  unfold fence_re, fence, backtick.
  change (py "```") with [96; 96; 96]%N.
  destruct s as [|a [|b [|c s]]]; cbn [run cmatch startswith].
  - reflexivity.
  - rewrite (N.eqb_sym 96 a). destruct (N.eqb a 96); reflexivity.
  - rewrite (N.eqb_sym 96 a), (N.eqb_sym 96 b).
    destruct (N.eqb a 96), (N.eqb b 96); reflexivity.
  - rewrite (N.eqb_sym 96 a), (N.eqb_sym 96 b), (N.eqb_sym 96 c).
    destruct (N.eqb a 96), (N.eqb b 96), (N.eqb c 96); try reflexivity.
    unfold accept. cbn [andb]. do 2 f_equal. lia.
Qed.

(** The lazy [.*?] stops at the first fence. *)
Lemma rep_lazy_fence (f : nat -> rmatch) i s g (k : cont) :
  (forall j s', k j s' g = if startswith fence s' then Some (f j) else None) ->
  rep_lazy uni_decimal uni_alnum CAny 0 None i s g k =
  match find_fence s with
  | Some n => Some (f (i + n))
  | None => None
  end.
Proof.
  intros Hk. revert i. induction s as [|c s IH]; intros i.
  - simpl. rewrite Hk. reflexivity.
  - cbn [rep_lazy find_fence]. rewrite Hk.
    destruct (startswith fence (c :: s)).
    + now rewrite Nat.add_0_r.
    + cbn [cmatch hi_zero andb negb option_map]. rewrite IH.
      destruct (find_fence s) as [n|]; simpl; [|reflexivity].
      do 2 f_equal. lia.
Qed.

Lemma word_not_nl c : word c = true -> N.eqb c nl = false.
Proof.
  intros H. destruct (N.eqb_spec c nl); [|reflexivity]. subst. discriminate.
Qed.

Lemma run_code_tail i rest g :
  rn code_tail i (nl :: rest) g accept =
  match find_fence rest with
  | Some n => Some (mkMatch (i + n + 4) ((2, firstn n rest) :: g))
  | None => None
  end.
Proof.
  unfold code_tail.
  change (rn (Cls (CChar nl) >> Grp 2 (Rep CAny 0 None false) >> fence_re)
              i (nl :: rest) g accept)
    with (rep_lazy uni_decimal uni_alnum CAny 0 None (S i) rest g
            (fun j s' g' => rn fence_re j s' ((2, firstn (j - S i) rest) :: g') accept)).
  rewrite (@rep_lazy_fence
             (fun j => mkMatch (j + 3) ((2, firstn (j - S i) rest) :: g))).
  - destruct (find_fence rest) as [n|]; [|reflexivity].
    do 2 f_equal; [lia|]. do 3 f_equal. lia.
  - intros j s'. apply run_fence.
Qed.

Lemma run_code_tail_reject i c s g :
  N.eqb c nl = false -> rn code_tail i (c :: s) g accept = None.
Proof. intros H. unfold code_tail. simpl. now rewrite H. Qed.

(** The code pattern at an opening fence followed by a tag (empty or
    not) and a newline. *)
Lemma run_code_re tag rest :
  Forall (fun c => word c = true) tag ->
  rn code_re 0 (fence ++ tag ++ nl :: rest) [] accept =
  match find_fence rest with
  | Some n =>
      Some (mkMatch (length tag + n + 7)
              ((2, firstn n rest)
                 :: match tag with [] => [] | _ :: _ => [(1, tag)] end))
  | None => None
  end.
Proof.
  intros Htag. set (s1 := tag ++ nl :: rest).
  change (rn code_re 0 (fence ++ s1) [] accept)
    with (match rep_greedy uni_decimal uni_alnum CWord 1 None 3 s1 []
                  (fun j s' g' => rn code_tail j s' ((1, firstn (j - 3) s1) :: g') accept)
          with
          | Some m => Some m
          | None => rn code_tail 3 s1 [] accept
          end).
  rewrite rep_greedy_reject.
  2:{ intros j c s' g' Hc. apply run_code_tail_reject, word_not_nl, Hc. }
  cbv zeta.
  assert (Hspan : span (cm CWord) s1 = length tag).
  { unfold s1. rewrite span_app by exact Htag. simpl. lia. }
  rewrite Hspan. cbn [hi_ok andb]. rewrite andb_true_r.
  assert (Hskip : skipn (length tag) s1 = nl :: rest).
  { unfold s1. rewrite skipn_app, skipn_all, Nat.sub_diag. reflexivity. }
  assert (Hfirst : firstn (length tag) s1 = tag).
  { unfold s1. rewrite firstn_app, firstn_all, Nat.sub_diag. simpl.
    apply app_nil_r. }
  cbv beta. replace (3 + length tag - 3) with (length tag) by lia.
  rewrite Hskip, Hfirst, run_code_tail.
  destruct tag as [|c tag].
  - cbn [length Nat.leb]. unfold s1. cbn [app]. rewrite run_code_tail.
    destruct (find_fence rest); [|reflexivity]. do 2 f_equal. lia.
  - cbn [length Nat.leb].
    destruct (find_fence rest).
    + do 2 f_equal. lia.
    + unfold s1. apply run_code_tail_reject, word_not_nl.
      now inversion Htag.
Qed.

Lemma run_code_re_reject c s :
  N.eqb c backtick = false -> rn code_re 0 (c :: s) [] accept = None.
Proof. intros H. unfold code_re. simpl. now rewrite H. Qed.

(** [finditer]: stepping over a match is starting again after it. *)
Lemma finditer_from_skip r n s :
  finditer_from r n s = finditer_from r 0 (skipn n s).
Proof.
  revert n. induction s as [|c s IH]; intros [|n]; try reflexivity.
  simpl. apply IH.
Qed.

Lemma finditer_from_hit r c s m :
  rn r 0 (c :: s) [] accept = Some m -> 1 <= m_end m ->
  finditer_from r 0 (c :: s)
  = (c :: s, m) :: finditer_from r 0 (skipn (m_end m) (c :: s)).
Proof.
  intros Hm Hend. simpl. rewrite Hm, finditer_from_skip.
  destruct (m_end m); [lia|reflexivity].
Qed.

End CodeBlocks.

Section MachineFacts.

Variable uni_decimal : char -> bool.
Variable uni_alnum : char -> bool.

Local Abbreviation parse_ := (parse uni_decimal uni_alnum).
Local Abbreviation reachable_ := (reachable uni_decimal uni_alnum).
Local Abbreviation cache_ok_ := (cache_ok uni_decimal uni_alnum).
Local Abbreviation parse_text_ := (parse_text uni_decimal uni_alnum).

(** With an empty cache the answer of [parse] depends on the content
    only. *)
Lemma parse_content self1 self2 :
  content self1 = content self2 ->
  parsed_content self1 = None -> parsed_content self2 = None ->
  fst (parse_ self1) = fst (parse_ self2).
Proof.
  intros Hc H1 H2.
  unfold parse, _extract_title, _extract_headings, _extract_paragraphs,
    _extract_code_blocks, _extract_links, _extract_images.
  rewrite Hc, H1, H2. destruct (truthy (content self2)); reflexivity.
Qed.

Lemma parse_fresh self c :
  content self = Some c -> fst (parse_ (fresh self)) = parse_text_ c.
Proof.
  intros H. unfold parse_text. apply parse_content; auto.
Qed.

Lemma parse_no_content self :
  truthy (content self) = None -> parse_ self = (Raise NoContentError, self).
Proof. intros H. unfold parse. now rewrite H. Qed.

Lemma parse_cached self c d :
  truthy (content self) = Some c -> parsed_content self = Some d ->
  parse_ self = (Ok d, self).
Proof. intros H1 H2. unfold parse. now rewrite H1, H2. Qed.

(** A first parse: the answer is cached and it is the answer to the
    content. *)
Lemma parse_compute self c :
  truthy (content self) = Some c -> parsed_content self = None ->
  exists d,
    parse_ self = (Ok d, {| file_path := file_path self;
                            content := content self;
                            parsed_content := Some d |})
    /\ fst (parse_ (fresh self)) = Ok d.
Proof.
  intros H1 H2. unfold parse at 1. rewrite H1, H2.
  eexists. split; [reflexivity|].
  unfold parse, fresh. cbn [content parsed_content]. rewrite H1.
  reflexivity.
Qed.

(** Calling [parse] again gives the same answer and changes nothing. *)
Lemma parse_twice self :
  parse_ (snd (parse_ self)) = (fst (parse_ self), snd (parse_ self)).
Proof.
  destruct (truthy (content self)) as [c|] eqn:Hc.
  - destruct (parsed_content self) as [d|] eqn:Hd.
    + rewrite (parse_cached _ Hc Hd). cbn [fst snd].
      apply (parse_cached _ Hc Hd).
    + destruct (parse_compute _ Hc Hd) as [d [Hp _]].
      rewrite Hp. cbn [fst snd]. eapply parse_cached; [exact Hc|reflexivity].
  - rewrite (parse_no_content _ Hc). cbn [fst snd].
    apply (parse_no_content _ Hc).
Qed.

Lemma cache_ok_content self1 self2 :
  content self1 = content self2 ->
  parsed_content self1 = parsed_content self2 ->
  cache_ok_ self1 -> cache_ok_ self2.
Proof.
  intros Hc Hp H d Hd. rewrite <- Hp in Hd.
  rewrite <- (H d Hd). symmetry. apply parse_content; auto.
Qed.

(** The invariant of the reader. *)
Lemma reachable_cache_ok self : reachable_ self -> cache_ok_ self.
Proof.
  induction 1 as [|fs self path _ IH|self c _ IH|self _ IH].
  - intros d Hd. discriminate.
  - unfold read.
    destruct (fs_exists fs path); cbn [negb]; [|exact IH].
    destruct (fs_is_file fs path); cbn [negb]; [|exact IH].
    destruct (fs_read_text fs path); cbn [snd].
    + intros d Hd. discriminate.
    + eapply cache_ok_content; [| |exact IH]; reflexivity.
  - intros d Hd. discriminate.
  - destruct (truthy (content self)) as [c|] eqn:Hc.
    + destruct (parsed_content self) as [d|] eqn:Hd.
      * now rewrite (parse_cached _ Hc Hd).
      * destruct (parse_compute _ Hc Hd) as [d [Hp Hf]].
        rewrite Hp. cbn [snd]. intros d' Hd'.
        cbn [parsed_content] in Hd'. inversion Hd'; subst d'.
        rewrite <- Hf. apply parse_content; reflexivity.
    + now rewrite (parse_no_content _ Hc).
Qed.

Lemma truthy_content self c : truthy (content self) = Some c -> content self = Some c.
Proof. destruct (content self) as [[|x s]|]; simpl; congruence. Qed.

(** In a reachable state the answer of [parse] is the answer to the
    content. *)
Lemma reachable_parse self c :
  reachable_ self -> content self = Some c ->
  fst (parse_ self) = parse_text_ c.
Proof.
  intros Hr Hc. pose proof (reachable_cache_ok Hr) as Hok.
  destruct (truthy (content self)) as [c'|] eqn:Ht.
  - destruct (parsed_content self) as [d|] eqn:Hd.
    + rewrite (parse_cached _ Ht Hd). cbn [fst].
      rewrite <- (Hok d Hd). now apply parse_fresh.
    + apply parse_content; auto.
  - rewrite (parse_no_content _ Ht). cbn [fst].
    unfold parse_text. rewrite parse_no_content; [reflexivity|].
    cbn [loaded read_string snd content]. now rewrite <- Hc.
Qed.

(** The fields of an answer to a text. *)
Lemma parse_text_fields c d :
  parse_text_ c = Ok d ->
  c <> [] /\
  d = {| Parsed.title := _extract_title uni_decimal uni_alnum (loaded c);
         Parsed.headings := _extract_headings uni_decimal uni_alnum (loaded c);
         Parsed.paragraphs := _extract_paragraphs uni_decimal uni_alnum (loaded c);
         Parsed.code_blocks := _extract_code_blocks uni_decimal uni_alnum (loaded c);
         Parsed.links := _extract_links uni_decimal uni_alnum (loaded c);
         Parsed.images := _extract_images uni_decimal uni_alnum (loaded c);
         Parsed.raw := c |}.
Proof.
  unfold parse_text, parse. cbn [loaded read_string snd content parsed_content].
  destruct c as [|x c]; cbn [truthy fst]; [discriminate|].
  intros H. inversion H. split; [discriminate|reflexivity].
Qed.

Lemma parse_text_empty : parse_text_ [] = Raise NoContentError.
Proof. reflexivity. Qed.

End MachineFacts.

(** ** Documents given by their lines *)

Lemma startswith_repeat_span n s :
  startswith (repeat hash n) s = true -> n <= span is_hash s.
Proof.
  revert s. induction n as [|n IH]; intros s; [lia|].
  destruct s as [|c s]; cbn [repeat startswith span]; [discriminate|].
  rewrite (N.eqb_sym hash c). change (N.eqb c hash) with (is_hash c).
  destruct (is_hash c); cbn [andb]; [|discriminate].
  intros H. apply IH in H. lia.
Qed.

Lemma rstrip_nil_all_space s : rstrip s = [] -> all_space s.
Proof.
  intros H. destruct (rstrip_split s) as [w [Hw E]].
  rewrite H in E. now subst.
Qed.

Lemma strip_nil_all_space s : strip s = [] -> all_space s.
Proof.
  unfold strip. intros H. apply rstrip_nil_all_space in H.
  destruct (lstrip_split s) as [w [Hw E]]. rewrite E.
  apply Forall_app. now split.
Qed.

Lemma rstrip_app_fixed a b : rstrip b = b -> b <> [] -> rstrip (a ++ b) = a ++ b.
Proof.
  unfold rstrip. intros H Hb.
  assert (Hl : lstrip (rev b) = rev b).
  { apply (f_equal (@rev _)) in H. now rewrite rev_involutive in H. }
  rewrite rev_app_distr.
  destruct (rev b) as [|x t] eqn:E.
  - apply (f_equal (@rev _)) in E. rewrite rev_involutive in E. now subst.
  - pose proof (lstrip_head _ Hl) as Hx. simpl. rewrite Hx.
    change (x :: t ++ rev a) with ((x :: t) ++ rev a).
    rewrite <- E, <- rev_app_distr. apply rev_involutive.
Qed.

Lemma strip_rstrip s : strip (rstrip s) = strip s.
Proof.
  destruct (rstrip_split s) as [w [Hw E]].
  transitivity (strip ([] ++ rstrip s ++ w)).
  - symmetry. apply strip_pad; [constructor|assumption].
  - simpl. now rewrite <- E.
Qed.

Lemma skipn_app_length {A : Type} (l r : list A) k :
  skipn (length l + k) (l ++ r) = skipn k r.
Proof. induction l; simpl; auto. Qed.

Section Documents.

Variable uni_decimal : char -> bool.
Variable uni_alnum : char -> bool.

Local Abbreviation line_heading := (heading_of uni_decimal uni_alnum).
Local Abbreviation line_title := (title_of uni_decimal uni_alnum).
Local Abbreviation headings_of := (headings_from uni_decimal uni_alnum).
Local Abbreviation title_lines := (title_loop uni_decimal uni_alnum).
Local Abbreviation sects := (sections_of uni_decimal uni_alnum).
Local Abbreviation find_all := (finditer_from uni_decimal uni_alnum).

Lemma heading_of_nil : line_heading [] = None.
Proof. reflexivity. Qed.

Lemma title_doc ls :
  Forall no_nl ls ->
  _extract_title uni_decimal uni_alnum (loaded (join_lines ls)) = title_lines ls.
Proof.
  intros H. rewrite extract_title_lines.
  destruct ls as [|l ls]; [reflexivity|].
  rewrite split_join_lines; [reflexivity|discriminate|assumption].
Qed.

Lemma headings_doc ls :
  Forall no_nl ls ->
  _extract_headings uni_decimal uni_alnum (loaded (join_lines ls))
  = headings_of 0 ls.
Proof.
  intros H. rewrite extract_headings_lines.
  destruct ls as [|l ls]; [reflexivity|].
  rewrite split_join_lines; [reflexivity|discriminate|assumption].
Qed.

Lemma sections_doc ls :
  Forall no_nl ls ->
  get_sections uni_decimal uni_alnum (loaded (join_lines ls)) = sects ls.
Proof.
  intros H. rewrite get_sections_lines.
  destruct ls as [|l ls]; [reflexivity|].
  rewrite split_join_lines; [reflexivity|discriminate|assumption].
Qed.

Lemma title_of_strip line : line_title (strip line) = line_title line.
Proof. unfold title_of. now rewrite strip_idem. Qed.

Lemma title_loop_strip ls : title_lines (map strip ls) = title_lines ls.
Proof.
  induction ls as [|l ls IH]; [reflexivity|].
  cbn [map]. rewrite !title_loop_cons, title_of_strip, IH. reflexivity.
Qed.

Lemma headings_from_strip ls i : headings_of i (map strip ls) = headings_of i ls.
Proof.
  revert i. induction ls as [|l ls IH]; intros i; [reflexivity|].
  cbn [map headings_from]. rewrite heading_of_strip, IH. reflexivity.
Qed.

Lemma no_nl_map_strip ls : Forall no_nl ls -> Forall no_nl (map strip ls).
Proof.
  intros H. apply Forall_map. eapply Forall_impl; [|exact H].
  intros l. apply no_nl_strip.
Qed.

(** Seven [#] or more: not a heading. *)
Lemma heading_of_seven line :
  no_nl line -> startswith (repeat hash 7) (strip line) = true ->
  line_heading line = None.
Proof.
  intros Hnl H. rewrite heading_of_span by assumption. cbv zeta.
  apply startswith_repeat_span in H.
  destruct (Nat.leb_spec (span is_hash (strip line)) 6); [lia|].
  now rewrite andb_false_r.
Qed.

(** The text of a heading is trimmed and not empty. *)
Lemma heading_form_text line level text :
  heading_form (strip line) level text ->
  1 <= level <= 6 /\ trimmed text /\ text <> [].
Proof.
  intros [ws [rest [Es [Hl [_ [_ [Hr Ht]]]]]]]. subst text.
  split; [assumption|]. split; [apply strip_trimmed|].
  intros E. apply strip_nil_all_space in E. apply Hr.
  pose proof (trimmed_no_trailing_space (strip_trimmed line)) as Htr.
  apply (Htr (repeat hash level ++ ws) rest); [|assumption].
  now rewrite <- app_assoc.
Qed.

(** A line written as [#]s, whitespace and a text with something in it
    is a heading, whatever follows the text. *)
Lemma heading_of_raw line level ws rest :
  no_nl line ->
  line = repeat hash level ++ ws ++ rest ->
  1 <= level <= 6 -> ws <> [] -> all_space ws -> strip rest <> [] ->
  line_heading line = Some (level, strip rest).
Proof.
  intros Hnl E Hl Hws Hsp Hrest. apply heading_of_form; [assumption|].
  assert (Hr : rstrip rest <> []).
  { intros H. apply Hrest. apply rstrip_nil_all_space in H.
    unfold strip. now rewrite (all_space_lstrip_nil H). }
  assert (Hstrip : strip line = repeat hash level ++ ws ++ rstrip rest).
  { unfold strip.
    assert (Hls : lstrip line = line).
    { subst line. destruct level as [|level]; [lia|]. reflexivity. }
    rewrite Hls, E.
    destruct (rstrip_split rest) as [w [Hw Er]].
    rewrite Er at 1. rewrite !app_assoc, rstrip_all_space by assumption.
    rewrite <- app_assoc.
    rewrite (app_assoc (repeat hash level) ws (rstrip rest)).
    apply rstrip_app_fixed; [apply rstrip_idem|assumption]. }
  exists ws, (rstrip rest). repeat split; auto; try lia.
  symmetry. apply strip_rstrip.
Qed.

(** No code block starts on a character that is not a backtick. *)
Lemma finditer_code_pre pre s :
  Forall (fun c => c <> backtick) pre ->
  find_all code_re 0 (pre ++ s) = find_all code_re 0 s.
Proof.
  induction 1 as [|c pre Hc _ IH]; [reflexivity|].
  cbn [app finditer_from]. rewrite run_code_re_reject; [exact IH|].
  now apply N.eqb_neq.
Qed.

Lemma extract_code_blocks_text c :
  _extract_code_blocks uni_decimal uni_alnum (loaded c)
  = map (fun sm => code_block_of (snd sm)) (find_all code_re 0 c).
Proof.
  unfold _extract_code_blocks, loaded, finditer. simpl content.
  rewrite truthy_some. destruct c as [|x c]; [reflexivity|].
  now rewrite map_map.
Qed.

(** The code block at an opening fence with a tag (empty or not). *)
Lemma code_blocks_at_fence pre tag rest n :
  Forall (fun c => c <> backtick) pre ->
  Forall (fun c => is_word uni_alnum c = true) tag ->
  find_fence rest = Some n ->
  _extract_code_blocks uni_decimal uni_alnum
    (loaded (pre ++ fence ++ tag ++ nl :: rest))
  = CodeBlock.Make (match tag with [] => None | _ :: _ => Some tag end)
                   (strip (firstn n rest))
    :: _extract_code_blocks uni_decimal uni_alnum (loaded (skipn (n + 3) rest)).
Proof.
  intros Hpre Htag Hn. rewrite !extract_code_blocks_text.
  rewrite finditer_code_pre by assumption.
  pose proof (run_code_re uni_decimal uni_alnum rest Htag) as Hrun.
  rewrite Hn in Hrun.
  change (fence ++ tag ++ nl :: rest)
    with (backtick :: (backtick :: backtick :: tag ++ nl :: rest)) in *.
  erewrite finditer_from_hit by (try exact Hrun; simpl; lia).
  cbn [map snd m_end]. f_equal.
  - unfold code_block_of, group_str, group. cbn [m_groups lookup Nat.eqb].
    destruct tag; reflexivity.
  - f_equal. f_equal.
    replace (backtick :: backtick :: backtick :: tag ++ nl :: rest)
      with ((fence ++ tag ++ [nl]) ++ rest)
      by (now rewrite <- !app_assoc).
    replace (length tag + n + 7) with (length (fence ++ tag ++ [nl]) + (n + 3)).
    + apply skipn_app_length.
    + rewrite !length_app. simpl. lia.
Qed.

End Documents.

Lemma no_nlb_ok s : no_nlb s = true -> no_nl s.
Proof.
  unfold no_nlb, no_nl. rewrite forallb_forall, Forall_forall.
  intros H c Hc E. apply H in Hc. subst c. discriminate.
Qed.

Lemma linesb_ok ls : linesb ls = true -> Forall no_nl ls.
Proof.
  unfold linesb. rewrite forallb_forall, Forall_forall.
  intros H l Hl. apply no_nlb_ok, H, Hl.
Qed.

Lemma all_spaceb_ok s : all_spaceb s = true -> all_space s.
Proof.
  unfold all_spaceb, all_space. rewrite forallb_forall, Forall_forall. auto.
Qed.

Lemma no_backtickb_ok s :
  no_backtickb s = true -> Forall (fun c => c <> backtick) s.
Proof.
  unfold no_backtickb. rewrite forallb_forall, Forall_forall.
  intros H c Hc E. apply H in Hc. subst c. discriminate.
Qed.

Lemma absentb_ok d s : absentb d s = true -> ~ In d s.
Proof.
  unfold absentb. intros H Hin. apply negb_true_iff in H.
  assert (Hex : existsb (N.eqb d) s = true).
  { apply existsb_exists. exists d. split; [assumption|apply N.eqb_refl]. }
  congruence.
Qed.

(** ** The skipped lines *)

Lemma startswith_app p s : startswith p s = true <-> exists r, s = p ++ r.
Proof.
  revert s. induction p as [|a p IH]; intros s; simpl.
  - split; [intros _; now exists s|reflexivity].
  - destruct s as [|b s].
    + split; [discriminate|]. intros [r H]. discriminate.
    + split.
      * intros H. apply andb_prop in H. destruct H as [H1 H2].
        apply N.eqb_eq in H1. apply IH in H2. destruct H2 as [r H2].
        exists r. now subst.
      * intros [r H]. inversion H; subst. rewrite N.eqb_refl. simpl.
        apply IH. now exists r.
Qed.

Section SkippedLines.

Variable uni_decimal : char -> bool.
Variable uni_alnum : char -> bool.

Local Abbreviation matches r s :=
  (is_some (re_match uni_decimal uni_alnum r s)).
Local Abbreviation digit := (is_decimal uni_decimal).

(** A greedy repetition at the end of a pattern takes the whole run. *)
Lemma rep_greedy_accept cl lo i s g :
  rep_greedy uni_decimal uni_alnum cl lo None i s g accept =
  if Nat.leb lo (span (cmatch uni_decimal uni_alnum cl) s)
  then Some (mkMatch (i + span (cmatch uni_decimal uni_alnum cl) s) g)
  else None.
Proof.
  destruct (Nat.leb_spec lo (span (cmatch uni_decimal uni_alnum cl) s)).
  - now apply rep_greedy_max.
  - now apply rep_greedy_short.
Qed.

Lemma span_space_pos s :
  Nat.leb 1 (span is_space s) = true <->
  exists c r, s = c :: r /\ is_space c = true.
Proof.
  destruct s as [|c r]; simpl.
  - split; [discriminate|]. intros [c [r [H _]]]. discriminate.
  - destruct (is_space c) eqn:E; simpl.
    + split; [intros _; now exists c, r|reflexivity].
    + split; [discriminate|]. intros [c' [r' [H H']]].
      inversion H; subst. congruence.
Qed.

(** [^[-*+]\s+] *)
Lemma bullet_form s :
  matches bullet_re s = true <->
  exists m c r, s = m :: c :: r /\ In m (py "-*+") /\ is_space c = true.
Proof.
  unfold re_match, bullet_re. destruct s as [|m s].
  - simpl. split; [discriminate|]. intros [m [c [r [H _]]]]. discriminate.
  - change (run uni_decimal uni_alnum
              (Bol >> Cls (COneOf (py "-*+")) >> Rep CSpace 1 None true)
              0 (m :: s) [] accept)
      with (if existsb (N.eqb m) (py "-*+")
            then rep_greedy uni_decimal uni_alnum CSpace 1 None 1 s [] accept
            else None).
    rewrite rep_greedy_accept.
    change (cmatch uni_decimal uni_alnum CSpace) with is_space.
    destruct (existsb (N.eqb m) (py "-*+")) eqn:Em.
    + apply existsb_exists in Em. destruct Em as [x [Hx Ex]].
      apply N.eqb_eq in Ex. subst x.
      destruct (Nat.leb 1 (span is_space s)) eqn:Es; simpl.
      * apply span_space_pos in Es. destruct Es as [c [r [E Hc]]].
        split; [intros _|reflexivity]. exists m, c, r. now subst.
      * split; [discriminate|]. intros [m' [c [r [E [_ Hc]]]]].
        inversion E; subst.
        assert (Hs : Nat.leb 1 (span is_space (c :: r)) = true)
          by (apply span_space_pos; now exists c, r).
        congruence.
    + simpl. split; [discriminate|]. intros [m' [c [r [E [Hm _]]]]].
      inversion E; subst m'.
      assert (Hex : existsb (N.eqb m) (py "-*+") = true).
      { apply existsb_exists. exists m. split; [assumption|apply N.eqb_refl]. }
      congruence.
Qed.

Lemma digit_not_dot c : digit c = true -> N.eqb c 46 = false.
Proof.
  intros H. destruct (N.eqb_spec c 46); [|reflexivity]. subst. discriminate.
Qed.

(** [^\d+\.\s+] *)
Lemma number_form s :
  matches number_re s = true <->
  exists ds c r,
    s = ds ++ 46%N :: c :: r /\ ds <> [] /\
    Forall (fun d => digit d = true) ds /\ is_space c = true.
Proof.
  unfold re_match, number_re.
  change (run uni_decimal uni_alnum
            (Bol >> Rep CDigit 1 None true >> Cls (CChar 46)
                 >> Rep CSpace 1 None true) 0 s [] accept)
    with (rep_greedy uni_decimal uni_alnum CDigit 1 None 0 s []
            (fun j s' g' =>
               run uni_decimal uni_alnum
                   (Cls (CChar 46) >> Rep CSpace 1 None true) j s' g' accept)).
  rewrite rep_greedy_reject.
  2:{ intros j c s' g' Hc. simpl. simpl in Hc.
      now rewrite (digit_not_dot _ Hc). }
  cbv zeta. change (cmatch uni_decimal uni_alnum CDigit) with digit.
  cbn [hi_ok]. rewrite andb_true_r.
  set (n := span digit s).
  assert (Hsplit : s = firstn n s ++ skipn n s)
    by (symmetry; apply firstn_skipn).
  assert (Hds : Forall (fun d => digit d = true) (firstn n s))
    by apply span_firstn.
  split.
  - destruct (Nat.leb_spec 1 n) as [Hn|Hn]; [|discriminate].
    destruct (skipn n s) as [|d t] eqn:Et; [discriminate|].
    change (run uni_decimal uni_alnum
              (Cls (CChar 46) >> Rep CSpace 1 None true) (0 + n) (d :: t) [] accept)
      with (if N.eqb d 46
            then rep_greedy uni_decimal uni_alnum CSpace 1 None (S (0 + n)) t [] accept
            else None).
    destruct (N.eqb_spec d 46) as [Ed|Ed]; [|discriminate]. subst d.
    rewrite rep_greedy_accept.
    change (cmatch uni_decimal uni_alnum CSpace) with is_space.
    destruct (Nat.leb 1 (span is_space t)) eqn:Es; [|discriminate].
    intros _. apply span_space_pos in Es. destruct Es as [c [r [E Hc]]].
    exists (firstn n s), c, r. subst t. repeat split; auto.
    intros E0. apply (f_equal (@length _)) in E0. rewrite length_firstn in E0.
    pose proof (span_le digit s) as Hle. fold n in Hle. cbn [length] in E0.
    clearbody n. rewrite Nat.min_l in E0 by exact Hle. lia.
  - intros [ds [c [r [E [Hne [Hd Hc]]]]]].
    assert (Hn : n = length ds).
    { unfold n. rewrite E, (span_app _ _ Hd). simpl.
      destruct (digit 46) eqn:E46; [discriminate|apply Nat.add_0_r]. }
    assert (Hsk : skipn n s = 46%N :: c :: r).
    { rewrite Hn, E. rewrite skipn_app, skipn_all, Nat.sub_diag. reflexivity. }
    rewrite Hsk.
    destruct (Nat.leb_spec 1 n) as [Hn1|Hn1].
    + change (run uni_decimal uni_alnum
                (Cls (CChar 46) >> Rep CSpace 1 None true) (0 + n)
                (46%N :: c :: r) [] accept)
        with (rep_greedy uni_decimal uni_alnum CSpace 1 None (S (0 + n))
                (c :: r) [] accept).
      rewrite rep_greedy_accept.
      change (cmatch uni_decimal uni_alnum CSpace) with is_space.
      assert (Hs : Nat.leb 1 (span is_space (c :: r)) = true)
        by (apply span_space_pos; now exists c, r).
      now rewrite Hs.
    + destruct ds; [congruence|]. simpl in Hn. lia.
Qed.

(** A line is skipped exactly when its stripped form is one of the four
    forms. *)
Lemma skip_line_form line :
  skip_line uni_decimal uni_alnum line = true
  <-> skip_form uni_decimal (strip line).
Proof.
  unfold skip_line, skip_form. cbv zeta.
  rewrite andb_true_iff, !orb_true_iff, negb_true_iff.
  rewrite (startswith_app (py "#")), (startswith_app (py "```")).
  rewrite bullet_form, number_form.
  change (py "```") with fence.
  split.
  - intros [_ [[[H|H]|H]|H]]; auto.
  - intros H. split.
    + destruct H as [[r H]|[[r H]|[[m [c [r [H _]]]]|[ds [c [r [H _]]]]]]];
        rewrite H; try reflexivity.
      destruct ds; reflexivity.
    + destruct H as [H|[H|[H|H]]]; auto.
Qed.

End SkippedLines.

(** ** Bracketed runs *)

Lemma span_not_in d s : ~ In d (firstn (span (not_char d) s) s).
Proof.
  intros H. pose proof (span_firstn (not_char d) s) as Hall.
  rewrite Forall_forall in Hall. apply Hall in H.
  unfold not_char in H. now rewrite N.eqb_refl in H.
Qed.

Lemma span_stop d body rest :
  ~ In d body -> span (not_char d) (body ++ d :: rest) = length body.
Proof.
  intros H. rewrite span_app.
  - simpl. unfold not_char. rewrite N.eqb_refl. simpl. lia.
  - apply Forall_forall. intros c Hc. unfold not_char.
    destruct (N.eqb_spec c d); [subst; contradiction|reflexivity].
Qed.

Lemma delim_run_some d lo s body rest :
  delim_run d lo s = Some (body, rest) <->
  s = body ++ d :: rest /\ ~ In d body /\ lo <= length body.
Proof.
  unfold delim_run. cbv zeta. split.
  - destruct (Nat.leb_spec lo (span (not_char d) s)) as [Hlo|Hlo]; [|discriminate].
    destruct (skipn (span (not_char d) s) s) as [|x r] eqn:E; [discriminate|].
    destruct (N.eqb_spec x d) as [Ex|Ex]; [|discriminate].
    intros H. inversion H; subst. split; [|split].
    + rewrite <- E. symmetry. apply firstn_skipn.
    + apply span_not_in.
    + rewrite length_firstn. pose proof (span_le (not_char d) s).
      rewrite Nat.min_l by assumption. assumption.
  - intros [E [Hn Hlo]]. subst s. rewrite span_stop by exact Hn.
    destruct (Nat.leb_spec lo (length body)) as [_|Hc]; [|exfalso; lia].
    rewrite skipn_app, skipn_all, Nat.sub_diag. simpl. rewrite N.eqb_refl.
    rewrite firstn_app, firstn_all, Nat.sub_diag. simpl.
    now rewrite app_nil_r.
Qed.

Lemma delim_run_length d lo s body rest :
  delim_run d lo s = Some (body, rest) ->
  length s = length body + S (length rest).
Proof.
  intros H. apply delim_run_some in H. destruct H as [E _]. subst s.
  rewrite length_app. reflexivity.
Qed.

Section Brackets.

Variable uni_decimal : char -> bool.
Variable uni_alnum : char -> bool.

Local Abbreviation rn := (run uni_decimal uni_alnum).
Local Abbreviation greedy := (rep_greedy uni_decimal uni_alnum).

(** A run of characters other than [d], then [d], then the rest of the
    pattern. *)
Lemma run_delim gi d lo r i s g (k : cont) :
  rn (Grp gi (Rep (CNot d) lo None true) >> Cls (CChar d) >> r) i s g k =
  match delim_run d lo s with
  | Some (body, rest) =>
      rn r (i + length body + 1) rest ((gi, body) :: g) k
  | None => None
  end.
Proof.
  change (rn (Grp gi (Rep (CNot d) lo None true) >> Cls (CChar d) >> r) i s g k)
    with (greedy (CNot d) lo None i s g
            (fun j s' g' =>
               rn (Cls (CChar d) >> r) j s' ((gi, firstn (j - i) s) :: g') k)).
  rewrite rep_greedy_reject.
  2:{ intros j c s' g' Hc. simpl in *. apply negb_true_iff in Hc.
      now rewrite Hc. }
  cbv zeta. change (span (cmatch uni_decimal uni_alnum (CNot d)) s)
    with (span (not_char d) s).
  unfold delim_run. cbv zeta. cbn [hi_ok]. rewrite andb_true_r.
  destruct (Nat.leb lo (span (not_char d) s)); [|reflexivity].
  replace (i + span (not_char d) s - i) with (span (not_char d) s) by lia.
  destruct (skipn (span (not_char d) s) s) as [|x rest] eqn:E; [reflexivity|].
  cbn [run cmatch]. destruct (N.eqb x d); [|reflexivity].
  rewrite length_firstn, Nat.min_l by apply span_le.
  f_equal. lia.
Qed.

(** The same at the end of the pattern. *)
Lemma run_delim_end gi d lo i s g :
  rn (Grp gi (Rep (CNot d) lo None true) >> Cls (CChar d)) i s g accept =
  match delim_run d lo s with
  | Some (body, rest) =>
      Some (mkMatch (i + length body + 1) ((gi, body) :: g))
  | None => None
  end.
Proof.
  change (rn (Grp gi (Rep (CNot d) lo None true) >> Cls (CChar d)) i s g accept)
    with (greedy (CNot d) lo None i s g
            (fun j s' g' =>
               rn (Cls (CChar d)) j s' ((gi, firstn (j - i) s) :: g') accept)).
  rewrite rep_greedy_reject.
  2:{ intros j c s' g' Hc. simpl in *. apply negb_true_iff in Hc.
      now rewrite Hc. }
  cbv zeta. change (span (cmatch uni_decimal uni_alnum (CNot d)) s)
    with (span (not_char d) s).
  unfold delim_run. cbv zeta. cbn [hi_ok]. rewrite andb_true_r.
  destruct (Nat.leb lo (span (not_char d) s)); [|reflexivity].
  replace (i + span (not_char d) s - i) with (span (not_char d) s) by lia.
  destruct (skipn (span (not_char d) s) s) as [|x rest] eqn:E; [reflexivity|].
  cbn [run cmatch]. destruct (N.eqb x d); [|reflexivity].
  rewrite length_firstn, Nat.min_l by apply span_le.
  unfold accept. do 2 f_equal. lia.
Qed.

(** [\(([^\)]+)\)] at the end of a pattern. *)
Lemma run_paren gi i s g :
  rn (Cls (CChar 40) >> Grp gi (Rep (CNot 41) 1 None true) >> Cls (CChar 41))
     i s g accept =
  match paren_at s with
  | Some (url, rest) => Some (mkMatch (i + length url + 2) ((gi, url) :: g))
  | None => None
  end.
Proof.
  unfold paren_at. destruct s as [|c s]; [reflexivity|].
  change (rn (Cls (CChar 40) >> Grp gi (Rep (CNot 41) 1 None true)
                >> Cls (CChar 41)) i (c :: s) g accept)
    with (if N.eqb c 40
          then rn (Grp gi (Rep (CNot 41) 1 None true) >> Cls (CChar 41))
                  (S i) s g accept
          else None).
  destruct (N.eqb c 40); [|reflexivity].
  rewrite run_delim_end.
  destruct (delim_run 41 1 s) as [[url rest]|]; [|reflexivity].
  do 2 f_equal. lia.
Qed.

(** The inline-link pattern is the bracket scanner [link_at]. *)
Lemma run_link_re s :
  rn link_re 0 s [] accept =
  match link_at s with
  | Some (text, url, rest) =>
      Some (mkMatch (length text + length url + 4) [(2, url); (1, text)])
  | None => None
  end.
Proof.
  unfold link_re, link_at. destruct s as [|c s]; [reflexivity|].
  change (rn (Cls (CChar 91) >> Grp 1 (Rep (CNot 93) 1 None true)
                >> Cls (CChar 93) >> Cls (CChar 40)
                >> Grp 2 (Rep (CNot 41) 1 None true) >> Cls (CChar 41))
             0 (c :: s) [] accept)
    with (if N.eqb c 91
          then rn (Grp 1 (Rep (CNot 93) 1 None true) >> Cls (CChar 93)
                     >> Cls (CChar 40)
                     >> Grp 2 (Rep (CNot 41) 1 None true) >> Cls (CChar 41))
                  1 s [] accept
          else None).
  destruct (N.eqb c 91); [|reflexivity].
  rewrite run_delim.
  destruct (delim_run 93 1 s) as [[text s2]|]; [|reflexivity].
  rewrite run_paren.
  destruct (paren_at s2) as [[url rest]|]; [|reflexivity].
  do 2 f_equal. lia.
Qed.

(** The image pattern is the bracket scanner [image_at]. *)
Lemma run_image_re s :
  rn image_re 0 s [] accept =
  match image_at s with
  | Some (alt, url, rest) =>
      Some (mkMatch (length alt + length url + 5) [(2, url); (1, alt)])
  | None => None
  end.
Proof.
  unfold image_re, image_at. destruct s as [|c0 [|c s]]; try reflexivity.
  { simpl. now destruct (N.eqb c0 33). }
  change (rn (Cls (CChar 33) >> Cls (CChar 91)
                >> Grp 1 (Rep (CNot 93) 0 None true) >> Cls (CChar 93)
                >> Cls (CChar 40)
                >> Grp 2 (Rep (CNot 41) 1 None true) >> Cls (CChar 41))
             0 (c0 :: c :: s) [] accept)
    with (if N.eqb c0 33
          then if N.eqb c 91
               then rn (Grp 1 (Rep (CNot 93) 0 None true) >> Cls (CChar 93)
                          >> Cls (CChar 40)
                          >> Grp 2 (Rep (CNot 41) 1 None true) >> Cls (CChar 41))
                       2 s [] accept
               else None
          else None).
  destruct (N.eqb c0 33); [|reflexivity].
  destruct (N.eqb c 91); cbn [andb]; [|reflexivity].
  rewrite run_delim.
  destruct (delim_run 93 0 s) as [[alt s2]|]; [|reflexivity].
  rewrite run_paren.
  destruct (paren_at s2) as [[url rest]|]; [|reflexivity].
  do 2 f_equal. lia.
Qed.

End Brackets.

Lemma paren_at_some s url rest :
  paren_at s = Some (url, rest) <->
  s = py "(" ++ url ++ py ")" ++ rest /\ ~ In 41%N url /\ url <> [].
Proof.
  unfold paren_at. destruct s as [|c s].
  - split; [discriminate|]. intros [H _]. discriminate.
  - destruct (N.eqb_spec c 40) as [E|E].
    + subst c. rewrite delim_run_some. split.
      * intros [H1 [H2 H3]]. subst s. repeat split; auto.
        intros H. subst url. simpl in H3. lia.
      * intros [H1 [H2 H3]]. inversion H1; subst. repeat split; auto.
        destruct url; [congruence|simpl; lia].
    + split; [discriminate|]. intros [H _]. inversion H. congruence.
Qed.

(** What [link_at] accepts. *)
Lemma link_at_some s text url rest :
  link_at s = Some (text, url, rest) <->
  s = link_text text url ++ rest /\
  text <> [] /\ ~ In 93%N text /\ url <> [] /\ ~ In 41%N url.
Proof.
  unfold link_at, link_text. destruct s as [|c s].
  - split; [discriminate|]. intros [H _]. discriminate.
  - destruct (N.eqb_spec c 91) as [E|E].
    + subst c. split.
      * destruct (delim_run 93 1 s) as [[t s2]|] eqn:E1; [|discriminate].
        destruct (paren_at s2) as [[u r]|] eqn:E2; [|discriminate].
        intros H. inversion H; subst t u r.
        apply delim_run_some in E1. destruct E1 as [H1 [H2 H3]].
        apply paren_at_some in E2. destruct E2 as [H4 [H5 H6]].
        subst s s2. repeat split; auto.
        -- simpl. rewrite <- !app_assoc. simpl. now rewrite <- !app_assoc.
        -- intros H0. subst text. simpl in H3. lia.
      * intros [H1 [H2 [H3 [H4 H5]]]].
        assert (Hs : s = text ++ 93%N :: 40%N :: url ++ 41%N :: rest).
        { simpl in H1. inversion H1 as [H0].
          rewrite <- !app_assoc. simpl. now rewrite <- !app_assoc. }
        assert (E1 : delim_run 93 1 s = Some (text, 40%N :: url ++ 41%N :: rest)).
        { apply delim_run_some. repeat split; auto.
          destruct text; [congruence|simpl; lia]. }
        rewrite E1.
        assert (E2 : paren_at (40%N :: url ++ 41%N :: rest) = Some (url, rest)).
        { apply paren_at_some. repeat split; auto. }
        now rewrite E2.
    + split; [discriminate|]. intros [H _]. inversion H. congruence.
Qed.

(** What [image_at] accepts. *)
Lemma image_at_some s alt url rest :
  image_at s = Some (alt, url, rest) <->
  s = image_text alt url ++ rest /\
  ~ In 93%N alt /\ url <> [] /\ ~ In 41%N url.
Proof.
  unfold image_at, image_text, link_text. destruct s as [|c0 [|c s]].
  - split; [discriminate|]. intros [H _]. discriminate.
  - split; [discriminate|]. intros [H _]. destruct alt; discriminate.
  - destruct (N.eqb_spec c0 33) as [E0|E0]; cbn [andb].
    + destruct (N.eqb_spec c 91) as [E|E].
      * subst c0 c. split.
        -- destruct (delim_run 93 0 s) as [[t s2]|] eqn:E1; [|discriminate].
           destruct (paren_at s2) as [[u r]|] eqn:E2; [|discriminate].
           intros H. inversion H; subst t u r.
           apply delim_run_some in E1. destruct E1 as [H1 [H2 H3]].
           apply paren_at_some in E2. destruct E2 as [H4 [H5 H6]].
           subst s s2. repeat split; auto.
           simpl. rewrite <- !app_assoc. simpl. now rewrite <- !app_assoc.
        -- intros [H1 [H2 [H3 H4]]].
           assert (Hs : s = alt ++ 93%N :: 40%N :: url ++ 41%N :: rest).
           { simpl in H1. inversion H1 as [H0].
             rewrite <- !app_assoc. simpl. now rewrite <- !app_assoc. }
           assert (E1 : delim_run 93 0 s = Some (alt, 40%N :: url ++ 41%N :: rest)).
           { apply delim_run_some. repeat split; auto. lia. }
           rewrite E1.
           assert (E2 : paren_at (40%N :: url ++ 41%N :: rest) = Some (url, rest)).
           { apply paren_at_some. repeat split; auto. }
           now rewrite E2.
      * split; [discriminate|]. intros [H _]. inversion H. congruence.
    + split; [discriminate|]. intros [H _]. inversion H. congruence.
Qed.

(** ** Searching a text *)

Section Searching.

Variable uni_decimal : char -> bool.
Variable uni_alnum : char -> bool.

Local Abbreviation rn := (run uni_decimal uni_alnum).
Local Abbreviation find_all := (finditer_from uni_decimal uni_alnum).

(** Every match found is a match of the pattern at the start of a
    suffix of the text. *)
Lemma finditer_from_sound r k s sfx m :
  In (sfx, m) (find_all r k s) ->
  rn r 0 sfx [] accept = Some m /\ exists pre, s = pre ++ sfx.
Proof.
  revert k. induction s as [|c s IH]; intros k; [contradiction|].
  destruct k as [|k]; cbn [finditer_from].
  - destruct (rn r 0 (c :: s) [] accept) as [m0|] eqn:E.
    + intros [H|H].
      * inversion H; subst. split; [assumption|now exists []].
      * apply IH in H. destruct H as [H [pre Hp]].
        split; [assumption|]. exists (c :: pre). now rewrite Hp.
    + intros H. apply IH in H. destruct H as [H [pre Hp]].
      split; [assumption|]. exists (c :: pre). now rewrite Hp.
  - intros H. apply IH in H. destruct H as [H [pre Hp]].
    split; [assumption|]. exists (c :: pre). now rewrite Hp.
Qed.

(** Where no match starts, the search goes on. *)
Lemma finditer_from_miss r c s :
  rn r 0 (c :: s) [] accept = None ->
  find_all r 0 (c :: s) = find_all r 0 s.
Proof. intros H. cbn [finditer_from]. now rewrite H. Qed.

(** The matches cover disjoint parts of the text, from left to right. *)
Lemma finditer_from_weave r :
  (forall sfx m, rn r 0 sfx [] accept = Some m ->
                 1 <= m_end m <= length sfx) ->
  forall s k, exists gaps tail,
    length gaps = length (find_all r k s) /\
    skipn k s = weave gaps (map matched (find_all r k s)) tail.
Proof.
  intros Hend. induction s as [|c s IH]; intros k.
  - exists [], []. split; [reflexivity|]. now destruct k.
  - destruct k as [|k]; cbn [finditer_from].
    + destruct (rn r 0 (c :: s) [] accept) as [m|] eqn:E.
      * destruct (IH (pred (m_end m))) as [gaps [tail [Hl Hw]]].
        exists ([] :: gaps), tail. split; [simpl; now rewrite Hl|].
        cbn [map weave app]. rewrite <- Hw. unfold matched. cbn [fst snd].
        pose proof (Hend _ _ E) as [H1 _].
        destruct (m_end m) as [|e]; [lia|]. cbn [pred skipn].
        symmetry. apply (firstn_skipn (S e) (c :: s)).
      * destruct (IH 0) as [gaps [tail [Hl Hw]]]. cbn [skipn] in *.
        destruct gaps as [|g gaps].
        -- exists [], (c :: s). split; [assumption|].
           destruct (find_all r 0 s); [reflexivity|discriminate].
        -- exists ((c :: g) :: gaps), tail. split; [assumption|].
           destruct (find_all r 0 s) as [|sm l]; [discriminate|].
           cbn [map weave] in *. now rewrite Hw.
    + destruct (IH k) as [gaps [tail [Hl Hw]]]. now exists gaps, tail.
Qed.

End Searching.

(** ** Links and images *)

Section LinkFacts.

Variable uni_decimal : char -> bool.
Variable uni_alnum : char -> bool.

Local Abbreviation rn := (run uni_decimal uni_alnum).
Local Abbreviation find_all := (finditer_from uni_decimal uni_alnum).
Local Abbreviation line_ref := (ref_of uni_decimal uni_alnum).
Local Abbreviation refs_of := (ref_links_from uni_decimal uni_alnum).
Local Abbreviation inline_of := (inline_links uni_decimal uni_alnum).

(** What the reference pattern does on a line without trailing
    whitespace. *)
Lemma re_match_ref s :
  no_nl s -> no_trailing_space s ->
  re_match uni_decimal uni_alnum ref_re s =
  match s with
  | c :: s1 =>
      if N.eqb c 91 then
        match delim_run 93 1 s1 with
        | Some (text, c2 :: s2) =>
            if (N.eqb c2 58 && Nat.leb 1 (span is_space s2))%bool
            then Some (mkMatch (length s)
                         [(2, skipn (span is_space s2) s2); (1, text)])
            else None
        | _ => None
        end
      else None
  | [] => None
  end.
Proof.
  intros Hnl Htr. unfold re_match, ref_re. destruct s as [|c s1]; [reflexivity|].
  change (rn (Bol >> Cls (CChar 91) >> Grp 1 (Rep (CNot 93) 1 None true)
                >> Cls (CChar 93) >> Cls (CChar 58) >> Rep CSpace 1 None true
                >> Grp 2 (Rep CDot 1 None true) >> Eol) 0 (c :: s1) [] accept)
    with (if N.eqb c 91
          then rn (Grp 1 (Rep (CNot 93) 1 None true) >> Cls (CChar 93)
                     >> Cls (CChar 58) >> Rep CSpace 1 None true
                     >> Grp 2 (Rep CDot 1 None true) >> Eol) 1 s1 [] accept
          else None).
  destruct (N.eqb c 91); [|reflexivity].
  rewrite run_delim.
  destruct (delim_run 93 1 s1) as [[text r]|] eqn:E; [|reflexivity].
  destruct r as [|c2 s2]; [reflexivity|].
  change (rn (Cls (CChar 58) >> Rep CSpace 1 None true
                >> Grp 2 (Rep CDot 1 None true) >> Eol)
             (1 + length text + 1) (c2 :: s2) [(1, text)] accept)
    with (if N.eqb c2 58
          then rn (Rep CSpace 1 None true >> Grp 2 (Rep CDot 1 None true) >> Eol)
                  (S (1 + length text + 1)) s2 [(1, text)] accept
          else None).
  destruct (N.eqb c2 58); cbn [andb]; [|reflexivity].
  apply delim_run_some in E. destruct E as [E _].
  assert (Hs2 : c :: s1 = (c :: text ++ [93%N; c2]) ++ s2).
  { rewrite E. simpl. rewrite <- app_assoc. reflexivity. }
  rewrite run_space_text_eol.
  - destruct (Nat.leb 1 (span is_space s2)); [|reflexivity].
    do 2 f_equal. rewrite Hs2, length_app. simpl. rewrite length_app. simpl. lia.
  - rewrite Hs2 in Hnl. now apply no_nl_app in Hnl.
  - intros a w Ha Hw. apply (Htr ((c :: text ++ [93%N; c2]) ++ a) w); auto.
    rewrite Hs2, Ha. now rewrite app_assoc.
Qed.

(** A line is a reference definition exactly when its stripped form
    has the form of one. *)
Lemma ref_of_form line text url :
  no_nl line ->
  line_ref line = Some (text, url) <-> ref_form (strip line) text url.
Proof.
  intros H. destruct (strip_line_facts H) as [Hnl Htr].
  unfold ref_of. rewrite re_match_ref by assumption.
  unfold ref_form. set (s := strip line) in *. clearbody s. split.
  - destruct s as [|c s1]; [discriminate|].
    destruct (N.eqb_spec c 91) as [Ec|Ec]; [|discriminate].
    destruct (delim_run 93 1 s1) as [[t r]|] eqn:E; [|discriminate].
    destruct r as [|c2 s2]; [discriminate|].
    destruct (N.eqb_spec c2 58) as [E2|E2]; cbn [andb]; [|discriminate].
    destruct (Nat.leb_spec 1 (span is_space s2)) as [Hw|Hw]; [|discriminate].
    unfold group_str, group. cbn [m_groups lookup Nat.eqb].
    intros Heq. inversion Heq; subst t url c c2. clear Heq.
    apply delim_run_some in E. destruct E as [E [Hn Hl]].
    assert (Htr2 : no_trailing_space s2).
    { intros a w Ha Hw'. apply (Htr ((91%N :: text ++ [93%N; 58%N]) ++ a) w); auto.
      rewrite E, Ha. simpl. rewrite <- !app_assoc. reflexivity. }
    exists (firstn (span is_space s2) s2), (skipn (span is_space s2) s2).
    split; [|split; [|split; [|split; [|split; [|split]]]]].
    + rewrite firstn_skipn, E. reflexivity.
    + intros E0. subst text. simpl in Hl. lia.
    + assumption.
    + intros E0. apply (f_equal (@length _)) in E0.
      rewrite length_firstn, Nat.min_l in E0 by apply span_le.
      simpl in E0. lia.
    + apply span_firstn.
    + now apply no_trailing_rest.
    + reflexivity.
  - intros [ws [rest [Es [Ht [Hn [Hws [Hsp [Hr Hu]]]]]]]].
    subst s.
    change (py "[" ++ text ++ py "]:" ++ ws ++ rest)
      with (91%N :: text ++ 93%N :: 58%N :: ws ++ rest).
    cbv beta iota. rewrite N.eqb_refl. cbv beta iota.
    assert (E : delim_run 93 1 (text ++ 93%N :: 58%N :: ws ++ rest)
                = Some (text, 58%N :: ws ++ rest)).
    { apply delim_run_some. repeat split; auto.
      destruct text; [congruence|simpl; lia]. }
    rewrite E. cbv beta iota. rewrite N.eqb_refl. cbn [andb].
    rewrite (span_app _ _ Hsp).
    destruct ws as [|w ws]; [congruence|]. cbn [length Nat.add Nat.leb].
    unfold group_str, group. cbn [m_groups lookup Nat.eqb].
    f_equal. f_equal. subst url.
    replace (S (length ws + span is_space rest))
      with (length (w :: ws) + span is_space rest) by reflexivity.
    rewrite skipn_app_length, strip_skip_span. reflexivity.
Qed.

Lemma ref_fold lines acc :
  fold_left (ref_links_step uni_decimal uni_alnum) lines acc
  = acc ++ refs_of lines.
Proof.
  revert acc. induction lines as [|l lines IH]; intros acc; cbn [fold_left].
  - now rewrite app_nil_r.
  - rewrite IH. unfold ref_links_step. cbn [ref_links_from]. unfold ref_of.
    destruct (re_match uni_decimal uni_alnum ref_re (strip l)); [|reflexivity].
    now rewrite <- app_assoc.
Qed.

(** The links: the inline ones first, the reference definitions
    after. *)
Lemma extract_links_text c :
  _extract_links uni_decimal uni_alnum (loaded c)
  = inline_of c ++ refs_of (split_lines c).
Proof.
  unfold _extract_links, loaded. simpl content. rewrite truthy_some.
  destruct c as [|x c]; [reflexivity|]. apply ref_fold.
Qed.

Lemma in_ref_links_from lines text url :
  Forall no_nl lines ->
  In (Link.Make text url) (refs_of lines) <->
  exists line, In line lines /\ ref_form (strip line) text url.
Proof.
  induction 1 as [|l lines Hl _ IH]; cbn [ref_links_from].
  - split; [contradiction|]. intros [line [H _]]. contradiction.
  - destruct (line_ref l) as [[t u]|] eqn:E.
    + split.
      * intros [H|H].
        -- inversion H; subst. exists l. split; [now left|].
           now apply ref_of_form.
        -- apply IH in H. destruct H as [line [H1 H2]].
           exists line. split; [now right|assumption].
      * intros [line [[H1|H1] H2]].
        -- subst line. apply ref_of_form in H2; [|assumption].
           rewrite E in H2. inversion H2. now left.
        -- right. apply IH. now exists line.
    + rewrite IH. split.
      * intros [line [H1 H2]]. exists line. split; [now right|assumption].
      * intros [line [[H1|H1] H2]].
        -- subst line. apply ref_of_form in H2; [|assumption]. congruence.
        -- now exists line.
Qed.

(** An inline link found is written in the text. *)
Lemma inline_links_sound c l :
  In l (inline_of c) ->
  (exists pre rest, c = pre ++ link_text (Link.text l) (Link.url l) ++ rest)
  /\ Link.text l <> [] /\ ~ In 93%N (Link.text l)
  /\ Link.url l <> [] /\ ~ In 41%N (Link.url l).
Proof.
  unfold inline_links, finditer. rewrite map_map. intros H.
  apply in_map_iff in H. destruct H as [[sfx m] [E H]]. cbn [snd] in E.
  apply finditer_from_sound in H. destruct H as [Hm [pre Hp]].
  rewrite run_link_re in Hm.
  destruct (link_at sfx) as [[[text url] rest]|] eqn:El; [|discriminate].
  inversion Hm; subst m. subst l.
  unfold inline_link_of, group_str, group. cbn [m_groups lookup Nat.eqb Link.text Link.url].
  apply link_at_some in El. destruct El as [Es Hwf].
  split; [|exact Hwf]. exists pre, rest. now rewrite <- Es.
Qed.

End LinkFacts.

(** ** Images and code blocks, where they are in the text *)

Lemma link_text_length text url :
  length (link_text text url) = length text + length url + 4.
Proof. unfold link_text. rewrite !length_app. simpl. lia. Qed.

Lemma image_text_length alt url :
  length (image_text alt url) = length alt + length url + 5.
Proof. unfold image_text. rewrite length_app, link_text_length. simpl. lia. Qed.

Lemma firstn_app_exact {A : Type} (a b : list A) n :
  n = length a -> firstn n (a ++ b) = a.
Proof.
  intros ->. rewrite firstn_app, firstn_all, Nat.sub_diag. simpl.
  apply app_nil_r.
Qed.

Lemma find_fence_some s n :
  find_fence s = Some n ->
  skipn n s = fence ++ skipn (n + 3) s
  /\ forall j, j < n -> startswith fence (skipn j s) = false.
Proof.
  revert n. induction s as [|c s IH]; intros n.
  - simpl. discriminate.
  - cbn [find_fence]. destruct (startswith fence (c :: s)) eqn:E.
    + intros H. inversion H; subst n. split; [|intros j Hj; lia].
      apply startswith_app in E. destruct E as [r E]. rewrite E.
      reflexivity.
    + destruct (find_fence s) as [k|] eqn:Ek; [|discriminate].
      intros H. inversion H; subst n. destruct (IH k eq_refl) as [H1 H2].
      split; [exact H1|].
      intros [|j] Hj; [exact E|]. apply H2. lia.
Qed.

Lemma find_fence_none s :
  find_fence s = None -> forall j, startswith fence (skipn j s) = false.
Proof.
  induction s as [|c s IH]; intros H j.
  - now destruct j.
  - cbn [find_fence] in H. destruct (startswith fence (c :: s)) eqn:E; [discriminate|].
    destruct (find_fence s) eqn:Ek; [discriminate|].
    destruct j as [|j]; [exact E|]. now apply IH.
Qed.

(** A fence in a text is a fence at some offset. *)
Lemma has_fence_at s :
  has_fence s <-> exists j, startswith fence (skipn j s) = true.
Proof.
  split.
  - intros [a [b E]]. exists (length a). subst s.
    rewrite <- (Nat.add_0_r (length a)), skipn_app_length. cbn [skipn].
    apply startswith_app. now exists b.
  - intros [j H]. apply startswith_app in H. destruct H as [r H].
    exists (firstn j s), r. rewrite <- H. symmetry. apply firstn_skipn.
Qed.

Lemma firstn_no_fence s n : find_fence s = Some n -> ~ has_fence (firstn n s).
Proof.
  intros H [a [b E]]. apply find_fence_some in H. destruct H as [_ H].
  assert (Hlen : length a + 3 <= n).
  { pose proof (firstn_le_length n s) as Hle.
    rewrite E, !length_app in Hle. unfold fence in Hle. simpl in Hle. lia. }
  assert (Hst : startswith fence (skipn (length a) s) = true).
  { rewrite <- (firstn_skipn n s), E, <- !app_assoc.
    rewrite <- (Nat.add_0_r (length a)), skipn_app_length.
    cbn [skipn]. apply startswith_app. now eexists. }
  rewrite H in Hst by lia. discriminate.
Qed.

Lemma has_fence_strip s : has_fence (strip s) -> has_fence s.
Proof.
  intros [a [b E]]. destruct (strip_split s) as [w1 [w2 [_ [_ Es]]]].
  exists (w1 ++ a), (b ++ w2). rewrite Es, E, <- !app_assoc. reflexivity.
Qed.

Section Where.

Variable uni_decimal : char -> bool.
Variable uni_alnum : char -> bool.

Local Abbreviation rn := (run uni_decimal uni_alnum).
Local Abbreviation find_all := (finditer_from uni_decimal uni_alnum).
Local Abbreviation word := (is_word uni_alnum).

Lemma extract_images_text c :
  _extract_images uni_decimal uni_alnum (loaded c)
  = map (fun sm => image_of (snd sm)) (find_all image_re 0 c).
Proof.
  unfold _extract_images, loaded, finditer. simpl content.
  rewrite truthy_some. destruct c as [|x c]; [reflexivity|].
  now rewrite map_map.
Qed.

(** A match of the image pattern, read off the text. *)
Lemma image_match sfx m :
  rn image_re 0 sfx [] accept = Some m ->
  exists rest,
    sfx = image_written (image_of m) ++ rest
    /\ m_end m = length (image_written (image_of m))
    /\ ~ In 93%N (Image.alt_text (image_of m))
    /\ Image.url (image_of m) <> []
    /\ ~ In 41%N (Image.url (image_of m)).
Proof.
  rewrite run_image_re.
  destruct (image_at sfx) as [[[alt url] rest]|] eqn:E; [|discriminate].
  intros H. inversion H; subst m. clear H.
  apply image_at_some in E. destruct E as [Es Hwf].
  exists rest. unfold image_written, image_of, group_str, group.
  cbn [m_groups lookup Nat.eqb Image.alt_text Image.url m_end].
  split; [exact Es|]. split; [now rewrite image_text_length|exact Hwf].
Qed.

(** The images are written in the text one after the other. *)
Lemma images_weave c :
  exists gaps tail,
    length gaps = length (_extract_images uni_decimal uni_alnum (loaded c))
    /\ c = weave gaps
             (map image_written
                  (_extract_images uni_decimal uni_alnum (loaded c))) tail.
Proof.
  rewrite extract_images_text.
  destruct (@finditer_from_weave uni_decimal uni_alnum image_re) with (s := c) (k := 0)
    as [gaps [tail [Hl Hw]]].
  { intros sfx m Hm. apply image_match in Hm.
    destruct Hm as [rest [Es [He _]]]. rewrite He.
    apply (f_equal (@length _)) in Es. rewrite length_app in Es.
    unfold image_written in *. rewrite image_text_length in *. lia. }
  exists gaps, tail. rewrite length_map. split; [exact Hl|].
  cbn [skipn] in Hw. rewrite Hw at 1. f_equal.
  rewrite map_map. apply map_ext_in. intros [sfx m] Hin.
  apply finditer_from_sound in Hin. destruct Hin as [Hm _].
  apply image_match in Hm. destruct Hm as [rest [Es [He _]]].
  unfold matched. cbn [fst snd]. rewrite He.
  rewrite Es at 1. now apply firstn_app_exact.
Qed.

(** The rest of the code pattern, on any text. *)
Lemma run_code_tail_any i s g :
  rn code_tail i s g accept =
  match s with
  | x :: rest =>
      if N.eqb x nl then
        match find_fence rest with
        | Some n => Some (mkMatch (i + n + 4) ((2, firstn n rest) :: g))
        | None => None
        end
      else None
  | [] => None
  end.
Proof.
  destruct s as [|x rest]; [reflexivity|].
  destruct (N.eqb_spec x nl) as [E|E].
  - subst x. apply run_code_tail.
  - apply run_code_tail_reject. now apply N.eqb_neq.
Qed.

(** The code pattern after an opening fence: a run of word characters
    [tag], then [r], which does not go on with a word character. *)
Lemma run_code_re_split tag r :
  Forall (fun c => word c = true) tag ->
  (forall x rest, r = x :: rest -> word x = false) ->
  rn code_re 0 (fence ++ tag ++ r) [] accept =
  match r with
  | x :: rest =>
      if N.eqb x nl then
        match find_fence rest with
        | Some n =>
            Some (mkMatch (length tag + n + 7)
                    ((2, firstn n rest)
                       :: match tag with [] => [] | _ :: _ => [(1, tag)] end))
        | None => None
        end
      else None
  | [] => None
  end.
Proof.
  intros Htag Hr.
  assert (Hother :
    (forall x rest, r = x :: rest -> N.eqb x nl = false) ->
    rn code_re 0 (fence ++ tag ++ r) [] accept = None).
  { intros Hnl.
    assert (Htail : forall i g, rn code_tail i r g accept = None).
    { intros i g. rewrite run_code_tail_any. destruct r as [|x rest]; [reflexivity|].
      now rewrite (Hnl x rest eq_refl). }
    change (rn code_re 0 (fence ++ tag ++ r) [] accept)
      with (match rep_greedy uni_decimal uni_alnum CWord 1 None 3 (tag ++ r) []
                    (fun j s' g' =>
                       rn code_tail j s' ((1, firstn (j - 3) (tag ++ r)) :: g') accept)
            with
            | Some m => Some m
            | None => rn code_tail 3 (tag ++ r) [] accept
            end).
    rewrite rep_greedy_reject.
    2:{ intros j c s' g' Hc. apply run_code_tail_reject.
        eapply word_not_nl; exact Hc. }
    cbv zeta.
    assert (Hspan : span (cmatch uni_decimal uni_alnum CWord) (tag ++ r) = length tag).
    { rewrite span_app by exact Htag.
      destruct r as [|x rest]; cbn [span]; [lia|].
      change (cmatch uni_decimal uni_alnum CWord x) with (word x).
      rewrite (Hr x rest eq_refl). lia. }
    rewrite Hspan.
    rewrite skipn_app, skipn_all, Nat.sub_diag. cbn [skipn app].
    rewrite Htail.
    assert (Hfb : rn code_tail 3 (tag ++ r) [] accept = None).
    { destruct tag as [|c tag']; [apply Htail|].
      inversion Htag; subst. cbn [app]. apply run_code_tail_reject.
      now apply (@word_not_nl uni_alnum). }
    rewrite Hfb. now destruct (Nat.leb 1 (length tag) && hi_ok None (length tag))%bool. }
  destruct r as [|x rest].
  - apply Hother. intros x rest H. discriminate.
  - destruct (N.eqb_spec x nl) as [Ex|Ex].
    + subst x. now apply run_code_re.
    + apply Hother. intros y rest' H. inversion H; subst.
      now apply N.eqb_neq.
Qed.

(** The code pattern after an opening fence, on any text. *)
Lemma run_code_re_any s1 :
  rn code_re 0 (fence ++ s1) [] accept =
  match skipn (span word s1) s1 with
  | x :: rest =>
      if N.eqb x nl then
        match find_fence rest with
        | Some n =>
            Some (mkMatch (span word s1 + n + 7)
                    ((2, firstn n rest)
                       :: match firstn (span word s1) s1 with
                          | [] => []
                          | _ :: _ => [(1, firstn (span word s1) s1)]
                          end))
        | None => None
        end
      else None
  | [] => None
  end.
Proof.
  pose proof (@run_code_re_split (firstn (span word s1) s1)
                (skipn (span word s1) s1)) as H.
  rewrite firstn_skipn in H. rewrite H.
  - rewrite length_firstn, Nat.min_l by apply span_le. reflexivity.
  - apply span_firstn.
  - intros x rest E. eapply span_skipn. exact E.
Qed.

Lemma startswith_fence_cases s :
  startswith fence s = false ->
  rn code_re 0 s [] accept = None.
Proof.
  unfold fence. change (py "```") with [96; 96; 96]%N.
  destruct s as [|a [|b [|c s]]]; cbn [startswith]; intros H.
  - reflexivity.
  - unfold code_re. cbn [run cmatch]. unfold backtick.
    rewrite (N.eqb_sym 96 a) in H. destruct (N.eqb a 96); reflexivity.
  - unfold code_re. cbn [run cmatch]. unfold backtick.
    rewrite (N.eqb_sym 96 a), (N.eqb_sym 96 b) in H.
    destruct (N.eqb a 96), (N.eqb b 96); reflexivity.
  - unfold code_re. cbn [run cmatch]. unfold backtick.
    rewrite (N.eqb_sym 96 a), (N.eqb_sym 96 b), (N.eqb_sym 96 c) in H.
    destruct (N.eqb a 96), (N.eqb b 96), (N.eqb c 96);
      try reflexivity; discriminate.
Qed.

(** A match of the code pattern, read off the text. *)
Lemma code_match sfx m :
  rn code_re 0 sfx [] accept = Some m ->
  exists tag body rest,
    sfx = block_text tag body ++ rest
    /\ m_end m = length (block_text tag body)
    /\ code_block_of m = block_of (tag, body)
    /\ Forall (fun c => word c = true) tag
    /\ ~ has_fence body.
Proof.
  intros Hm.
  destruct (startswith fence sfx) eqn:Ef.
  2:{ rewrite startswith_fence_cases in Hm by assumption. discriminate. }
  apply startswith_app in Ef. destruct Ef as [s1 Es]. subst sfx.
  rewrite run_code_re_any in Hm.
  set (n := span word s1) in *. set (tag := firstn n s1) in *.
  destruct (skipn n s1) as [|x r] eqn:Er; [discriminate|].
  destruct (N.eqb_spec x nl) as [Ex|Ex]; [|discriminate]. subst x.
  destruct (find_fence r) as [k|] eqn:Ek; [|discriminate].
  inversion Hm; subst m. clear Hm.
  pose proof (find_fence_some _ Ek) as [Hk _].
  assert (Hlen : length tag = n).
  { unfold tag. rewrite length_firstn. apply Nat.min_l, span_le. }
  exists tag, (firstn k r), (skipn (k + 3) r).
  split; [|split; [|split; [|split]]].
  - unfold block_text. rewrite <- !app_assoc. f_equal.
    rewrite <- (firstn_skipn n s1) at 1. fold tag. rewrite Er. f_equal.
    cbn [app]. f_equal. rewrite <- (firstn_skipn k r) at 1. now rewrite Hk.
  - cbn [m_end]. unfold block_text. rewrite !length_app, Hlen.
    rewrite length_firstn.
    assert (k + 3 <= length r).
    { apply (f_equal (@length _)) in Hk. rewrite length_skipn, length_app in Hk.
      unfold fence in Hk. simpl in Hk. lia. }
    rewrite Nat.min_l by lia. unfold fence. simpl. lia.
  - unfold code_block_of, block_of, group_str, group.
    cbn [m_groups lookup Nat.eqb fst snd].
    destruct tag; reflexivity.
  - apply span_firstn.
  - now apply firstn_no_fence.
Qed.

(** The code blocks are written in the text one after the other. *)
Lemma code_blocks_weave c :
  exists raw gaps tail,
    _extract_code_blocks uni_decimal uni_alnum (loaded c) = map block_of raw
    /\ length gaps = length raw
    /\ c = weave gaps (map block_written raw) tail
    /\ Forall (fun tb => Forall (fun x => word x = true) (fst tb)
                         /\ ~ has_fence (snd tb)) raw.
Proof.
  rewrite extract_code_blocks_text.
  assert (Hraw : forall l,
    (forall sm, In sm l -> rn code_re 0 (fst sm) [] accept = Some (snd sm)) ->
    exists raw,
      map (fun sm => code_block_of (snd sm)) l = map block_of raw
      /\ map matched l = map block_written raw
      /\ Forall (fun tb => Forall (fun x => word x = true) (fst tb)
                           /\ ~ has_fence (snd tb)) raw).
  { induction l as [|[sfx m] l IH]; intros Hl.
    - exists []. repeat split; constructor.
    - destruct IH as [raw [H1 [H2 H3]]].
      { intros sm Hin. apply Hl. now right. }
      pose proof (Hl (sfx, m) (or_introl eq_refl)) as Hm. cbn [fst snd] in Hm.
      apply code_match in Hm.
      destruct Hm as [tag [body [rest [Es [He [Hb [Ht Hf]]]]]]].
      exists ((tag, body) :: raw). cbn [map snd]. split; [|split].
      + now rewrite Hb, H1.
      + rewrite H2. f_equal. unfold matched, block_written. cbn [fst snd].
        rewrite He. rewrite Es at 1. now apply firstn_app_exact.
      + constructor; [split; assumption|assumption]. }
  destruct (Hraw (find_all code_re 0 c)) as [raw [H1 [H2 H3]]].
  { intros [sfx m] Hin. apply finditer_from_sound in Hin. apply Hin. }
  destruct (@finditer_from_weave uni_decimal uni_alnum code_re) with (s := c) (k := 0)
    as [gaps [tail [Hl Hw]]].
  { intros sfx m Hm. apply code_match in Hm.
    destruct Hm as [tag [body [rest [Es [He _]]]]]. rewrite He.
    apply (f_equal (@length _)) in Es. rewrite length_app in Es.
    unfold block_text, fence in *. rewrite !length_app in *. simpl in *. lia. }
  exists raw, gaps, tail. split; [exact H1|]. split.
  - rewrite Hl. rewrite <- (length_map matched), H2. apply length_map.
  - split; [|exact H3]. cbn [skipn] in Hw. now rewrite <- H2.
Qed.

End Where.

(** ** Paragraphs, sections and headings together *)

Lemma lstrip_app_fixed a b : lstrip a = a -> a <> [] -> lstrip (a ++ b) = a ++ b.
Proof.
  destruct a as [|c a]; [congruence|]. intros H _.
  pose proof (lstrip_head _ H) as Hc. simpl. now rewrite Hc.
Qed.

Lemma startswith_hash_app x z :
  x <> [] -> startswith (py "#") (x ++ z) = startswith (py "#") x.
Proof. destruct x as [|c x]; [congruence|reflexivity]. Qed.

Lemma piece_ok_join x l :
  piece_ok x -> Forall piece_ok l -> piece_ok (join_spaces (x :: l)).
Proof.
  intros Hx Hl. revert x Hx. induction Hl as [|y l Hy _ IH]; intros x Hx.
  - exact Hx.
  - specialize (IH y Hy).
    destruct Hx as [Hx1 [[Hx2 Hx3] [Hx4 Hx5]]].
    destruct IH as [J1 [[J2 J3] [J4 J5]]].
    change (join_spaces (x :: y :: l))
      with (x ++ py " " ++ join_spaces (y :: l)).
    split; [|split; [|split]].
    + destruct x; [congruence|discriminate].
    + split.
      * now apply lstrip_app_fixed.
      * rewrite app_assoc. now apply rstrip_app_fixed.
    + apply no_nl_app. split; [assumption|].
      apply no_nl_app. split; [|assumption].
      repeat constructor. discriminate.
    + now rewrite startswith_hash_app.
Qed.

Lemma hd_error_map_filter {A B : Type} (f : A -> B) (p : A -> bool) l :
  hd_error (map f (filter p l)) = option_map f (find p l).
Proof.
  induction l as [|a l IH]; [reflexivity|]. simpl.
  destruct (p a); [reflexivity|exact IH].
Qed.

Lemma count_levels (hs : list Heading.t) :
  Forall (fun h => 1 <= Heading.level h <= 6) hs ->
  length hs =
  list_sum (map (fun l => length (filter (fun h => Nat.eqb (Heading.level h) l) hs))
                [1; 2; 3; 4; 5; 6]).
Proof.
  induction 1 as [|h hs Hh _ IH]; [reflexivity|].
  cbn [map list_sum filter length] in *.
  unfold list_sum in *. cbn [fold_right] in *.
  destruct (Heading.level h) as [|[|[|[|[|[|[|n]]]]]]]; cbn [Nat.eqb length];
    lia.
Qed.

Section Together.

Variable uni_decimal : char -> bool.
Variable uni_alnum : char -> bool.

Local Abbreviation rn := (run uni_decimal uni_alnum).
Local Abbreviation find_all := (finditer_from uni_decimal uni_alnum).
Local Abbreviation line_heading := (heading_of uni_decimal uni_alnum).
Local Abbreviation line_title := (title_of uni_decimal uni_alnum).
Local Abbreviation is_skip := (skip_line uni_decimal uni_alnum).
Local Abbreviation is_plain := (plain_line uni_decimal uni_alnum).
Local Abbreviation pstep := (para_step uni_decimal uni_alnum).
Local Abbreviation sstep := (sect_step uni_decimal uni_alnum).
Local Abbreviation headings_of := (headings_from uni_decimal uni_alnum).
Local Abbreviation parse_ := (parse uni_decimal uni_alnum).
Local Abbreviation reachable_ := (reachable uni_decimal uni_alnum).

(** *** Paragraphs *)

Lemma plain_not_hash l :
  is_plain l = true -> startswith (py "#") (strip l) = false.
Proof.
  unfold plain_line, skip_line, blank. cbv zeta.
  generalize (startswith (py "#") (strip l))
             (startswith (py "```") (strip l))
             (is_some (re_match uni_decimal uni_alnum bullet_re (strip l)))
             (is_some (re_match uni_decimal uni_alnum number_re (strip l))).
  intros b1 b2 b3 b4.
  destruct (str_empty (strip l)), b1, b2, b3, b4; try reflexivity; discriminate.
Qed.

Lemma plain_piece_ok l : no_nl l -> is_plain l = true -> piece_ok (strip l).
Proof.
  intros Hnl Hp. split; [|split; [|split]].
  - eapply strip_not_blank, plain_not_blank; exact Hp.
  - apply strip_trimmed.
  - now apply no_nl_strip.
  - now apply plain_not_hash.
Qed.

Lemma flush_ok cur : Forall piece_ok cur -> Forall piece_ok (flush cur).
Proof.
  intros H. destruct cur as [|x l]; [constructor|].
  inversion H; subst. constructor; [|constructor].
  now apply piece_ok_join.
Qed.

Lemma para_fold_ok lines ps cur :
  Forall no_nl lines -> Forall piece_ok ps -> Forall piece_ok cur ->
  Forall piece_ok (fst (fold_left pstep lines (ps, cur)))
  /\ Forall piece_ok (snd (fold_left pstep lines (ps, cur))).
Proof.
  intros Hl. revert ps cur.
  induction Hl as [|l lines Hnl _ IH]; intros ps cur Hps Hcur; cbn [fold_left].
  - now split.
  - destruct (line_cases uni_decimal uni_alnum l) as [Hb|[[_ Hs]|Hp]].
    + rewrite para_step_blank by exact Hb. apply IH; [|constructor].
      apply Forall_app. split; [assumption|now apply flush_ok].
    + rewrite para_step_skip by exact Hs. now apply IH.
    + rewrite para_step_plain by exact Hp. apply IH; [assumption|].
      apply Forall_app. split; [assumption|].
      constructor; [now apply plain_piece_ok|constructor].
Qed.

(** Every paragraph is made of trimmed pieces. *)
Lemma paragraphs_of_ok lines :
  Forall no_nl lines ->
  Forall piece_ok (paragraphs_of uni_decimal uni_alnum lines).
Proof.
  intros Hl. unfold paragraphs_of.
  destruct (@para_fold_ok lines [] [] Hl) as [H1 H2]; try constructor.
  destruct (fold_left pstep lines ([], [])) as [ps cur]. cbn [fst snd] in *.
  rewrite para_finish_flush. apply Forall_forall. intros p Hp.
  apply filter_In in Hp. destruct Hp as [Hp _].
  apply in_app_or in Hp. destruct Hp as [Hp|Hp].
  - rewrite Forall_forall in H1. now apply H1.
  - pose proof (flush_ok H2) as Hf. rewrite Forall_forall in Hf. now apply Hf.
Qed.

(** *** Sections and headings *)

Lemma sect_fold_keys lines i ss cur cc :
  map sect_key (sect_finish (fold_left sstep lines (ss, cur, cc)))
  = map sect_key ss
    ++ match cur with Some cs => [sect_key cs] | None => [] end
    ++ map heading_key (headings_of i lines).
Proof.
  revert i ss cur cc.
  induction lines as [|l lines IH]; intros i ss cur cc; cbn [fold_left].
  - cbn [headings_from map]. rewrite app_nil_r.
    destruct cur; cbn [sect_finish close_section]; [|now rewrite app_nil_r].
    now rewrite map_app.
  - cbn [headings_from]. unfold sect_step at 2.
    destruct (line_heading l) as [[lv t]|].
    + rewrite (IH (S i)). cbn [map heading_key Heading.level Heading.text].
      destruct cur; cbn [close_section].
      * rewrite map_app, <- !app_assoc. reflexivity.
      * reflexivity.
    + destruct cur; apply (IH (S i)).
Qed.

(** The sections and the headings run in step. *)
Lemma sections_headings c :
  map sect_key (get_sections uni_decimal uni_alnum (loaded c))
  = map heading_key (_extract_headings uni_decimal uni_alnum (loaded c)).
Proof.
  rewrite get_sections_lines, extract_headings_lines.
  unfold sections_of. now rewrite (sect_fold_keys _ 0).
Qed.

(** *** Headings of a level *)

Lemma by_level_parse self level :
  fst (get_headings_by_level uni_decimal uni_alnum self level) =
  match fst (parse_ self) with
  | Ok d =>
      Ok (map Heading.text
            (filter (fun h => Nat.eqb (Heading.level h) level)
                    (Parsed.headings d)))
  | Raise e => Raise e
  end.
Proof.
  unfold get_headings_by_level.
  destruct (parse_ self) as [[d|e] self']; reflexivity.
Qed.

Lemma by_level_state self level :
  snd (get_headings_by_level uni_decimal uni_alnum self level)
  = snd (parse_ self).
Proof.
  unfold get_headings_by_level.
  destruct (parse_ self) as [[d|e] self']; reflexivity.
Qed.

(** *** What a reachable reader answers *)

Lemma reachable_parse_fields self d :
  reachable_ self -> fst (parse_ self) = Ok d ->
  exists c,
    content self = Some c /\ c <> [] /\
    Parsed.title d = _extract_title uni_decimal uni_alnum (loaded c) /\
    Parsed.headings d = _extract_headings uni_decimal uni_alnum (loaded c) /\
    Parsed.raw d = c.
Proof.
  intros Hr Hd.
  assert (Hc : exists c, content self = Some c).
  { revert Hd. unfold parse.
    destruct (truthy (content self)) as [c|] eqn:E; [|discriminate].
    intros _. exists c. now apply truthy_content. }
  destruct Hc as [c Hc]. exists c. split; [assumption|].
  rewrite (reachable_parse Hr Hc) in Hd.
  apply parse_text_fields in Hd. destruct Hd as [Hne Hd]. subst d.
  repeat split. assumption.
Qed.

Lemma headings_levels c :
  Forall (fun h => 1 <= Heading.level h <= 6)
         (_extract_headings uni_decimal uni_alnum (loaded c)).
Proof.
  rewrite extract_headings_lines. apply Forall_forall. intros h Hh.
  apply in_headings_from in Hh. destruct Hh as [k [line [H1 [_ H3]]]].
  assert (Hnl : no_nl line).
  { apply nth_error_In in H1. pose proof (split_lines_no_nl c) as Hall.
    rewrite Forall_forall in Hall. now apply Hall. }
  apply heading_of_form in H3; [|assumption].
  now apply heading_form_text in H3.
Qed.

(** *** The title, line by line *)

Lemma title_of_level1 line t :
  no_nl line ->
  line_title line = Some t <-> line_heading line = Some (1, t).
Proof.
  intros H. rewrite title_of_heading_of by assumption.
  destruct (line_heading line) as [[lv t']|]; [|split; discriminate].
  destruct lv as [|[|lv]]; split; intros E; inversion E; subst; auto.
Qed.

Lemma title_loop_some lines t :
  title_loop uni_decimal uni_alnum lines = Some t <->
  exists pre line post,
    lines = pre ++ line :: post /\ line_title line = Some t /\
    Forall (fun l => line_title l = None) pre.
Proof.
  induction lines as [|l lines IH].
  - split; [discriminate|]. intros [pre [line [post [H _]]]].
    destruct pre; discriminate.
  - rewrite title_loop_cons. destruct (line_title l) as [t0|] eqn:E.
    + split.
      * intros H. inversion H; subst t0. exists [], l, lines.
        split; [reflexivity|]. split; [assumption|constructor].
      * intros [pre [line [post [H1 [H2 H3]]]]].
        destruct pre as [|p pre].
        -- inversion H1; subst. congruence.
        -- inversion H1; subst. inversion H3; subst. congruence.
    + rewrite IH. split.
      * intros [pre [line [post [H1 [H2 H3]]]]].
        exists (l :: pre), line, post. subst lines.
        split; [reflexivity|]. split; [assumption|]. now constructor.
      * intros [pre [line [post [H1 [H2 H3]]]]].
        destruct pre as [|p pre].
        -- inversion H1; subst. congruence.
        -- inversion H1; subst. inversion H3; subst.
           now exists pre, line, post.
Qed.

(** *** Lines seen by two passes *)

Lemma heading_is_skipped line lv t :
  no_nl line -> line_heading line = Some (lv, t) -> is_skip line = true.
Proof.
  intros Hnl H. apply heading_of_form in H; [|assumption].
  apply skip_line_form. left.
  destruct H as [ws [rest [E [[Hl _] _]]]]. rewrite E.
  destruct lv as [|lv]; [lia|]. cbn [repeat app]. now eexists.
Qed.

Lemma ref_is_plain line text url :
  ref_form (strip line) text url -> is_plain line = true.
Proof.
  intros [ws [rest [E _]]].
  assert (Hs : exists r, strip line = 91%N :: r) by (rewrite E; now eexists).
  destruct Hs as [r Hs].
  assert (Hnb : blank line = false) by (unfold blank; now rewrite Hs).
  unfold plain_line. rewrite Hnb. cbn [negb andb].
  destruct (is_skip line) eqn:Hk; [|reflexivity]. exfalso.
  apply skip_line_form in Hk. rewrite Hs in Hk.
  destruct Hk as [[x H]|[[x H]|[[m [c [x [H [Hm _]]]]]|[ds [c [x [H [Hne [Hd _]]]]]]]]].
  - discriminate.
  - discriminate.
  - inversion H; subst m. simpl in Hm.
    destruct Hm as [Hm|[Hm|[Hm|Hm]]]; try discriminate; contradiction.
  - destruct ds as [|d ds]; [congruence|]. inversion H; subst d.
    inversion Hd; subst. discriminate.
Qed.

(** *** Where a search starts *)

Lemma finditer_link_pre pre s :
  ~ In 91%N pre -> find_all link_re 0 (pre ++ s) = find_all link_re 0 s.
Proof.
  induction pre as [|c pre IH]; intros H; [reflexivity|].
  cbn [app]. rewrite finditer_from_miss.
  - apply IH. intros Hin. apply H. now right.
  - rewrite run_link_re. unfold link_at.
    destruct (N.eqb_spec c 91) as [E|E]; [|reflexivity].
    exfalso. apply H. left. now symmetry.
Qed.

Lemma finditer_image_pre pre t :
  ~ In 91%N pre ->
  find_all image_re 0 (pre ++ 33%N :: t) = find_all image_re 0 (33%N :: t).
Proof.
  induction pre as [|c pre IH]; intros H; [reflexivity|].
  cbn [app]. rewrite finditer_from_miss.
  - apply IH. intros Hin. apply H. now right.
  - rewrite run_image_re. unfold image_at.
    destruct (pre ++ 33%N :: t) as [|x r] eqn:E; [reflexivity|].
    destruct (N.eqb_spec x 91) as [Ex|Ex]; [|now rewrite andb_false_r].
    exfalso. subst x. destruct pre as [|p pre'].
    + discriminate.
    + inversion E; subst. apply H. right. now left.
Qed.

End Together.

(** ** More on links, headings, paragraphs and the reader *)

Lemma ref_form_url line text url :
  ref_form (strip line) text url ->
  text <> [] /\ ~ In 93%N text /\ url <> [] /\ trimmed url.
Proof.
  intros [ws [rest [Es [Ht [Hn [_ [_ [Hr Hu]]]]]]]]. subst url.
  split; [assumption|]. split; [assumption|]. split; [|apply strip_trimmed].
  intros E. apply strip_nil_all_space in E. apply Hr.
  pose proof (trimmed_no_trailing_space (strip_trimmed line)) as Htr.
  apply (Htr (py "[" ++ text ++ py "]:" ++ ws) rest); [|assumption].
  rewrite Es, <- !app_assoc. reflexivity.
Qed.

Section MoreFacts.

Variable uni_decimal : char -> bool.
Variable uni_alnum : char -> bool.

Local Abbreviation line_heading := (heading_of uni_decimal uni_alnum).
Local Abbreviation is_skip := (skip_line uni_decimal uni_alnum).
Local Abbreviation pstep := (para_step uni_decimal uni_alnum).
Local Abbreviation parse_ := (parse uni_decimal uni_alnum).

(** The headings recorded are well formed. *)
Lemma headings_well_formed c h :
  In h (_extract_headings uni_decimal uni_alnum (loaded c)) ->
  1 <= Heading.level h <= 6 /\ trimmed (Heading.text h)
  /\ Heading.text h <> []
  /\ 1 <= Heading.line_number h <= length (split_lines c).
Proof.
  rewrite extract_headings_lines. intros Hh.
  apply in_headings_from in Hh. destruct Hh as [k [line [H1 [H2 H3]]]].
  assert (Hk : k < length (split_lines c)).
  { apply nth_error_Some. congruence. }
  assert (Hnl : no_nl line).
  { apply nth_error_In in H1. pose proof (split_lines_no_nl c) as Hall.
    rewrite Forall_forall in Hall. now apply Hall. }
  apply heading_of_form in H3; [|assumption].
  apply heading_form_text in H3. destruct H3 as [Ha [Hb Hc]].
  split; [exact Ha|]. split; [exact Hb|]. split; [exact Hc|]. lia.
Qed.

(** A skipped line can be taken out of a document. *)
Lemma paragraphs_drop_skip pre k post :
  Forall no_nl (pre ++ k :: post) -> is_skip k = true ->
  _extract_paragraphs uni_decimal uni_alnum (loaded (join_lines (pre ++ k :: post)))
  = _extract_paragraphs uni_decimal uni_alnum (loaded (join_lines (pre ++ post))).
Proof.
  intros Hnl Hk.
  assert (Hnl' : Forall no_nl (pre ++ post)).
  { apply Forall_app in Hnl. destruct Hnl as [H1 H2].
    apply Forall_app. split; [assumption|now inversion H2]. }
  rewrite !paragraphs_of_doc by assumption.
  unfold paragraphs_of. rewrite !fold_left_app. cbn [fold_left].
  now rewrite para_step_skip by exact Hk.
Qed.

(** The paragraphs flushed so far are at most the blank lines seen. *)
Lemma para_fold_count lines ps cur :
  length (fst (fold_left pstep lines (ps, cur)))
  <= length ps + length (filter blank lines).
Proof.
  revert ps cur. induction lines as [|l lines IH]; intros ps cur;
    cbn [fold_left filter].
  - simpl. lia.
  - destruct (line_cases uni_decimal uni_alnum l) as [Hb|[[Hb Hs]|Hp]].
    + rewrite para_step_blank by exact Hb. rewrite Hb. cbn [length].
      etransitivity; [apply IH|]. rewrite length_app.
      destruct cur; simpl; lia.
    + rewrite para_step_skip by exact Hs. rewrite Hb. apply IH.
    + rewrite para_step_plain by exact Hp.
      rewrite (plain_not_blank _ _ _ Hp). apply IH.
Qed.

Lemma paragraphs_of_count lines :
  length (paragraphs_of uni_decimal uni_alnum lines)
  <= S (length (filter blank lines)).
Proof.
  unfold paragraphs_of.
  pose proof (para_fold_count lines [] []) as H.
  destruct (fold_left pstep lines ([], [])) as [ps cur]. cbn [fst length] in H.
  rewrite para_finish_flush.
  etransitivity; [apply filter_length_le|]. rewrite length_app.
  destruct cur; simpl; lia.
Qed.

(** What [parse] answers does not depend on the path. *)
Lemma parse_path self path :
  fst (parse_ {| file_path := path; content := content self;
                 parsed_content := parsed_content self |})
  = fst (parse_ self).
Proof.
  unfold parse, _extract_title, _extract_headings, _extract_paragraphs,
    _extract_code_blocks, _extract_links, _extract_images.
  cbn [content parsed_content].
  destruct (truthy (content self)); [|reflexivity].
  destruct (parsed_content self); reflexivity.
Qed.

Lemma parse_keeps self :
  content (snd (parse_ self)) = content self
  /\ file_path (snd (parse_ self)) = file_path self.
Proof.
  unfold parse. destruct (truthy (content self)); [|now split].
  destruct (parsed_content self); now split.
Qed.

End MoreFacts.

(** ** A heading line inside a document *)

Section Recognised.

Variable uni_decimal : char -> bool.
Variable uni_alnum : char -> bool.

Local Abbreviation parse_ := (parse uni_decimal uni_alnum).
Local Abbreviation reachable_ := (reachable uni_decimal uni_alnum).
Local Abbreviation parse_text_ := (parse_text uni_decimal uni_alnum).
Local Abbreviation document_ := (document uni_decimal uni_alnum).
Local Abbreviation line_heading := (heading_of uni_decimal uni_alnum).
Local Abbreviation line_title := (title_of uni_decimal uni_alnum).
Local Abbreviation headings_of := (headings_from uni_decimal uni_alnum).
Local Abbreviation title_lines := (title_loop uni_decimal uni_alnum).
Local Abbreviation sects := (sections_of uni_decimal uni_alnum).
Local Abbreviation no_heading := (not_heading uni_decimal uni_alnum).

Lemma parse_text_document c : c <> [] -> parse_text_ c = Ok (document_ c).
Proof.
  intros Hc. destruct c as [|x c]; [congruence|]. reflexivity.
Qed.

Lemma parse_fills_cache self d :
  fst (parse_ self) = Ok d -> parsed_content (snd (parse_ self)) = Some d.
Proof.
  unfold parse.
  destruct (truthy (content self)) as [c|]; [|discriminate].
  destruct (parsed_content self) as [d'|] eqn:E; cbn [fst snd].
  - now intros H; inversion H; subst.
  - now intros H; inversion H; subst.
Qed.

Lemma parse_returns self c :
  reachable_ self -> content self = Some c -> c <> [] ->
  fst (parse_ self) = Ok (document_ c)
  /\ parsed_content (snd (parse_ self)) = Some (document_ c)
  /\ parse_ (snd (parse_ self)) = (Ok (document_ c), snd (parse_ self)).
Proof.
  intros Hr Hc Hne.
  assert (H : fst (parse_ self) = Ok (document_ c)).
  { rewrite (reachable_parse Hr Hc). now apply parse_text_document. }
  split; [exact H|]. split; [now apply parse_fills_cache|].
  rewrite parse_twice. now rewrite H.
Qed.

Lemma parse_after_load self c :
  content self = Some c -> parsed_content self = None -> c <> [] ->
  fst (parse_ self) = Ok (document_ c)
  /\ parsed_content (snd (parse_ self)) = Some (document_ c)
  /\ fst (parse_ (snd (parse_ self))) = Ok (document_ c).
Proof.
  intros Hc Hp Hne.
  assert (H : fst (parse_ self) = Ok (document_ c)).
  { rewrite (@parse_content uni_decimal uni_alnum self (loaded c));
      [now apply parse_text_document|exact Hc|exact Hp|reflexivity]. }
  split; [exact H|]. split; [now apply parse_fills_cache|].
  rewrite parse_twice. exact H.
Qed.

Lemma no_nl_repeat_hash n : no_nl (repeat hash n).
Proof.
  induction n as [|n IH]; [constructor|].
  constructor; [discriminate|exact IH].
Qed.

Lemma heading_of_padded w1 w2 level ws text :
  all_space w1 -> all_space w2 ->
  1 <= level <= 6 -> ws <> [] -> all_space ws -> no_nl ws ->
  text <> [] -> trimmed text -> no_nl text ->
  line_heading (w1 ++ (repeat hash level ++ ws ++ text) ++ w2)
  = Some (level, text).
Proof.
  intros H1 H2 Hl Hws Hsp Hwn Ht Htr Htn.
  assert (E : line_heading (w1 ++ (repeat hash level ++ ws ++ text) ++ w2)
              = line_heading (repeat hash level ++ ws ++ text)).
  { unfold heading_of. now rewrite (strip_pad _ H1 H2). }
  rewrite E.
  assert (Es : strip text = text) by now apply trimmed_strip.
  rewrite <- Es at 2.
  eapply heading_of_raw; [|reflexivity|exact Hl|exact Hws|exact Hsp|].
  - apply no_nl_app. split; [apply no_nl_repeat_hash|].
    apply no_nl_app. now split.
  - now rewrite Es.
Qed.

Lemma heading_line_listed pre line post level text :
  line_heading line = Some (level, text) ->
  In (Heading.Make level text (S (length pre)))
     (headings_of 0 (pre ++ line :: post)).
Proof.
  intros H. apply in_headings_from. exists (length pre), line.
  split; [|split].
  - rewrite nth_error_app2 by apply Nat.le_refl.
    now rewrite Nat.sub_diag.
  - cbn [Heading.line_number]. now rewrite Nat.add_1_r.
  - exact H.
Qed.

Lemma heading_line_title pre line post text :
  Forall no_nl (pre ++ line :: post) ->
  line_heading line = Some (1, text) ->
  Forall (fun l => forall t, line_heading l <> Some (1, t)) pre ->
  title_lines (pre ++ line :: post) = Some text.
Proof.
  intros Hnl H Hpre. apply title_loop_some. exists pre, line, post.
  apply Forall_app in Hnl. destruct Hnl as [Hp Hl].
  inversion Hl as [|? ? Hline _]; subst.
  split; [reflexivity|]. split.
  - now apply title_of_level1.
  - rewrite Forall_forall in *. intros l Hin.
    destruct (title_of uni_decimal uni_alnum l) as [t|] eqn:Et; [|reflexivity].
    exfalso. apply (Hpre l Hin t).
    apply title_of_level1; [now apply Hp|assumption].
Qed.

Lemma heading_line_section pre line body post level text :
  line_heading line = Some (level, text) ->
  Forall no_heading body ->
  (forall h p, post = h :: p -> line_heading h <> None) ->
  sects (pre ++ line :: body ++ post)
  = sects pre ++ Sect.Make level text (strip (join_lines body)) :: sects post.
Proof.
  intros H Hb Hpost.
  destruct (@lines_blocks uni_decimal uni_alnum pre) as [p0 [bs1 [E1 [N1 B1]]]].
  destruct (@lines_blocks uni_decimal uni_alnum post) as [q0 [bs2 [E2 [N2 B2]]]].
  assert (Hq : q0 = []).
  { destruct q0 as [|h q]; [reflexivity|]. exfalso.
    inversion N2 as [|? ? Hh _]; subst.
    exact (Hpost h _ eq_refl Hh). }
  subst q0. cbn [app] in E2.
  set (b := {| b_line := line; b_level := level; b_heading := text;
               b_body := body |}).
  assert (Hok : block_ok uni_decimal uni_alnum b) by (split; assumption).
  assert (E : pre ++ line :: body ++ post
              = p0 ++ flat_map block_lines (bs1 ++ b :: bs2)).
  { rewrite flat_map_app. cbn [flat_map]. unfold block_lines at 2.
    cbn [b_line b_body b]. rewrite E1, E2, <- !app_assoc. reflexivity. }
  rewrite E.
  rewrite sections_of_blocks;
    [|assumption|apply Forall_app; split; [assumption|now constructor]].
  rewrite E1, sections_of_blocks by assumption.
  pose proof (@sections_of_blocks uni_decimal uni_alnum [] bs2
                (Forall_nil _) B2) as E3.
  cbn [app] in E3. rewrite E2, E3, map_app. reflexivity.
Qed.

End Recognised.

(** * The claims *)

Section Claims.

Variable uni_decimal : char -> bool.
Variable uni_alnum : char -> bool.

Local Abbreviation parse_ := (parse uni_decimal uni_alnum).
Local Abbreviation sections_ := (get_sections uni_decimal uni_alnum).
Local Abbreviation by_level_ := (get_headings_by_level uni_decimal uni_alnum).
Local Abbreviation headings_ := (_extract_headings uni_decimal uni_alnum).
Local Abbreviation title_ := (_extract_title uni_decimal uni_alnum).
Local Abbreviation paragraphs_ := (_extract_paragraphs uni_decimal uni_alnum).
Local Abbreviation code_blocks_ := (_extract_code_blocks uni_decimal uni_alnum).
Local Abbreviation line_heading := (heading_of uni_decimal uni_alnum).
Local Abbreviation is_skip := (skip_line uni_decimal uni_alnum).
Local Abbreviation is_plain := (plain_line uni_decimal uni_alnum).
Local Abbreviation reachable_ := (reachable uni_decimal uni_alnum).
Local Abbreviation parse_text_ := (parse_text uni_decimal uni_alnum).

(** C1, as the code has it: on the text
    [[site](http://a.com) and ![alt](http://b.com/img.png)], [parse]
    returns TWO links, [site] and then [alt] (the inline-link pattern
    also matches the bracket part of the image), and one image,
    [alt]. *)
Theorem C1_links_and_images :
  option_map Parsed.links (returned (fst (parse_ (loaded links_example))))
  = Some [Link.Make (py "site") (py "http://a.com");
          Link.Make (py "alt") (py "http://b.com/img.png")]
  /\ option_map Parsed.images (returned (fst (parse_ (loaded links_example))))
     = Some [Image.Make (py "alt") (py "http://b.com/img.png")].
Proof. split; vm_compute; reflexivity. Qed.

(** C2, as the code has it: [parse] and [get_headings_by_level] fail
    with NoContentError exactly when the content is absent or the empty
    string; after loading a text that is not empty they return;
    [get_sections] never fails and answers the empty list when the
    content is absent or empty. *)
Theorem C2_no_content_error (self : MarkdownReader) (level : nat) :
  (fst (parse_ self) = Raise NoContentError
     <-> (content self = None \/ content self = Some []))
  /\ (fst (by_level_ self level) = Raise NoContentError
     <-> (content self = None \/ content self = Some []))
  /\ (content self = None \/ content self = Some [] -> sections_ self = [])
  /\ (forall c, c <> [] ->
        exists d, fst (parse_ (snd (read_string self c))) = Ok d)
  /\ (forall fs path c, c <> [] -> fst (read fs self path) = Ok c ->
        exists d, fst (parse_ (snd (read fs self path))) = Ok d).
Proof.
  assert (Ht : truthy (content self) = None
               <-> (content self = None \/ content self = Some [])).
  { destruct (content self) as [[|x s]|]; simpl; split; auto;
      try discriminate; intros [H|H]; discriminate. }
  assert (Hp : fst (parse_ self) = Raise NoContentError
               <-> truthy (content self) = None).
  { unfold parse. destruct (truthy (content self)) as [c|].
    - destruct (parsed_content self); simpl; split; discriminate.
    - simpl. split; auto. }
  split; [now rewrite Hp|]. split.
  { rewrite <- Ht, <- Hp. unfold get_headings_by_level.
    destruct (parse_ self) as [[d|e] self']; simpl; split; congruence. }
  split.
  { intros H. apply Ht in H. unfold get_sections. now rewrite H. }
  split.
  - intros c Hc. destruct c as [|x c]; [congruence|].
    unfold parse. simpl. eexists. reflexivity.
  - intros fs path c Hc. unfold read.
    destruct (fs_exists fs path); cbn [negb fst snd]; [|discriminate].
    destruct (fs_is_file fs path); cbn [negb fst snd]; [|discriminate].
    destruct (fs_read_text fs path) as [txt|e]; cbn [fst snd]; [|discriminate].
    intros H. inversion H; subst txt.
    destruct c as [|x c]; [congruence|].
    unfold parse. simpl. eexists. reflexivity.
Qed.


(** C4: a line is recorded as a heading exactly when (stripped of the
    whitespace around it) it is 1 to 6 [#], then whitespace, then a text
    that is not empty; the level is the number of [#], the text is
    trimmed, the line number counts from 1; the headings come in
    document order, equal ones included; a line that starts with 7 [#]
    or more is never recorded; a line written as 1 to 6 [#], whitespace
    and a text with something other than whitespace in it is recorded
    as it stands. *)
Theorem C4_headings (c : str) :
  (forall level text n,
      In (Heading.Make level text n) (headings_ (loaded c)) <->
      exists line,
        1 <= n /\ nth_error (split_lines c) (n - 1) = Some line /\
        heading_form (strip line) level text)
  /\ StronglySorted lt (map Heading.line_number (headings_ (loaded c)))
  /\ (forall h, In h (headings_ (loaded c)) ->
        1 <= Heading.level h <= 6 /\ trimmed (Heading.text h)
        /\ Heading.text h <> [])
  /\ (forall n line,
        nth_error (split_lines c) n = Some line ->
        startswith (repeat hash 7) (strip line) = true ->
        forall h, In h (headings_ (loaded c)) -> Heading.line_number h <> n + 1)
  /\ (forall n line level ws rest,
        nth_error (split_lines c) n = Some line ->
        line = repeat hash level ++ ws ++ rest ->
        1 <= level <= 6 -> ws <> [] -> all_space ws -> strip rest <> [] ->
        In (Heading.Make level (strip rest) (n + 1)) (headings_ (loaded c)))
  /\ (forall d, fst (parse_ (loaded c)) = Ok d ->
        Parsed.headings d = headings_ (loaded c))
  /\ headings_ (loaded duplicates_example)
     = [Heading.Make 1 (py "A") 1; Heading.Make 1 (py "A") 2].
Proof.
  assert (Hline : forall k line, nth_error (split_lines c) k = Some line ->
                                 no_nl line).
  { intros k line H. apply nth_error_In in H.
    pose proof (split_lines_no_nl c) as Hall.
    rewrite Forall_forall in Hall. now apply Hall. }
  assert (Hin : forall level text n,
      In (Heading.Make level text n) (headings_ (loaded c)) <->
      exists line,
        1 <= n /\ nth_error (split_lines c) (n - 1) = Some line /\
        heading_form (strip line) level text).
  { intros level text n. rewrite extract_headings_lines, in_headings_from.
    cbn [Heading.level Heading.text Heading.line_number]. split.
    - intros [k [line [H1 [H2 H3]]]]. exists line.
      replace (n - 1) with k by lia. split; [lia|]. split; [assumption|].
      apply heading_of_form in H3; eauto.
    - intros [line [H1 [H2 H3]]]. exists (n - 1), line.
      split; [assumption|]. split; [lia|].
      apply heading_of_form; eauto. }
  split; [exact Hin|]. split.
  { rewrite extract_headings_lines. apply headings_from_sorted. }
  split.
  { intros [level text n] H. apply Hin in H.
    destruct H as [line [_ [_ H]]]. cbn [Heading.level Heading.text].
    eapply heading_form_text; eauto. }
  split.
  { intros n line Hn H7 h Hh E.
    rewrite extract_headings_lines in Hh. apply in_headings_from in Hh.
    destruct Hh as [k [line' [H1 [H2 H3]]]].
    assert (k = n) by lia. subst k. rewrite Hn in H1. inversion H1; subst line'.
    rewrite heading_of_seven in H3; [discriminate|eauto|assumption]. }
  split.
  { intros n line level ws rest Hn E Hl Hws Hsp Hrest.
    rewrite extract_headings_lines. apply in_headings_from.
    exists n, line. split; [assumption|]. split; [reflexivity|].
    cbn [Heading.level Heading.text].
    eapply heading_of_raw; eauto. }
  split.
  { intros d Hd. apply parse_text_fields in Hd. destruct Hd as [_ Hd].
    now subst d. }
  vm_compute. reflexivity.
Qed.

(** C5, as the code has it: after loading a text that is not empty,
    [parse] returns the document of that text and caches it, and a
    second [parse] with no load in between returns that very result and
    changes nothing; the result is [document c], a function of the raw
    content [c] alone, whatever the reader did before.  After loading
    the empty text both calls fail with NoContentError: no result is
    returned. *)
Theorem C5_parse_cached :
  (forall self,
      parse_ (snd (parse_ self)) = (fst (parse_ self), snd (parse_ self)))
  /\ (forall self d,
      fst (parse_ self) = Ok d -> parsed_content (snd (parse_ self)) = Some d)
  /\ (forall self c,
      reachable_ self -> content self = Some c ->
      fst (parse_ self) = parse_text_ c)
  /\ (forall self c, fst (parse_ (snd (read_string self c))) = parse_text_ c)
  /\ (forall fs self path c,
      fst (read fs self path) = Ok c ->
      fst (parse_ (snd (read fs self path))) = parse_text_ c)
  /\ (forall self c,
      c <> [] ->
      fst (parse_ (snd (read_string self c)))
      = Ok (document uni_decimal uni_alnum c)
      /\ parsed_content (snd (parse_ (snd (read_string self c))))
         = Some (document uni_decimal uni_alnum c)
      /\ fst (parse_ (snd (parse_ (snd (read_string self c)))))
         = Ok (document uni_decimal uni_alnum c))
  /\ (forall fs self path c,
      fst (read fs self path) = Ok c -> c <> [] ->
      fst (parse_ (snd (read fs self path)))
      = Ok (document uni_decimal uni_alnum c)
      /\ parsed_content (snd (parse_ (snd (read fs self path))))
         = Some (document uni_decimal uni_alnum c)
      /\ fst (parse_ (snd (parse_ (snd (read fs self path)))))
         = Ok (document uni_decimal uni_alnum c))
  /\ (forall self c,
      reachable_ self -> content self = Some c -> c <> [] ->
      fst (parse_ self) = Ok (document uni_decimal uni_alnum c)
      /\ parsed_content (snd (parse_ self))
         = Some (document uni_decimal uni_alnum c)
      /\ parse_ (snd (parse_ self))
         = (Ok (document uni_decimal uni_alnum c), snd (parse_ self)))
  /\ (forall self,
      fst (parse_ (snd (read_string self []))) = Raise NoContentError
      /\ fst (parse_ (snd (parse_ (snd (read_string self [])))))
         = Raise NoContentError).
Proof.
  split; [apply parse_twice|]. split; [apply parse_fills_cache|].
  split; [apply reachable_parse|]. split.
  { intros self c. apply parse_content; reflexivity. }
  split.
  { intros fs self path c. unfold read.
    destruct (fs_exists fs path); cbn [negb fst snd]; [|discriminate].
    destruct (fs_is_file fs path); cbn [negb fst snd]; [|discriminate].
    destruct (fs_read_text fs path) as [txt|e]; cbn [fst snd]; [|discriminate].
    intros H. inversion H; subst txt. apply parse_content; reflexivity. }
  split.
  { intros self c Hc. apply parse_after_load; [reflexivity|reflexivity|exact Hc]. }
  split.
  { intros fs self path c. unfold read.
    destruct (fs_exists fs path); cbn [negb fst snd]; [|discriminate].
    destruct (fs_is_file fs path); cbn [negb fst snd]; [|discriminate].
    destruct (fs_read_text fs path) as [txt|e]; cbn [fst snd]; [|discriminate].
    intros H Hc. inversion H; subst txt.
    apply parse_after_load; [reflexivity|reflexivity|exact Hc]. }
  split.
  { intros self c. apply parse_returns. }
  intros self. split; reflexivity.
Qed.

(** C6: the sections of [# A / content1 / ## B / content2] are
    [A] with [content1] and [B] with [content2]; in every document the
    lines before the first heading are in no section, the content of a
    section is its lines joined by newlines and trimmed at the two ends,
    and trimming takes whitespace from the ends only, so the blank lines
    inside a section stay. *)
Theorem C6_sections :
  sections_ (loaded sections_example)
  = [Sect.Make 1 (py "A") (py "content1"); Sect.Make 2 (py "B") (py "content2")]
  /\ (forall pre blocks,
        Forall no_nl (pre ++ flat_map block_lines blocks) ->
        Forall (not_heading uni_decimal uni_alnum) pre ->
        Forall (block_ok uni_decimal uni_alnum) blocks ->
        sections_ (loaded (join_lines (pre ++ flat_map block_lines blocks)))
        = map block_section blocks)
  /\ (forall lines, exists pre blocks,
        lines = pre ++ flat_map block_lines blocks /\
        Forall (not_heading uni_decimal uni_alnum) pre /\
        Forall (block_ok uni_decimal uni_alnum) blocks)
  /\ (forall body, exists w1 w2,
        all_space w1 /\ all_space w2 /\
        join_lines body = w1 ++ strip (join_lines body) ++ w2)
  /\ sections_ (loaded blank_lines_example)
     = [Sect.Make 1 (py "A") (doc ["x"; ""; "y"]); Sect.Make 2 (py "B") []].
Proof.
  split; [vm_compute; reflexivity|]. split.
  { intros pre blocks Hnl Hp Hb. rewrite sections_doc by assumption.
    now apply sections_of_blocks. }
  split; [apply lines_blocks|]. split.
  { intros body. apply strip_split. }
  vm_compute. reflexivity.
Qed.

(** C7: a text holding the fenced block [```python / print(1) / ```]
    gives one code block, of language [python] and code [print(1)]; the
    code of every block is trimmed; an opening fence with no tag gives
    no language, one with a tag gives the tag. *)
Theorem C7_code_blocks :
  option_map Parsed.code_blocks (returned (fst (parse_ (loaded code_example))))
  = Some [CodeBlock.Make (Some (py "python")) (py "print(1)")]
  /\ option_map Parsed.code_blocks
       (returned (fst (parse_ (loaded code_in_text_example))))
     = Some [CodeBlock.Make (Some (py "python")) (py "print(1)")]
  /\ (forall c b, In b (code_blocks_ (loaded c)) -> trimmed (CodeBlock.code b))
  /\ (forall pre rest n,
        Forall (fun x => x <> backtick) pre ->
        find_fence rest = Some n ->
        code_blocks_ (loaded (pre ++ fence ++ nl :: rest))
        = CodeBlock.Make None (strip (firstn n rest))
          :: code_blocks_ (loaded (skipn (n + 3) rest)))
  /\ (forall pre x tag rest n,
        Forall (fun x => x <> backtick) pre ->
        Forall (fun x => is_word uni_alnum x = true) (x :: tag) ->
        find_fence rest = Some n ->
        code_blocks_ (loaded (pre ++ fence ++ (x :: tag) ++ nl :: rest))
        = CodeBlock.Make (Some (x :: tag)) (strip (firstn n rest))
          :: code_blocks_ (loaded (skipn (n + 3) rest))).
Proof.
  split; [vm_compute; reflexivity|]. split; [vm_compute; reflexivity|].
  split.
  { intros c b Hb. rewrite extract_code_blocks_text in Hb.
    apply in_map_iff in Hb. destruct Hb as [sm [E _]]. subst b.
    apply strip_trimmed. }
  split.
  - intros pre rest n Hpre Hn.
    apply (@code_blocks_at_fence uni_decimal uni_alnum pre [] rest n);
      auto.
  - intros pre x tag rest n Hpre Htag Hn.
    now apply (@code_blocks_at_fence uni_decimal uni_alnum pre (x :: tag) rest n).
Qed.

(** C8: [read] fails with NotFoundError when the path does not exist
    and with InvalidInputError when it exists and is not a regular file,
    and leaves the reader as it was in both cases; when it succeeds the
    text of the file is the new content and the cache is empty. *)
Theorem C8_read (fs : FileSystem) (self : MarkdownReader) (path : str) :
  (fs_exists fs path = false ->
     read fs self path = (Raise (NotFoundError path), self))
  /\ (fs_exists fs path = true -> fs_is_file fs path = false ->
     read fs self path = (Raise (InvalidInputError path), self))
  /\ (forall txt,
     fs_exists fs path = true -> fs_is_file fs path = true ->
     fs_read_text fs path = Ok txt ->
     read fs self path
     = (Ok txt, {| file_path := Some path; content := Some txt;
                   parsed_content := None |})).
Proof.
  unfold read. split; [|split].
  - intros H. now rewrite H.
  - intros H1 H2. now rewrite H1, H2.
  - intros txt H1 H2 H3. now rewrite H1, H2, H3.
Qed.

(** C9: in every state the reader can be in, the title of a parse
    result is the text of the first level-1 entry of its headings list,
    and it is present exactly when the list has a level-1 entry. *)
Theorem C9_title_first_h1 (self : MarkdownReader) (d : Parsed.t) :
  reachable_ self -> fst (parse_ self) = Ok d ->
  Parsed.title d = first_h1 (Parsed.headings d)
  /\ (Parsed.title d <> None <->
      exists h, In h (Parsed.headings d) /\ Heading.level h = 1).
Proof.
  intros Hr Hd.
  assert (Hc : exists c, content self = Some c).
  { revert Hd. unfold parse.
    destruct (truthy (content self)) as [c|] eqn:E; [|discriminate].
    intros _. exists c. now apply truthy_content. }
  destruct Hc as [c Hc].
  rewrite (reachable_parse Hr Hc) in Hd.
  apply parse_text_fields in Hd. destruct Hd as [_ Hd]. subst d.
  cbn [Parsed.title Parsed.headings].
  assert (E : title_ (loaded c) = first_h1 (headings_ (loaded c))).
  { rewrite extract_title_lines, extract_headings_lines.
    apply title_loop_first_h1, split_lines_no_nl. }
  split; [exact E|]. rewrite E. unfold first_h1.
  destruct (find (fun h => Nat.eqb (Heading.level h) 1) (headings_ (loaded c)))
    as [h|] eqn:F; cbn [option_map].
  - apply find_some in F. destruct F as [F1 F2]. apply Nat.eqb_eq in F2.
    split; [intros _; now exists h|discriminate].
  - split; [congruence|]. intros [h [H1 H2]].
    pose proof (find_none _ _ F h H1) as Hn. cbv beta in Hn.
    rewrite H2 in Hn. discriminate.
Qed.

(** C10: the three places that recognise a heading look at the stripped
    line.  A line whose stripped form is a heading is recognised as a
    heading, with the level and the text of its stripped form, however
    much whitespace stands before and after it; in a document it is
    listed among the headings with its line number, it gives the title
    when it is of level 1 and no line before it is, and it opens a
    section: the sections before it are closed, and its own section
    holds the lines up to the next heading.  Whitespace around a line
    changes neither the heading it is nor the title it gives, and a
    document and the document of its stripped lines have the same title,
    the same headings and sections with the same levels and headings. *)
Theorem C10_stripped_lines :
  (forall w1 t w2,
      all_space w1 -> all_space w2 ->
      line_heading (w1 ++ t ++ w2) = line_heading t
      /\ title_of uni_decimal uni_alnum (w1 ++ t ++ w2)
         = title_of uni_decimal uni_alnum t)
  /\ (forall lines,
      Forall no_nl lines ->
      title_ (loaded (join_lines lines))
      = title_ (loaded (join_lines (map strip lines)))
      /\ headings_ (loaded (join_lines lines))
         = headings_ (loaded (join_lines (map strip lines)))
      /\ map sect_key (sections_ (loaded (join_lines lines)))
         = map sect_key (sections_ (loaded (join_lines (map strip lines)))))
  /\ (forall line level text,
      no_nl line -> heading_form (strip line) level text ->
      line_heading line = Some (level, text)
      /\ line_heading (strip line) = Some (level, text)
      /\ (level = 1 -> title_of uni_decimal uni_alnum line = Some text))
  /\ (forall w1 w2 level ws text,
      all_space w1 -> all_space w2 ->
      1 <= level <= 6 -> ws <> [] -> all_space ws -> no_nl ws ->
      text <> [] -> trimmed text -> no_nl text ->
      line_heading (w1 ++ (repeat hash level ++ ws ++ text) ++ w2)
      = Some (level, text))
  /\ (forall pre line post level text,
      Forall no_nl (pre ++ line :: post) ->
      heading_form (strip line) level text ->
      In (Heading.Make level text (S (length pre)))
         (headings_ (loaded (join_lines (pre ++ line :: post))))
      /\ (level = 1 ->
          Forall (fun l => forall t, ~ heading_form (strip l) 1 t) pre ->
          title_ (loaded (join_lines (pre ++ line :: post))) = Some text))
  /\ (forall pre line body post level text,
      Forall no_nl (pre ++ line :: body ++ post) ->
      heading_form (strip line) level text ->
      Forall (not_heading uni_decimal uni_alnum) body ->
      (forall h p, post = h :: p -> line_heading h <> None) ->
      sections_ (loaded (join_lines (pre ++ line :: body ++ post)))
      = sections_ (loaded (join_lines pre))
        ++ Sect.Make level text (strip (join_lines body))
        :: sections_ (loaded (join_lines post))).
Proof.
  split.
  { intros w1 t w2 H1 H2. unfold heading_of, title_of.
    now rewrite (strip_pad t H1 H2). }
  split.
  { intros lines Hnl. pose proof (no_nl_map_strip Hnl) as Hnl'.
    rewrite !title_doc, !headings_doc, !sections_doc by assumption.
    rewrite title_loop_strip, headings_from_strip.
    split; [reflexivity|]. split; [reflexivity|].
    unfold sections_of. now apply sect_fold_strip. }
  split.
  { intros line level text Hline Hf.
    assert (H : line_heading line = Some (level, text)).
    { now apply (proj2 (@heading_of_form uni_decimal uni_alnum line level text Hline)). }
    split; [exact H|]. split; [now rewrite heading_of_strip|].
    intros ->. now apply title_of_level1. }
  split; [apply heading_of_padded|].
  split.
  { intros pre line post level text Hnl Hf.
    pose proof Hnl as Hnl0.
    apply Forall_app in Hnl0. destruct Hnl0 as [Hp Hl].
    inversion Hl as [|? ? Hline _]; subst.
    assert (H : line_heading line = Some (level, text)).
    { now apply (proj2 (@heading_of_form uni_decimal uni_alnum line level text Hline)). }
    split.
    - rewrite headings_doc by exact Hnl. now apply heading_line_listed.
    - intros -> Hpre. rewrite title_doc by exact Hnl.
      apply heading_line_title; [exact Hnl|exact H|].
      rewrite Forall_forall in *. intros l Hin t Ht.
      apply (Hpre l Hin t).
      now apply (proj1 (@heading_of_form uni_decimal uni_alnum l 1 t (Hp l Hin))). }
  intros pre line body post level text Hnl Hf Hb Hpost.
  pose proof Hnl as Hnl0.
  apply Forall_app in Hnl0. destruct Hnl0 as [Hp Hl].
  inversion Hl as [|? ? Hline Hrest]; subst.
  apply Forall_app in Hrest. destruct Hrest as [_ Hq].
  assert (H : line_heading line = Some (level, text)).
  { now apply (proj2 (@heading_of_form uni_decimal uni_alnum line level text Hline)). }
  rewrite !sections_doc by assumption.
  now apply heading_line_section.
Qed.

End Claims.

(** * Further properties of the reader *)

Section Extras.

Variable uni_decimal : char -> bool.
Variable uni_alnum : char -> bool.

Local Abbreviation parse_ := (parse uni_decimal uni_alnum).
Local Abbreviation sections_ := (get_sections uni_decimal uni_alnum).
Local Abbreviation by_level_ := (get_headings_by_level uni_decimal uni_alnum).
Local Abbreviation texts_at_ := (texts_at uni_decimal uni_alnum).
Local Abbreviation headings_ := (_extract_headings uni_decimal uni_alnum).
Local Abbreviation title_ := (_extract_title uni_decimal uni_alnum).
Local Abbreviation paragraphs_ := (_extract_paragraphs uni_decimal uni_alnum).
Local Abbreviation code_blocks_ := (_extract_code_blocks uni_decimal uni_alnum).
Local Abbreviation links_ := (_extract_links uni_decimal uni_alnum).
Local Abbreviation images_ := (_extract_images uni_decimal uni_alnum).
Local Abbreviation line_heading := (heading_of uni_decimal uni_alnum).
Local Abbreviation reachable_ := (reachable uni_decimal uni_alnum).
Local Abbreviation parse_text_ := (parse_text uni_decimal uni_alnum).
Local Abbreviation word := (is_word uni_alnum).

(** X1: every link of [_extract_links], inline or reference, has a
    text that is not empty and holds no [\]], and a url that is not
    empty. *)
Theorem X1_links_well_formed (c : str) (l : Link.t) :
  In l (links_ (loaded c)) ->
  Link.text l <> [] /\ ~ In 93%N (Link.text l) /\ Link.url l <> [].
Proof.
  rewrite extract_links_text. intros H. apply in_app_or in H.
  destruct H as [H|H].
  - apply inline_links_sound in H.
    destruct H as [_ [H1 [H2 [H3 _]]]]. auto.
  - destruct l as [text url]. cbn [Link.text Link.url].
    apply in_ref_links_from in H; [|apply split_lines_no_nl].
    destruct H as [line [_ H]]. apply ref_form_url in H.
    destruct H as [H1 [H2 [H3 _]]]. auto.
Qed.

(** X2: the links list is the inline links, found anywhere in the text
    and captured as written, followed by the reference definitions: one
    for each line whose stripped form is [[text]:], whitespace, url, in
    the order of the lines, with the url trimmed. *)
Theorem X2_reference_links_last (c : str) :
  links_ (loaded c)
  = inline_links uni_decimal uni_alnum c
    ++ ref_links_from uni_decimal uni_alnum (split_lines c)
  /\ (forall l, In l (inline_links uni_decimal uni_alnum c) ->
        (exists pre rest,
            c = pre ++ link_text (Link.text l) (Link.url l) ++ rest)
        /\ ~ In 41%N (Link.url l))
  /\ (forall text url,
        In (Link.Make text url)
           (ref_links_from uni_decimal uni_alnum (split_lines c))
        <-> exists line,
              In line (split_lines c) /\ ref_form (strip line) text url)
  /\ (forall l, In l (ref_links_from uni_decimal uni_alnum (split_lines c)) ->
        trimmed (Link.url l)).
Proof.
  split; [apply extract_links_text|]. split.
  { intros l H. apply inline_links_sound in H.
    destruct H as [H1 [_ [_ [_ H2]]]]. now split. }
  split.
  { intros text url. apply in_ref_links_from, split_lines_no_nl. }
  intros [text url] H. cbn [Link.url].
  apply in_ref_links_from in H; [|apply split_lines_no_nl].
  destruct H as [line [_ H]]. now apply ref_form_url in H.
Qed.

(** X3: an image written after a text without [\[] is the first image,
    and the search goes on after it; when its alt text is not empty it
    is also the first link. *)
Theorem X3_image_is_also_link (pre alt url rest : str) :
  ~ In 91%N pre -> ~ In 93%N alt -> url <> [] -> ~ In 41%N url ->
  images_ (loaded (pre ++ image_text alt url ++ rest))
  = Image.Make alt url :: images_ (loaded rest)
  /\ (alt <> [] ->
      exists others,
        links_ (loaded (pre ++ image_text alt url ++ rest))
        = Link.Make alt url :: others).
Proof.
  intros Hpre Halt Hurl Hu. split.
  - rewrite !extract_images_text.
    assert (Him : image_at (image_text alt url ++ rest) = Some (alt, url, rest))
      by (apply image_at_some; auto).
    assert (Hrun : run uni_decimal uni_alnum image_re 0
                     (image_text alt url ++ rest) [] accept
                   = Some (mkMatch (length alt + length url + 5)
                             [(2, url); (1, alt)])).
    { rewrite run_image_re. now rewrite Him. }
    change (image_text alt url ++ rest)
      with (33%N :: (link_text alt url ++ rest)) in *.
    rewrite finditer_image_pre by assumption.
    erewrite finditer_from_hit by (try exact Hrun; simpl; lia).
    cbn [map snd m_end]. f_equal.
    f_equal.
    change (33%N :: (link_text alt url ++ rest))
      with (image_text alt url ++ rest).
    rewrite <- image_text_length, <- (Nat.add_0_r (length (image_text alt url))).
    now rewrite skipn_app_length.
  - intros Hne. rewrite extract_links_text. unfold inline_links, finditer.
    assert (Hl : link_at (link_text alt url ++ rest) = Some (alt, url, rest))
      by (apply link_at_some; auto).
    assert (Hrun : run uni_decimal uni_alnum link_re 0
                     (link_text alt url ++ rest) [] accept
                   = Some (mkMatch (length alt + length url + 4)
                             [(2, url); (1, alt)])).
    { rewrite run_link_re. now rewrite Hl. }
    change (pre ++ image_text alt url ++ rest)
      with (pre ++ [33%N] ++ (link_text alt url ++ rest)).
    rewrite app_assoc, finditer_link_pre.
    2:{ intros Hin. apply in_app_or in Hin. destruct Hin as [Hin|[Hin|[]]];
        [contradiction|discriminate]. }
    change (link_text alt url ++ rest)
      with (91%N :: (alt ++ py "](" ++ url ++ py ")") ++ rest) in *.
    erewrite finditer_from_hit by (try exact Hrun; simpl; lia).
    cbn [map snd]. eexists. reflexivity.
Qed.

(** X4: the images found are written in the text one after the other
    without overlap, each as [![alt](url)], with a url that is not empty
    and holds no [)] and an alt text that holds no [\]]. *)
Theorem X4_images_in_text (c : str) :
  (exists gaps tail,
      length gaps = length (images_ (loaded c))
      /\ c = weave gaps (map image_written (images_ (loaded c))) tail)
  /\ (forall i, In i (images_ (loaded c)) ->
        Image.url i <> [] /\ ~ In 41%N (Image.url i)
        /\ ~ In 93%N (Image.alt_text i)).
Proof.
  split; [apply images_weave|].
  intros i H. rewrite extract_images_text in H.
  apply in_map_iff in H. destruct H as [[sfx m] [E H]]. cbn [snd] in E.
  apply finditer_from_sound in H. destruct H as [Hm _].
  apply image_match in Hm. destruct Hm as [rest [_ [_ [H1 [H2 H3]]]]].
  subst i. auto.
Qed.

(** X5: the code blocks found are written in the text one after the
    other without overlap, each as a fence, a tag of word characters
    (possibly none), a newline, a body without a fence, and a fence; the
    block holds the tag (none when it is empty) and the trimmed body. *)
Theorem X5_code_blocks_in_text (c : str) :
  exists raw gaps tail,
    code_blocks_ (loaded c) = map block_of raw
    /\ length gaps = length raw
    /\ c = weave gaps (map block_written raw) tail
    /\ Forall (fun tb => Forall (fun x => word x = true) (fst tb)
                         /\ ~ has_fence (snd tb)) raw.
Proof. apply code_blocks_weave. Qed.

(** X6: the code of a block never holds a fence and a language, when
    there is one, is a run of word characters that is not empty; a text
    in which no fence is followed by another fence has no code block. *)
Theorem X6_code_blocks_fences (c : str) :
  (forall b, In b (code_blocks_ (loaded c)) ->
      ~ has_fence (CodeBlock.code b)
      /\ (forall tag, CodeBlock.language b = Some tag ->
            tag <> [] /\ Forall (fun x => word x = true) tag))
  /\ ((forall a b, c = a ++ fence ++ b -> ~ has_fence b) ->
      code_blocks_ (loaded c) = []).
Proof.
  destruct (code_blocks_weave uni_decimal uni_alnum c)
    as [raw [gaps [tail [H1 [H2 [H3 H4]]]]]].
  split.
  - intros b Hb. rewrite H1 in Hb. apply in_map_iff in Hb.
    destruct Hb as [[tag body] [E Hin]]. subst b.
    rewrite Forall_forall in H4. destruct (H4 _ Hin) as [Ht Hf].
    cbn [fst snd] in *. unfold block_of. cbn [CodeBlock.code CodeBlock.language fst snd].
    split.
    + intros Hs. apply Hf. now apply has_fence_strip.
    + intros t Et. destruct tag as [|x tag]; [discriminate|].
      inversion Et; subst t. split; [discriminate|assumption].
  - intros Hc. rewrite H1. destruct raw as [|[tag body] raw]; [reflexivity|].
    exfalso. destruct gaps as [|g gaps]; [discriminate|].
    cbn [map weave] in H3. unfold block_written, block_text in H3.
    cbn [fst snd] in H3.
    apply (Hc g (tag ++ [nl] ++ body ++ fence
                   ++ weave gaps (map block_written raw) tail)).
    + rewrite H3 at 1. now rewrite <- !app_assoc.
    + exists (tag ++ [nl] ++ body), (weave gaps (map block_written raw) tail).
      now rewrite <- !app_assoc.
Qed.

(** X7: every paragraph is trimmed, holds no newline and does not start
    with [#]. *)
Theorem X7_paragraphs_well_formed (c p : str) :
  In p (paragraphs_ (loaded c)) ->
  p <> [] /\ trimmed p /\ no_nl p /\ startswith (py "#") p = false.
Proof.
  rewrite extract_paragraphs_lines. intros H.
  pose proof (paragraphs_of_ok uni_decimal uni_alnum (split_lines_no_nl c)) as Hall.
  rewrite Forall_forall in Hall. exact (Hall p H).
Qed.

(** X8: the sections and the headings run in step: the levels and
    headings of [get_sections] are, in order, the levels and texts of
    [_extract_headings]. *)
Theorem X8_sections_follow_headings (c : str) :
  map sect_key (sections_ (loaded c)) = map heading_key (headings_ (loaded c))
  /\ length (sections_ (loaded c)) = length (headings_ (loaded c)).
Proof.
  pose proof (sections_headings uni_decimal uni_alnum c) as H.
  split; [exact H|].
  apply (f_equal (@length _)) in H. now rewrite !length_map in H.
Qed.

(** X9: every section has a level from 1 to 6, a heading that is
    trimmed and not empty, and a trimmed content. *)
Theorem X9_sections_well_formed (c : str) (s : Sect.t) :
  In s (sections_ (loaded c)) ->
  1 <= Sect.level s <= 6 /\ trimmed (Sect.heading s)
  /\ Sect.heading s <> [] /\ trimmed (Sect.content s).
Proof.
  intros Hs.
  assert (Hk : In (sect_key s) (map heading_key (headings_ (loaded c)))).
  { rewrite <- sections_headings. now apply in_map. }
  apply in_map_iff in Hk. destruct Hk as [h [E Hh]].
  apply headings_well_formed in Hh. destruct Hh as [H1 [H2 [H3 _]]].
  unfold sect_key, heading_key in E. injection E as El Et.
  rewrite <- El, <- Et. split; [assumption|]. split; [assumption|].
  split; [assumption|].
  rewrite get_sections_lines in Hs.
  destruct (lines_blocks uni_decimal uni_alnum (split_lines c))
    as [pre [blocks [Eb [Hp Hb]]]].
  rewrite Eb, sections_of_blocks in Hs by assumption.
  apply in_map_iff in Hs. destruct Hs as [b [Es _]]. subst s.
  apply strip_trimmed.
Qed.

(** X10: the first text [get_headings_by_level] gives for level 1 is
    the title of the parse result, and there is no title exactly when
    it gives none. *)
Theorem X10_title_is_first_of_level_1 (self : MarkdownReader) (l : list str) :
  reachable_ self -> fst (by_level_ self 1) = Ok l ->
  exists d, fst (parse_ self) = Ok d /\ Parsed.title d = hd_error l.
Proof.
  intros Hr. rewrite by_level_parse.
  destruct (fst (parse_ self)) as [d|e] eqn:Ed; [|discriminate].
  intros H. inversion H; subst l. exists d. split; [reflexivity|].
  destruct (reachable_parse_fields Hr Ed) as [c [_ [_ [Ht [Hh _]]]]].
  rewrite hd_error_map_filter, Ht, Hh.
  rewrite extract_title_lines, extract_headings_lines.
  apply title_loop_first_h1, split_lines_no_nl.
Qed.

(** X11: [get_headings_by_level] gives a text for a level exactly when
    a heading of that level has that text; it gives nothing for level 0
    and for levels above 6; the six lists for the levels 1 to 6 hold
    together as many texts as there are headings. *)
Theorem X11_headings_by_level (c : str) (d : Parsed.t) :
  fst (parse_ (loaded c)) = Ok d ->
  (forall level x,
      In x (texts_at_ (loaded c) level) <->
      exists n, In (Heading.Make level x n) (Parsed.headings d))
  /\ (forall level, level = 0 \/ 6 < level -> texts_at_ (loaded c) level = [])
  /\ length (Parsed.headings d)
     = list_sum (map (fun level => length (texts_at_ (loaded c) level))
                     [1; 2; 3; 4; 5; 6]).
Proof.
  intros Hd.
  assert (Hat : forall level,
    texts_at_ (loaded c) level
    = map Heading.text
        (filter (fun h => Nat.eqb (Heading.level h) level) (Parsed.headings d))).
  { intros level. unfold texts_at. now rewrite by_level_parse, Hd. }
  assert (Hh : Parsed.headings d = headings_ (loaded c)).
  { apply parse_text_fields in Hd. destruct Hd as [_ Hd]. now subst d. }
  split; [|split].
  - intros level x. rewrite Hat, in_map_iff. split.
    + intros [h [E Hin]]. apply filter_In in Hin. destruct Hin as [Hin Hl].
      apply Nat.eqb_eq in Hl. exists (Heading.line_number h).
      destruct h; cbn in *. now subst.
    + intros [n Hin]. exists (Heading.Make level x n). split; [reflexivity|].
      apply filter_In. split; [assumption|]. apply Nat.eqb_refl.
  - intros level Hl. rewrite Hat.
    assert (Hnone : filter (fun h => Nat.eqb (Heading.level h) level)
                           (Parsed.headings d) = []).
    { destruct (filter _ _) as [|h t] eqn:E; [reflexivity|exfalso].
      assert (Hin : In h (filter (fun h => Nat.eqb (Heading.level h) level)
                                 (Parsed.headings d))) by (rewrite E; now left).
      apply filter_In in Hin. destruct Hin as [Hin Hlv].
      apply Nat.eqb_eq in Hlv. rewrite Hh in Hin.
      apply headings_well_formed in Hin. lia. }
    now rewrite Hnone.
  - rewrite (count_levels (hs := Parsed.headings d)).
    + f_equal. apply map_ext. intros level. now rewrite Hat, length_map.
    + rewrite Hh. apply headings_levels.
Qed.

(** X12: in every state the reader can be in, the raw text of a parse
    result is the current content, which is not empty, and [parse]
    changes neither the content nor the path. *)
Theorem X12_parse_keeps_content (self : MarkdownReader) (d : Parsed.t) :
  reachable_ self -> fst (parse_ self) = Ok d ->
  get_content self = Some (Parsed.raw d)
  /\ Parsed.raw d <> []
  /\ get_content (snd (parse_ self)) = Some (Parsed.raw d)
  /\ file_path (snd (parse_ self)) = file_path self.
Proof.
  intros Hr Hd.
  destruct (reachable_parse_fields Hr Hd) as [c [Hc [Hne [_ [_ Hraw]]]]].
  destruct (parse_keeps uni_decimal uni_alnum self) as [K1 K2].
  unfold get_content. rewrite K1, Hc, Hraw. auto.
Qed.

(** X13: the constructor.  With no path, or with the empty path, it
    gives the empty reader, on which [parse] fails with NoContentError.
    With a path it reads the file: a missing path fails with
    NotFoundError, a path that is not a file with InvalidInputError, and
    a file that is read gives a reader holding its text and no cache.
    What it gives is always a state the reader can be in. *)
Theorem X13_constructor (fs : FileSystem) :
  new fs None = Ok init /\ new fs (Some []) = Ok init
  /\ fst (parse_ init) = Raise NoContentError
  /\ (forall x p, fs_exists fs (x :: p) = false ->
        new fs (Some (x :: p)) = Raise (NotFoundError (x :: p)))
  /\ (forall x p, fs_exists fs (x :: p) = true ->
        fs_is_file fs (x :: p) = false ->
        new fs (Some (x :: p)) = Raise (InvalidInputError (x :: p)))
  /\ (forall x p txt, fs_exists fs (x :: p) = true ->
        fs_is_file fs (x :: p) = true ->
        fs_read_text fs (x :: p) = Ok txt ->
        new fs (Some (x :: p))
        = Ok {| file_path := Some (x :: p); content := Some txt;
                parsed_content := None |})
  /\ (forall path self, new fs path = Ok self ->
        reachable_ self /\ parsed_content self = None).
Proof.
  split; [reflexivity|]. split; [reflexivity|]. split; [reflexivity|].
  split; [|split; [|split]].
  - intros x p H. unfold new, read. cbn [truthy]. now rewrite H.
  - intros x p H1 H2. unfold new, read. cbn [truthy]. now rewrite H1, H2.
  - intros x p txt H1 H2 H3. unfold new, read. cbn [truthy].
    now rewrite H1, H2, H3.
  - intros path self. unfold new.
    destruct (truthy path) as [p|].
    + destruct (read fs init p) as [[txt|e] self'] eqn:E; [|discriminate].
      intros H. inversion H; subst self'. split.
      * change self with (snd (Ok txt, self)). rewrite <- E.
        apply reach_read, reach_init.
      * revert E. unfold read.
        destruct (fs_exists fs p); cbn [negb]; [|discriminate].
        destruct (fs_is_file fs p); cbn [negb]; [|discriminate].
        destruct (fs_read_text fs p); [|discriminate].
        intros E. now inversion E.
    + intros H. inversion H; subst. split; [apply reach_init|reflexivity].
Qed.

(** X14: the title is the text of the first line that has the form of
    a level-1 heading: [_extract_title] gives [t] exactly when some line
    has that form with text [t] and no line before it has the form of a
    level-1 heading. *)
Theorem X14_title_first_line (c t : str) :
  title_ (loaded c) = Some t <->
  exists pre line post,
    split_lines c = pre ++ line :: post
    /\ heading_form (strip line) 1 t
    /\ Forall (fun l => forall t', ~ heading_form (strip l) 1 t') pre.
Proof.
  rewrite extract_title_lines, title_loop_some.
  pose proof (split_lines_no_nl c) as Hnl.
  split; intros [pre [line [post [E [H1 H2]]]]]; exists pre, line, post;
    (split; [exact E|]); rewrite E in Hnl; apply Forall_app in Hnl;
    destruct Hnl as [Hpre Hrest]; inversion Hrest as [|? ? Hline _]; subst;
    rewrite Forall_forall in Hpre.
  - split.
    + apply (proj1 (@heading_of_form uni_decimal uni_alnum line 1 t Hline)).
      now apply title_of_level1.
    + rewrite Forall_forall in *. intros l Hl t' Hf.
      apply (proj2 (@heading_of_form uni_decimal uni_alnum l 1 t' (Hpre l Hl))) in Hf.
      apply title_of_level1 in Hf; [|now apply Hpre].
      rewrite (H2 l Hl) in Hf. discriminate.
  - split.
    + apply title_of_level1; [assumption|].
      now apply (proj2 (@heading_of_form uni_decimal uni_alnum line 1 t Hline)).
    + rewrite Forall_forall in *. intros l Hl.
      destruct (title_of uni_decimal uni_alnum l) as [t'|] eqn:Et; [|reflexivity].
      exfalso. apply (H2 l Hl t').
      apply (proj1 (@heading_of_form uni_decimal uni_alnum l 1 t' (Hpre l Hl))).
      apply title_of_level1; [now apply Hpre|assumption].
Qed.

(** X15: a heading line is never paragraph text: taking it out of the
    document leaves the paragraphs as they are. *)
Theorem X15_headings_not_in_paragraphs
    (pre post : list str) (h : str) (level : nat) (text : str) :
  Forall no_nl (pre ++ h :: post) ->
  line_heading h = Some (level, text) ->
  paragraphs_ (loaded (join_lines (pre ++ h :: post)))
  = paragraphs_ (loaded (join_lines (pre ++ post))).
Proof.
  intros Hnl Hh. apply paragraphs_drop_skip; [assumption|].
  eapply heading_is_skipped; [|exact Hh].
  apply Forall_app in Hnl. destruct Hnl as [_ H]. now inversion H.
Qed.

(** X16: a reference definition is not kept out of the paragraphs: a
    document made of one such line has it as its last link and,
    stripped, as its only paragraph. *)
Theorem X16_reference_is_paragraph_too (line text url : str) :
  no_nl line -> ref_form (strip line) text url ->
  links_ (loaded line)
  = inline_links uni_decimal uni_alnum line ++ [Link.Make text url]
  /\ paragraphs_ (loaded line) = [strip line].
Proof.
  intros Hnl Hf. split.
  - rewrite extract_links_text, (split_lines_line Hnl). f_equal.
    cbn [ref_links_from].
    apply (proj2 (@ref_of_form uni_decimal uni_alnum line text url Hnl)) in Hf.
    now rewrite Hf.
  - change line with (join_lines [line]) at 1.
    rewrite paragraphs_of_doc by (now constructor).
    rewrite paragraphs_of_no_blank.
    + cbn [filter]. rewrite (@ref_is_plain uni_decimal uni_alnum line text url Hf).
      reflexivity.
    + constructor; [|constructor].
      eapply plain_not_blank. exact (@ref_is_plain uni_decimal uni_alnum line text url Hf).
Qed.

(** X17: when the path exists and is a file but reading it fails,
    [read] fails with that error, the path of the reader is already the
    new one, and the content and the cache are the old ones: [parse]
    answers as before. *)
Theorem X17_read_error_after_checks
    (fs : FileSystem) (self : MarkdownReader) (path : str) (e : exn) :
  fs_exists fs path = true -> fs_is_file fs path = true ->
  fs_read_text fs path = Raise e ->
  fst (read fs self path) = Raise e
  /\ file_path (snd (read fs self path)) = Some path
  /\ get_content (snd (read fs self path)) = get_content self
  /\ fst (parse_ (snd (read fs self path))) = fst (parse_ self).
Proof.
  intros H1 H2 H3. unfold read. rewrite H1, H2, H3. cbn [negb fst snd].
  repeat split. apply parse_path.
Qed.

(** X18: there are at most as many paragraphs as blank lines, plus
    one. *)
Theorem X18_paragraph_count (c : str) :
  length (paragraphs_ (loaded c)) <= S (length (filter blank (split_lines c))).
Proof. rewrite extract_paragraphs_lines. apply paragraphs_of_count. Qed.

End Extras.

(** * The claims on concrete documents *)

(** C1 as the specification states it, one link only, fails: the links
    list of the example is not the single link [site]. *)
Lemma C1_counterexample :
  option_map Parsed.links
    (returned (fst (parse no_uni no_uni (loaded links_example))))
  <> Some [Link.Make (py "site") (py "http://a.com")].
Proof. vm_compute. discriminate. Qed.

(** C2 as the specification states it fails: after loading the empty
    string [parse] fails with NoContentError, and before any load
    [get_sections] returns (the empty list) instead of failing. *)
Lemma C2_counterexample :
  fst (parse no_uni no_uni (snd (read_string init []))) = Raise NoContentError
  /\ fst (get_headings_by_level no_uni no_uni (snd (read_string init [])) 1)
     = Raise NoContentError
  /\ get_sections no_uni no_uni init = [].
Proof. repeat split. Qed.

Lemma C2_witness :
  (fst (parse no_uni no_uni init) = Raise NoContentError
     <-> (content init = None \/ content init = Some []))
  /\ exists d,
       fst (parse no_uni no_uni (snd (read_string init (py "# A")))) = Ok d.
Proof.
  split.
  - exact (proj1 (C2_no_content_error no_uni no_uni init 1)).
  - apply (proj1 (proj2 (proj2 (proj2 (C2_no_content_error no_uni no_uni init 1))))).
    discriminate.
Defined.


Lemma C4_witness :
  In (Heading.Make 2 (py "Sub") 3)
     (_extract_headings no_uni no_uni
        (loaded (doc ["# Hello"; "####### seven"; "  ##  Sub  "]))).
Proof.
  apply (proj1 (C4_headings no_uni no_uni
                  (doc ["# Hello"; "####### seven"; "  ##  Sub  "]))).
  exists (py "  ##  Sub  "). split; [lia|]. split; [reflexivity|].
  exists (py "  "), (py "Sub"). repeat split.
  - lia.
  - lia.
  - discriminate.
  - apply all_spaceb_ok. reflexivity.
  - discriminate.
Defined.

(** C5 as the specification states it fails: after loading the empty
    text [parse] returns no result, on the first call and on the
    second. *)
Lemma C5_counterexample :
  fst (parse no_uni no_uni (loaded [])) = Raise NoContentError
  /\ fst (parse no_uni no_uni (snd (parse no_uni no_uni (loaded []))))
     = Raise NoContentError
  /\ ~ (forall c : str,
          exists d,
            fst (parse no_uni no_uni (loaded c)) = Ok d
            /\ fst (parse no_uni no_uni (snd (parse no_uni no_uni (loaded c))))
               = Ok d).
Proof.
  split; [reflexivity|]. split; [reflexivity|].
  intros H. destruct (H []) as [d [H1 _]]. discriminate H1.
Qed.

Lemma C5_witness :
  fst (parse no_uni no_uni (loaded sections_example))
  = Ok (document no_uni no_uni sections_example)
  /\ parsed_content (snd (parse no_uni no_uni (loaded sections_example)))
     = Some (document no_uni no_uni sections_example)
  /\ parse no_uni no_uni (snd (parse no_uni no_uni (loaded sections_example)))
     = (Ok (document no_uni no_uni sections_example),
        snd (parse no_uni no_uni (loaded sections_example))).
Proof.
  apply (proj1 (proj2 (proj2 (proj2 (proj2 (proj2 (proj2 (proj2
           (C5_parse_cached no_uni no_uni))))))))).
  - apply reach_read_string, reach_init.
  - reflexivity.
  - discriminate.
Defined.

Lemma C6_witness :
  get_sections no_uni no_uni
    (loaded (doc ["intro"; "# A"; "x"; ""; "y"; ""; "## B"]))
  = [Sect.Make 1 (py "A") (doc ["x"; ""; "y"]); Sect.Make 2 (py "B") []].
Proof.
  apply (proj1 (proj2 (C6_sections no_uni no_uni))
           [py "intro"]
           [ {| b_line := py "# A"; b_level := 1; b_heading := py "A";
                b_body := map py ["x"; ""; "y"; ""] |};
             {| b_line := py "## B"; b_level := 2; b_heading := py "B";
                b_body := [] |} ]).
  - apply linesb_ok. reflexivity.
  - repeat constructor.
  - repeat constructor.
Defined.

Lemma C7_witness :
  _extract_code_blocks no_uni no_uni
    (loaded (doc ["text"; "```"; "  x = 1  "; "```"; "tail"]))
  = [CodeBlock.Make None (py "x = 1")]
  /\ _extract_code_blocks no_uni no_uni
       (loaded (doc ["text"; "```py"; "y"; "```"]))
     = [CodeBlock.Make (Some (py "py")) (py "y")].
Proof.
  split.
  - apply (proj1 (proj2 (proj2 (proj2 (C7_code_blocks no_uni no_uni))))
             (py "text" ++ [nl]) (doc ["  x = 1  "; "```"; "tail"]) 10).
    + apply no_backtickb_ok. reflexivity.
    + reflexivity.
  - apply (proj2 (proj2 (proj2 (proj2 (C7_code_blocks no_uni no_uni))))
             (py "text" ++ [nl]) 112%N [121%N] (doc ["y"; "```"]) 2).
    + apply no_backtickb_ok. reflexivity.
    + repeat constructor.
    + reflexivity.
Defined.

Lemma C8_witness :
  read fs_example init (py "missing.md")
  = (Raise (NotFoundError (py "missing.md")), init)
  /\ read fs_example init (py "dir") = (Raise (InvalidInputError (py "dir")), init)
  /\ read fs_example (snd (parse no_uni no_uni (loaded (py "old")))) (py "a.md")
     = (Ok (doc ["# A"; "text"]),
        {| file_path := Some (py "a.md"); content := Some (doc ["# A"; "text"]);
           parsed_content := None |}).
Proof.
  split; [|split].
  - apply (proj1 (C8_read fs_example init (py "missing.md"))). reflexivity.
  - apply (proj1 (proj2 (C8_read fs_example init (py "dir")))); reflexivity.
  - apply (proj2 (proj2 (C8_read fs_example _ (py "a.md")))); reflexivity.
Defined.

Lemma C9_witness :
  exists d,
    fst (parse no_uni no_uni
           (snd (parse no_uni no_uni (loaded (doc ["## Sub"; " # Top "; "# Next"]))))) = Ok d
    /\ Parsed.title d = first_h1 (Parsed.headings d)
    /\ (Parsed.title d <> None <->
        exists h, In h (Parsed.headings d) /\ Heading.level h = 1).
Proof.
  eexists. split; [reflexivity|].
  apply (@C9_title_first_h1 no_uni no_uni
           (snd (parse no_uni no_uni (loaded (doc ["## Sub"; " # Top "; "# Next"]))))).
  - apply reach_parse, reach_read_string, reach_init.
  - reflexivity.
Defined.

Lemma C10_witness :
  heading_of no_uni no_uni (py "  " ++ (repeat hash 2 ++ py " " ++ py "Sub") ++ py "  ")
  = Some (2, py "Sub")
  /\ (In (Heading.Make 1 (py "Top") 2)
         (_extract_headings no_uni no_uni
            (loaded (join_lines (map py ["text"] ++ py "   # Top  " :: map py ["more"]))))
      /\ _extract_title no_uni no_uni
           (loaded (join_lines (map py ["text"] ++ py "   # Top  " :: map py ["more"])))
         = Some (py "Top"))
  /\ get_sections no_uni no_uni
       (loaded (join_lines (map py ["text"] ++ py "   # Top  "
                              :: map py ["more"; ""] ++ map py [" ## Sub"; "x"])))
     = get_sections no_uni no_uni (loaded (join_lines (map py ["text"])))
       ++ Sect.Make 1 (py "Top") (strip (join_lines (map py ["more"; ""])))
       :: get_sections no_uni no_uni (loaded (join_lines (map py [" ## Sub"; "x"]))).
Proof.
  assert (Hf : heading_form (strip (py "   # Top  ")) 1 (py "Top")).
  { exists (py " "), (py "Top").
    split; [reflexivity|]. split; [lia|]. split; [discriminate|].
    split; [apply all_spaceb_ok; reflexivity|]. split; [discriminate|reflexivity]. }
  split; [|split].
  - apply (proj1 (proj2 (proj2 (proj2 (C10_stripped_lines no_uni no_uni))))).
    + apply all_spaceb_ok; reflexivity.
    + apply all_spaceb_ok; reflexivity.
    + lia.
    + discriminate.
    + apply all_spaceb_ok; reflexivity.
    + apply no_nlb_ok; reflexivity.
    + discriminate.
    + split; reflexivity.
    + apply no_nlb_ok; reflexivity.
  - pose proof (proj1 (proj2 (proj2 (proj2 (proj2 (C10_stripped_lines no_uni no_uni)))))
                  (map py ["text"]) (py "   # Top  ") (map py ["more"]) 1 (py "Top")
                  (@linesb_ok (map py ["text"] ++ py "   # Top  " :: map py ["more"])
                     eq_refl)
                  Hf) as [H1 H2].
    split; [exact H1|]. apply H2; [reflexivity|].
    constructor; [|constructor].
    intros t [ws [rest [E _]]]. discriminate E.
  - apply (proj2 (proj2 (proj2 (proj2 (proj2 (C10_stripped_lines no_uni no_uni)))))).
    + apply linesb_ok; reflexivity.
    + exact Hf.
    + constructor; [reflexivity|]. constructor; [reflexivity|constructor].
    + intros h p E. injection E as <- _. discriminate.
Defined.

(** * The further properties on concrete documents *)

Lemma X1_witness :
  Link.text (Link.Make (py "r") (py "http://x")) <> []
  /\ ~ In 93%N (Link.text (Link.Make (py "r") (py "http://x")))
  /\ Link.url (Link.Make (py "r") (py "http://x")) <> [].
Proof.
  apply (@X1_links_well_formed no_uni no_uni
           (doc ["[a](b) and more"; "[r]:  http://x "])).
  right. left. reflexivity.
Defined.

Lemma X3_witness :
  _extract_images no_uni no_uni (loaded (py "see ![alt](u.png) and ![](v)"))
  = Image.Make (py "alt") (py "u.png")
    :: _extract_images no_uni no_uni (loaded (py " and ![](v)"))
  /\ (py "alt" <> [] ->
      exists others,
        _extract_links no_uni no_uni (loaded (py "see ![alt](u.png) and ![](v)"))
        = Link.Make (py "alt") (py "u.png") :: others).
Proof.
  apply (@X3_image_is_also_link no_uni no_uni
           (py "see ") (py "alt") (py "u.png") (py " and ![](v)")).
  - apply absentb_ok. reflexivity.
  - apply absentb_ok. reflexivity.
  - discriminate.
  - apply absentb_ok. reflexivity.
Defined.

Lemma X7_witness :
  py "one two" <> [] /\ trimmed (py "one two") /\ no_nl (py "one two")
  /\ startswith (py "#") (py "one two") = false.
Proof.
  apply (@X7_paragraphs_well_formed no_uni no_uni
           (doc ["  one"; "# h"; "two  "; ""; "three"])).
  left. reflexivity.
Defined.

Lemma X9_witness :
  1 <= 2 <= 6 /\ trimmed (py "B") /\ py "B" <> [] /\ trimmed (py "content2").
Proof.
  apply (@X9_sections_well_formed no_uni no_uni sections_example
           (Sect.Make 2 (py "B") (py "content2"))).
  right. left. reflexivity.
Defined.

Lemma X10_witness :
  exists d,
    fst (parse no_uni no_uni (loaded title_example)) = Ok d
    /\ Parsed.title d = hd_error [py "Top"; py "Next"].
Proof.
  apply (@X10_title_is_first_of_level_1 no_uni no_uni (loaded title_example)).
  - apply reach_read_string, reach_init.
  - reflexivity.
Defined.

Lemma X11_witness :
  exists d,
    fst (parse no_uni no_uni (loaded title_example)) = Ok d
    /\ texts_at no_uni no_uni (loaded title_example) 7 = []
    /\ length (Parsed.headings d)
       = list_sum (map (fun level =>
                          length (texts_at no_uni no_uni (loaded title_example) level))
                       [1; 2; 3; 4; 5; 6]).
Proof.
  eexists. split; [reflexivity|].
  pose proof (@X11_headings_by_level no_uni no_uni title_example _ eq_refl)
    as [_ [H2 H3]].
  split; [apply H2; right; lia|exact H3].
Defined.

Lemma X12_witness :
  exists d,
    fst (parse no_uni no_uni (snd (parse no_uni no_uni (loaded title_example))))
    = Ok d
    /\ get_content (snd (parse no_uni no_uni (loaded title_example)))
       = Some (Parsed.raw d)
    /\ Parsed.raw d <> [].
Proof.
  eexists. split; [reflexivity|].
  assert (R : reachable no_uni no_uni
                (snd (parse no_uni no_uni (loaded title_example)))).
  { apply reach_parse, reach_read_string, reach_init. }
  pose proof (@X12_parse_keeps_content no_uni no_uni
                (snd (parse no_uni no_uni (loaded title_example))) _
                R eq_refl) as [H1 [H2 _]].
  split; [exact H1|exact H2].
Defined.

Lemma X15_witness :
  _extract_paragraphs no_uni no_uni (loaded (doc ["one"; "  ## Sub"; "two"]))
  = _extract_paragraphs no_uni no_uni (loaded (doc ["one"; "two"])).
Proof.
  apply (@X15_headings_not_in_paragraphs no_uni no_uni
           [py "one"] [py "two"] (py "  ## Sub") 2 (py "Sub")).
  - apply linesb_ok. reflexivity.
  - reflexivity.
Defined.

Lemma X16_witness :
  _extract_links no_uni no_uni (loaded reference_example)
  = inline_links no_uni no_uni reference_example
    ++ [Link.Make (py "home") (py "http://a.com/x")]
  /\ _extract_paragraphs no_uni no_uni (loaded reference_example)
     = [strip reference_example].
Proof.
  apply (@X16_reference_is_paragraph_too no_uni no_uni).
  - apply no_nlb_ok. reflexivity.
  - exists (py "   "), (py "http://a.com/x").
    split; [reflexivity|]. split; [discriminate|].
    split; [apply absentb_ok; reflexivity|]. split; [discriminate|].
    split; [apply all_spaceb_ok; reflexivity|]. split; [discriminate|reflexivity].
Defined.

Lemma X17_witness :
  fst (read fs_unreadable (loaded (py "# old")) (py "b.md"))
  = Raise (ReadError (py "invalid start byte"))
  /\ file_path (snd (read fs_unreadable (loaded (py "# old")) (py "b.md")))
     = Some (py "b.md")
  /\ get_content (snd (read fs_unreadable (loaded (py "# old")) (py "b.md")))
     = get_content (loaded (py "# old"))
  /\ fst (parse no_uni no_uni
            (snd (read fs_unreadable (loaded (py "# old")) (py "b.md"))))
     = fst (parse no_uni no_uni (loaded (py "# old"))).
Proof.
  apply (@X17_read_error_after_checks no_uni no_uni); reflexivity.
Defined.
